(** * Quantum Sudoku: the browser client and the assignment engine it talks to

    The client (App.jsx, components/SudokuBoard.jsx, components/InfoPanel.jsx)
    is embedded as functions over an explicit world: the React state of the
    components, the list of HTTP requests issued so far, the alerts shown
    and the console.  The HTTP server is an oracle answering each request.

    JavaScript numbers are kept abstract in the client ([number], compared
    with SameValueZero, which is Leibniz equality on the abstract type);
    [Number] and number-to-string conversion are parameters, so every
    statement holds whatever these built-ins compute.  [parseInt] with
    radix 10 is written out.  The colour of a probability depends on the
    arithmetic of doubles and is embedded on binary64 numbers
    ([spec_float] at precision 53).

    The page as a whole is a state machine: the state of the components
    and the requests in flight, stepped by clicks on the elements the
    components render and by the settling of a request, in any order. *)

From Stdlib Require Import ZArith QArith Qround Qpower Ascii String List Sorted
  Permutation Lia Lqa.
From Stdlib Require Import Floats.SpecFloat Qabs.
From stdpp Require Import base decidable option list strings pretty relations.

Local Open Scope string_scope.
Local Open Scope list_scope.
Local Open Scope nat_scope.

(** ** JavaScript values and built-ins *)

Module Js.

(** Outcome of running a piece of JavaScript: normal completion or an
    uncaught exception (its [message]). *)
Inductive completion (A : Type) : Type :=
| Normal (a : A)
| Throws (message : string).
Arguments Normal {A} a.
Arguments Throws {A} message.

(** Settled promise of [fetch(...)] followed by [response.json()]: the
    parsed body, or the [message] of the error either step rejected with. *)
Inductive Reply (D : Type) : Type :=
| Rejects (message : string)
| Resolves (data : D).
Arguments Rejects {D} message.
Arguments Resolves {D} data.

(** ['text' + x] where [x] may be [undefined]. *)
Definition ToString (x : option string) : string :=
  match x with
  | Some s => s
  | None => "undefined"
  end.

(** Truthiness of a field holding a boolean, or absent. *)
Definition ToBoolean (x : option bool) : bool :=
  match x with
  | Some b => b
  | None => false
  end.

(** [Array.prototype.join] on an array of strings. *)
Fixpoint join (sep : string) (l : list string) : string :=
  match l with
  | [] => ""
  | [s] => s
  | s :: rest => s +:+ sep +:+ join sep rest
  end.

(** The integer-or-NaN results of [parseInt]. *)
Inductive jsnum : Type :=
| JNum (z : Z)
| JNaN.

Global Instance jsnum_eq_dec : EqDecision jsnum.
Proof. solve_decision. Defined.

(** [a - b] on these numbers: NaN is contagious. *)
Definition sub (a b : jsnum) : jsnum :=
  match a, b with
  | JNum x, JNum y => JNum (x - y)
  | _, _ => JNaN
  end.

(** StrWhiteSpaceChar, for strings of code units below 256. *)
Definition isWhiteSpace (c : ascii) : bool :=
  let n := nat_of_ascii c in
  bool_decide (n = 9 ∨ n = 10 ∨ n = 11 ∨ n = 12 ∨ n = 13 ∨ n = 32 ∨ n = 160)%nat.

Fixpoint trimStart (s : string) : string :=
  match s with
  | String c rest => if isWhiteSpace c then trimStart rest else s
  | EmptyString => EmptyString
  end.

Definition digitValue (c : ascii) : option Z :=
  let n := nat_of_ascii c in
  if bool_decide (48 ≤ n ∧ n ≤ 57)%nat then Some (Z.of_nat n - 48)%Z else None.

(** Longest prefix of decimal digits, accumulated left to right;
    [None] when the prefix is empty. *)
Fixpoint digits (acc : option Z) (s : string) : option Z :=
  match s with
  | String c rest =>
      match digitValue c with
      | Some d => digits (Some (10 * default 0%Z acc + d)%Z) rest
      | None => acc
      end
  | EmptyString => acc
  end.

(** [parseInt(s, 10)]: skip leading white space, read an optional sign,
    then the longest run of decimal digits; NaN when there is none.
    The result is the integer the digits spell.  Up to 2^53 that is what
    JavaScript returns; for a longer run of digits JavaScript returns the
    nearest double instead, which is not modelled: the definition stands
    for [parseInt] on numerals below 2^53, the keys "1" to "9" of a
    possibilities mapping among them. *)
Definition parseInt (s : string) : jsnum :=
  let s := trimStart s in
  let '(sign, s) :=
    match s with
    | String "-" rest => ((-1)%Z, rest)
    | String "+" rest => (1%Z, rest)
    | _ => (1%Z, s)
    end in
  match digits None s with
  | Some z => JNum (sign * z)
  | None => JNaN
  end.

(** SortCompare: the comparator's result, NaN read as +0. *)
Definition SortCompare {A} (comparefn : A → A → jsnum) (x y : A) : Z :=
  match comparefn x y with
  | JNum v => v
  | JNaN => 0
  end.

(** [Array.prototype.sort(comparefn)].  The standard fixes the result for
    a consistent comparator: the stable sorted arrangement.  It is
    computed here by straight insertion, each element entering before the
    first later element it does not exceed.  For a comparator that is not
    consistent (subtraction where a key is NaN) the standard leaves the
    order to the implementation, and the arrangement computed here need
    not be the one a given engine returns: the definition stands for
    [sort] with consistent comparators. *)
Fixpoint insert {A} (comparefn : A → A → jsnum) (x : A) (l : list A) : list A :=
  match l with
  | [] => [x]
  | y :: rest =>
      if (SortCompare comparefn x y <=? 0)%Z then x :: y :: rest
      else y :: insert comparefn x rest
  end.

Definition sort {A} (comparefn : A → A → jsnum) (l : list A) : list A :=
  foldr (insert comparefn) [] l.

(** The comparison [sort()] uses when called without a comparator: the
    elements' string forms, compared code unit by code unit. *)
Definition defaultCompare {A} (toString : A → string) (x y : A) : jsnum :=
  match String.compare (toString x) (toString y) with
  | Lt => JNum (-1)
  | Eq => JNum 0
  | Gt => JNum 1
  end.

End Js.

Import Js.

(** ** The client: App.jsx and components/InfoPanel.jsx *)

Module App.
Section App.

(** JavaScript numbers; [EqDecision] is SameValueZero. *)
Context {number : Type} `{EqDecision number}.
(** [Number(key)] on a property key. *)
Variable Number : string → number.
(** Conversion of a number to a string in template literals and [join]. *)
Variable numberToString : number → string.

(** A cell object of the board JSON: each field may be absent
    ([undefined]).  [possibilities] lists the entries of the mapping in
    the order [Object.keys] and [Object.entries] enumerate them. *)
Record Cell : Type := {
  value : option number;
  possibilities : option (list (string * number))
}.

Definition Board : Type := list (list Cell).

(** Property values of the object handed to [JSON.stringify]: an array
    index, or an array of numbers. *)
Inductive json : Type :=
| JIndex (i : nat)
| JArray (items : list number).

(** The arguments of a [fetch] call; [body] is the object serialised by
    [JSON.stringify], as its properties in order, [None] when the call
    passes no body. *)
Record Request : Type := {
  url : string;
  method : string;
  headers : list (string * string);
  body : option (list (string * json))
}.

(** Parsed body of the answer to POST /reset. *)
Record ResetData : Type := {
  reset_success : option bool;
  reset_message : option string
}.

(** Parsed body of the answer to POST /assign. *)
Record AssignData : Type := {
  assign_success : option bool;
  assign_board : option Board;
  assign_message : option string;
  assign_detail : option string
}.

(** The server: what each endpoint answers to a request, given the
    requests received before it. *)
Record Server : Type := {
  board_endpoint : list Request → Request → Reply (option Board);
  reset_endpoint : list Request → Request → Reply ResetData;
  assign_endpoint : list Request → Request → Reply AssignData
}.

(** The state hooks of [App] ([board] is [null] before the first load,
    [message] is whatever was last passed to [setMessage]). *)
Record AppState : Type := {
  board : option Board;
  selectedCell : option (nat * nat);
  message : option string;
  loading : bool;
  difficulty : string
}.

(** Everything a handler can read or change. *)
Record World : Type := {
  app : AppState;
  selectedNumbers : list number;   (* state hook of InfoPanel *)
  sent : list Request;             (* fetch calls, oldest first *)
  alerts : list string;
  console : list string
}.

Definition M (A : Type) : Type := Server → World → completion A * World.

#[global] Instance M_ret : MRet M := λ A a _ w, (Normal a, w).
#[global] Instance M_bind : MBind M := λ A B k m srv w,
  match m srv w with
  | (Normal a, w') => k a srv w'
  | (Throws e, w') => (Throws e, w')
  end.

Definition throw {A} (e : string) : M A := λ _ w, (Throws e, w).
Definition getState : M AppState := λ _ w, (Normal (app w), w).
Definition getSelectedNumbers : M (list number) :=
  λ _ w, (Normal (selectedNumbers w), w).

Definition modifyApp (f : AppState → AppState) : M unit := λ _ w,
  (Normal (),
   {| app := f (app w); selectedNumbers := selectedNumbers w;
      sent := sent w; alerts := alerts w; console := console w |}).

Definition setBoard (b : option Board) : M unit :=
  modifyApp (λ s, {| board := b; selectedCell := selectedCell s;
                     message := message s; loading := loading s;
                     difficulty := difficulty s |}).
Definition setSelectedCell (c : option (nat * nat)) : M unit :=
  modifyApp (λ s, {| board := board s; selectedCell := c;
                     message := message s; loading := loading s;
                     difficulty := difficulty s |}).
Definition setMessage (m : option string) : M unit :=
  modifyApp (λ s, {| board := board s; selectedCell := selectedCell s;
                     message := m; loading := loading s;
                     difficulty := difficulty s |}).
Definition setLoading (l : bool) : M unit :=
  modifyApp (λ s, {| board := board s; selectedCell := selectedCell s;
                     message := message s; loading := l;
                     difficulty := difficulty s |}).
Definition setDifficulty (d : string) : M unit :=
  modifyApp (λ s, {| board := board s; selectedCell := selectedCell s;
                     message := message s; loading := loading s;
                     difficulty := d |}).

Definition setSelectedNumbers (l : list number) : M unit := λ _ w,
  (Normal (),
   {| app := app w; selectedNumbers := l;
      sent := sent w; alerts := alerts w; console := console w |}).
Definition alert (s : string) : M unit := λ _ w,
  (Normal (),
   {| app := app w; selectedNumbers := selectedNumbers w;
      sent := sent w; alerts := alerts w ++ [s]; console := console w |}).
Definition console_error (s : string) : M unit := λ _ w,
  (Normal (),
   {| app := app w; selectedNumbers := selectedNumbers w;
      sent := sent w; alerts := alerts w; console := console w ++ [s] |}).

(** [await fetch(...)] then [await response.json()]: the request is
    recorded and the endpoint's answer is what the awaits settle to. *)
Definition fetch {D} (endpoint : Server → list Request → Request → Reply D)
    (req : Request) : M (Reply D) := λ srv w,
  (Normal (endpoint srv (sent w) req),
   {| app := app w; selectedNumbers := selectedNumbers w;
      sent := sent w ++ [req]; alerts := alerts w; console := console w |}).

(** An [async] function called without [await] runs up to its first
    [await] inside the caller ([_start]); the rest ([_resume]) runs once
    the caller's synchronous code has finished. *)

Definition fetchBoard_start : M (Reply (option Board)) :=
  setLoading true;;
  fetch board_endpoint
    {| url := "http://localhost:8000/board"; method := "GET";
       headers := []; body := None |}.

Definition fetchBoard_resume (r : Reply (option Board)) : M unit :=
  match r with
  | Resolves data =>
      setBoard data;;
      setMessage (Some "Board loaded. Click on a cell to start playing!")
  | Rejects e =>
      setMessage (Some ("Error loading board: " +:+ e));;
      console_error "Error fetching board:"
  end;;
  setLoading false.

Definition fetchBoard : M unit :=
  r ← fetchBoard_start; fetchBoard_resume r.

(** [resetBoard(newDifficulty = difficulty)]; [None] is a call without
    argument. *)
Definition resetBoard (arg : option string) : M unit :=
  s ← getState;
  let newDifficulty := default (difficulty s) arg in
  setLoading true;;
  r ← fetch reset_endpoint
        {| url := "http://localhost:8000/reset?difficulty=" +:+ newDifficulty;
           method := "POST"; headers := []; body := None |};
  match r with
  | Resolves data =>
      if ToBoolean (reset_success data) then
        rb ← fetchBoard_start;
        setDifficulty newDifficulty;;
        setMessage (Some ("Board reset to " +:+ newDifficulty +:+ " difficulty!"));;
        fetchBoard_resume rb
      else
        setMessage (Some ("Error resetting board: " +:+ ToString (reset_message data)))
  | Rejects e =>
      setMessage (Some ("Error resetting board: " +:+ e));;
      console_error "Error resetting board:"
  end.

Definition assignRequest (row col : nat) (candidates : list number) : Request :=
  {| url := "http://localhost:8000/assign"; method := "POST";
     headers := [("Content-Type", "application/json")];
     body := Some [("row", JIndex row);
                   ("col", JIndex col);
                   ("candidates", JArray candidates)] |}.

Definition assignCellValues_start (row col : nat) (candidates : list number)
    : M (Reply AssignData) :=
  setLoading true;;
  fetch assign_endpoint (assignRequest row col candidates).

Definition assignCellValues_resume (r : Reply AssignData) : M unit :=
  match r with
  | Resolves data =>
      if ToBoolean (assign_success data) then
        setBoard (assign_board data);;
        setMessage (assign_message data)
      else
        setMessage (Some ("Error assigning values: " +:+ ToString (assign_detail data)))
  | Rejects e =>
      setMessage (Some ("Error assigning values: " +:+ e));;
      console_error "Error assigning values:"
  end;;
  setLoading false.

Definition assignCellValues (row col : nat) (candidates : list number) : M unit :=
  r ← assignCellValues_start row col candidates; assignCellValues_resume r.

(** The world a handler leaves behind. *)
Definition exec {A} (m : M A) (srv : Server) (w : World) : World := (m srv w).2.

(** [board[row][col]], [None] where JavaScript yields [undefined] or
    cannot index at all. *)
Definition lookupCell (b : option Board) (row col : nat) : option Cell :=
  match b with
  | Some rows =>
      match (rows : list (list Cell)) !! row with
      | Some cells => cells !! col
      | None => None
      end
  | None => None
  end.

(** [board[row][col]] where the handler goes on to read a property of
    the cell: a TypeError unless the board, the row and the cell exist. *)
Definition cellAt (b : option Board) (row col : nat) : M Cell :=
  match lookupCell b row col with
  | Some cell => mret cell
  | None => throw "TypeError"
  end.

(** [Object.keys(o)]: a TypeError on [undefined]. *)
Definition Object_keys (o : option (list (string * number))) : M (list string) :=
  match o with
  | Some entries => mret (entries.*1)
  | None => throw "TypeError"
  end.

Definition includes (l : list number) (n : number) : bool := bool_decide (n ∈ l).

(** [Object.keys(...).map(Number)] on the keys of the selected cell. *)
Definition currentPossibilities (keys : list string) : list number :=
  Number <$> keys.

(** [numbers.filter(n => currentPossibilities.includes(n))]. *)
Definition validNumbers (keys : list string) (numbers : list number) : list number :=
  filter (λ n, includes (currentPossibilities keys) n = true) numbers.

(** [handleNumberSelection(numbers)] up to the point where it returns;
    the result is the settled answer of the /assign call it started, if
    it started one. *)
Definition handleNumberSelection_start (numbers : list number)
    : M (option (Reply AssignData)) :=
  s ← getState;
  match selectedCell s with
  | None =>
      setMessage (Some "Please select a cell first!");; mret None
  | Some (row, col) =>
      cell ← cellAt (board s) row col;
      match value cell with
      | Some _ =>
          setMessage (Some ("Cell (" +:+ pretty row +:+ ", " +:+ pretty col
                            +:+ ") is already fixed and cannot be changed."));;
          mret None
      | None =>
          keys ← Object_keys (possibilities cell);
          let valid := validNumbers keys numbers in
          if bool_decide (length valid = 0) then
            setMessage (Some "Selected numbers are not valid for this cell!");;
            mret None
          else
            (if bool_decide (length valid ≠ length numbers) then
               setMessage (Some ("Only " +:+ join ", " (numberToString <$> valid)
                                 +:+ " are valid for this cell."))
             else mret ());;
            r ← assignCellValues_start row col valid;
            mret (Some r)
      end
  end.

(** [req] is an /assign request for the selected cell of [w], a cell in
    superposition, with a non-empty list of candidates of that cell. *)
Definition carriesValidCandidates (w : World) (req : Request) : Prop :=
  ∃ row col cell entries candidates,
    selectedCell (app w) = Some (row, col) ∧
    lookupCell (board (app w)) row col = Some cell ∧
    value cell = None ∧
    possibilities cell = Some entries ∧
    req = assignRequest row col candidates ∧
    candidates ≠ [] ∧
    Forall (λ n, n ∈ currentPossibilities entries.*1) candidates.

Definition resumePending (p : option (Reply AssignData)) : M unit :=
  match p with
  | Some r => assignCellValues_resume r
  | None => mret ()
  end.

(** The handler together with the completion of the call it started. *)
Definition handleNumberSelection (numbers : list number) : M unit :=
  p ← handleNumberSelection_start numbers; resumePending p.

Definition handleDifficultyChange (newDifficulty : string) : M unit :=
  s ← getState;
  if bool_decide (newDifficulty ≠ difficulty s) then resetBoard (Some newDifficulty)
  else mret ().

(** InfoPanel's [handleAssign], with [onNumberSelection] bound to
    [handleNumberSelection] as [App] passes it. *)
Definition handleAssign : M unit :=
  sel ← getSelectedNumbers;
  if bool_decide (length sel = 0) then
    alert "Please select at least one number!"
  else
    p ← handleNumberSelection_start sel;
    setSelectedNumbers [];;
    resumePending p.

(** [handleCellClick(row, col)]. *)
Definition handleCellClick (row col : nat) : M unit :=
  s ← getState;
  setSelectedCell (Some (row, col));;
  match lookupCell (board s) row col with
  | Some cell =>
      match value cell with
      | Some v =>
          setMessage (Some ("Cell (" +:+ pretty row +:+ ", " +:+ pretty col
                            +:+ ") is already fixed to " +:+ numberToString v))
      | None =>
          keys ← Object_keys (possibilities cell);
          let shown := sort (defaultCompare numberToString) (Number <$> keys) in
          setMessage (Some ("Cell (" +:+ pretty row +:+ ", " +:+ pretty col
                            +:+ ") - Select numbers from: "
                            +:+ join ", " (numberToString <$> shown)))
      end
  | None => mret ()
  end.

(** The [cellData] prop [App] computes for InfoPanel:
    [selectedCell && board ? board[selectedCell.row][selectedCell.col] : null];
    indexing a missing row is a TypeError. *)
Definition cellData (w : World) : completion (option Cell) :=
  match selectedCell (app w), board (app w) with
  | Some (row, col), Some rows =>
      match (rows : list (list Cell)) !! row with
      | Some cells => Normal (cells !! col)
      | None => Throws "TypeError"
      end
  | _, _ => Normal None
  end.

(** InfoPanel's [isNumberAvailable(number)]. *)
Definition isNumberAvailable (w : World) (n : number) : completion bool :=
  match cellData w with
  | Normal (Some cell) =>
      match value cell, possibilities cell with
      | Some _, _ => Normal false
      | None, Some entries => Normal (includes (Number <$> entries.*1) n)
      | None, None => Throws "TypeError"
      end
  | Normal None => Normal false
  | Throws e => Throws e
  end.

(** InfoPanel's [handleNumberToggle(number)]. *)
Definition handleNumberToggle (n : number) : M unit :=
  sel ← getSelectedNumbers;
  if bool_decide (n ∈ sel) then setSelectedNumbers (filter (λ m, m ≠ n) sel)
  else setSelectedNumbers (sel ++ [n]).

(** A click on the button of number [n].  The button is disabled unless
    the number is available, and a disabled button ignores the click; when
    rendering threw there is no button. *)
Definition numberButton_onClick (n : number) : M unit := λ srv w,
  match isNumberAvailable w n with
  | Normal true => handleNumberToggle n srv w
  | _ => (Normal (), w)
  end.

(** A click on "Assign Selected Numbers"; the button is disabled while
    nothing is selected or no cell is selected. *)
Definition assignButton_onClick : M unit := λ srv w,
  if bool_decide (length (selectedNumbers w) = 0)
     || bool_decide (selectedCell (app w) = None)
  then (Normal (), w)
  else handleAssign srv w.

End App.

(** The types take the number type explicitly. *)
Arguments Cell number : clear implicits.
Arguments Board number : clear implicits.
Arguments json number : clear implicits.
Arguments Request number : clear implicits.
Arguments AssignData number : clear implicits.
Arguments Server number : clear implicits.
Arguments AppState number : clear implicits.
Arguments World number : clear implicits.
Arguments M number A : clear implicits.

End App.

(** ** The board component: components/SudokuBoard.jsx *)

Module SudokuBoard.
Section SudokuBoard.

Context {number : Type}.
(** [getProbabilityColor]: double-precision arithmetic on the probability,
    then [Math.round] and a template literal; a parameter of the component
    here, embedded on doubles in module [Color] below. *)
Variable getProbabilityColor : number → string.
(** [probability.toFixed(0)]. *)
Variable toFixed0 : number → string.

(** The elements the component returns, level by level. *)
Record PossibilityDiv : Type := {
  possibility_key : string;
  backgroundColor : string;
  color : string;
  data_probability : string;
  possibility_text : jsnum
}.

Inductive CellContent : Type :=
| FixedValue (text : number)                   (* div.fixed-value *)
| Possibilities (items : list PossibilityDiv). (* div.possibilities *)

Record CellDiv : Type := {
  cell_key : string;
  className : string;
  onClick : nat * nat;            (* arguments passed to onCellClick *)
  content : CellContent
}.

Record RowDiv : Type := {
  row_key : string;
  cells : list CellDiv
}.

Inductive Rendered : Type :=
| LoadingBoard                       (* <div>Loading board...</div> *)
| BoardDiv (rows : list RowDiv).     (* div.sudoku-board *)

(** [Object.entries(o)]: a TypeError on [undefined]. *)
Definition Object_entries (o : option (list (string * number)))
    : completion (list (string * number)) :=
  match o with
  | Some entries => Normal entries
  | None => Throws "TypeError"
  end.

Definition sortPossibilities (entries : list (string * number))
    : list (jsnum * number) :=
  sort (λ a b, sub a.1 b.1)
       ((λ e, (parseInt e.1, e.2)) <$> entries).

Definition possibilityDiv (rowIndex colIndex : nat) (e : jsnum * number)
    : PossibilityDiv :=
  let '(n, probability) := e in
  {| possibility_key :=
       "possibility-" +:+ pretty rowIndex +:+ "-" +:+ pretty colIndex +:+ "-"
       +:+ match n with JNum z => pretty z | JNaN => "NaN" end;
     backgroundColor := getProbabilityColor probability;
     color := "#333";
     data_probability := toFixed0 probability +:+ "%";
     possibility_text := n |}.

Definition isSelected (selectedCell : option (nat * nat)) (rowIndex colIndex : nat)
    : bool :=
  match selectedCell with
  | Some (row, col) => bool_decide (row = rowIndex) && bool_decide (col = colIndex)
  | None => false
  end.

(** The body of the inner [row.map] callback. *)
Definition renderCell (selectedCell : option (nat * nat))
    (rowIndex colIndex : nat) (cell : App.Cell number) : completion CellDiv :=
  let isFixed := bool_decide (App.value cell ≠ None) in
  let cellClasses :=
    join " " (filter (λ s, s ≠ "")
      [ "sudoku-cell";
        if isSelected selectedCell rowIndex colIndex then "selected" else "";
        if isFixed then "fixed" else "";
        "block-" +:+ pretty (rowIndex `div` 3)%nat +:+ "-"
                 +:+ pretty (colIndex `div` 3)%nat ]) in
  let wrap c :=
    {| cell_key := "cell-" +:+ pretty rowIndex +:+ "-" +:+ pretty colIndex;
       className := cellClasses;
       onClick := (rowIndex, colIndex);
       content := c |} in
  match App.value cell with
  | Some v => Normal (wrap (FixedValue v))
  | None =>
      match Object_entries (App.possibilities cell) with
      | Normal entries =>
          Normal (wrap (Possibilities
                          (possibilityDiv rowIndex colIndex
                             <$> sortPossibilities entries)))
      | Throws e => Throws e
      end
  end.

(** [array.map(f)] where [f] may throw: elements are visited in order
    and the first exception ends the traversal. *)
Fixpoint mapi {A B} (f : nat → A → completion B) (i : nat) (l : list A)
    : completion (list B) :=
  match l with
  | [] => Normal []
  | a :: rest =>
      match f i a with
      | Normal b =>
          match mapi f (S i) rest with
          | Normal bs => Normal (b :: bs)
          | Throws e => Throws e
          end
      | Throws e => Throws e
      end
  end.

Definition renderRow (selectedCell : option (nat * nat))
    (rowIndex : nat) (row : list (App.Cell number)) : completion RowDiv :=
  match mapi (renderCell selectedCell rowIndex) 0 row with
  | Normal cs => Normal {| row_key := "row-" +:+ pretty rowIndex; cells := cs |}
  | Throws e => Throws e
  end.

Definition SudokuBoard (board : option (App.Board number))
    (selectedCell : option (nat * nat)) : completion Rendered :=
  match board with
  | None => Normal LoadingBoard
  | Some rows =>
      match mapi (renderRow selectedCell) 0 rows with
      | Normal rs => Normal (BoardDiv rs)
      | Throws e => Throws e
      end
  end.

(** The keys a possibilities mapping of the board JSON may have. *)
Definition candidateKeys : list string :=
  ["1"; "2"; "3"; "4"; "5"; "6"; "7"; "8"; "9"].

(** A possibilities mapping as GET /board delivers it: an object whose
    keys (distinct, as in any object) are among "1" to "9". *)
Definition possibilitiesMapping (entries : list (string * number)) : Prop :=
  NoDup entries.*1 ∧ Forall (λ k, k ∈ candidateKeys) entries.*1.

(** A cell object of the board JSON: Fixed, or in superposition. *)
Definition boardCell (cell : App.Cell number) : Prop :=
  App.value cell ≠ None ∨ App.possibilities cell ≠ None.

(** Numeric order on the first components of sorted pairs. *)
Definition ascending (a b : jsnum * number) : Prop :=
  match a.1, b.1 with
  | JNum x, JNum y => (x < y)%Z
  | _, _ => False
  end.

(** The integer a parsed key stands for. *)
Definition numericKey (e : jsnum * number) : Z :=
  match e.1 with
  | JNum z => z
  | JNaN => 0%Z
  end.

(** Which of the two renderings a cell element is. *)
Definition rendersFixed (d : CellDiv) : Prop :=
  ∃ v, content d = FixedValue v.
Definition rendersCandidates (d : CellDiv) : Prop :=
  ∃ items, content d = Possibilities items.

(** A cell object as GET /board delivers it: Fixed, or in superposition
    over a possibilities mapping. *)
Definition contractCell (cell : App.Cell number) : Prop :=
  App.value cell ≠ None ∨
  ∃ entries, App.possibilities cell = Some entries ∧ possibilitiesMapping entries.

(** Numeric order on the numbers two candidate elements show. *)
Definition numberBefore (a b : PossibilityDiv) : Prop :=
  match possibility_text a, possibility_text b with
  | JNum x, JNum y => (x < y)%Z
  | _, _ => False
  end.

End SudokuBoard.
End SudokuBoard.

(** ** Double-precision numbers

    The colour of a probability is computed in the arithmetic of JavaScript
    numbers, which are IEEE 754 binary64 values: 53 bits of precision,
    exponents below 1024.  Their operations are those of the
    specification [SpecFloat]: [SFdiv], [SFsub] and [SFmul] at precision
    53 and [emax] 1024, each rounding to nearest, ties to even. *)

Module Double.

(** Least exponent of a binary64 number. *)
Definition emin64 : Z := -1074.

Definition pow2 (e : Z) : Q := (2 ^ e)%Q.

(** The rational a double stands for; 0 for NaN and the infinities. *)
Definition B2Q (x : spec_float) : Q :=
  match x with
  | S754_finite s m e => inject_Z (cond_Zopp s (Zpos m)) * pow2 e
  | _ => 0
  end.

(** Zero or a positive finite number. *)
Definition nonneg_finite (z : spec_float) : Prop :=
  match z with
  | S754_zero _ => True
  | S754_finite false _ _ => True
  | _ => False
  end.


(** Position of [x] in the unit interval that starts at [m], as two bits:
    the half bit and whether anything lies beyond it. *)
Definition located (x : Q) (m : Z) (r s : bool) : Prop :=
  match r, s with
  | false, false => x == inject_Z m
  | false, true => inject_Z m < x ∧ x < inject_Z m + (1#2)
  | true, false => x == inject_Z m + (1#2)
  | true, true => inject_Z m + (1#2) < x ∧ x < inject_Z m + 1
  end%Q.

(** [k] is the integer nearest to [x], the even one of two at equal
    distance. *)
Definition nearest_even (x : Q) (k : Z) : Prop :=
  (inject_Z k - (1#2) <= x ∧ x <= inject_Z k + (1#2) ∧
   (x == inject_Z k - (1#2) ∨ x == inject_Z k + (1#2) → Z.even k = true))%Q.

(** [E] is the exponent of the binary64 grid around [r]: the least one
    below 2^-1021, and otherwise the one that gives [r] 53 digits. *)
Definition format_exp (r : Q) (E : Z) : Prop :=
  (E = emin64 ∧ r < pow2 (emin64 + 53))%Q ∨
  ((emin64 < E)%Z ∧ pow2 (E + 52) <= r ∧ r < pow2 (E + 53))%Q.

(** [y] is [r], not negative, rounded to the nearest binary64 number, ties
    to even. *)
Definition rounds (r y : Q) : Prop :=
  ∃ E k, format_exp r E ∧ nearest_even (r * pow2 (- E)) k ∧
         (y == inject_Z k * pow2 E)%Q.

End Double.

Import Double.

(** ** The colour of a probability: components/SudokuBoard.jsx *)

Module Color.

(** A numeric literal with an integer value, as the double it denotes. *)
Definition literal (z : Z) : spec_float := binary_normalize 53 1024 z 0 false.

(** The integral result of [Math.round], with the values it passes on. *)
Inductive rounded : Type :=
| Integer (n : Z)
| NotANumber
| Infinite (negative : bool).

(** [Math.round(x)]: the integer nearest to [x], the larger one of two at
    equal distance; NaN and the infinities pass. *)
Definition Math_round (x : spec_float) : rounded :=
  match x with
  | S754_nan => NotANumber
  | S754_infinity s => Infinite s
  | _ => Integer (Qfloor (B2Q x + (1#2)))
  end.

(** The three numbers the template literal [rgb(${red}, ${green}, ${blue})]
    prints. *)
Record rgb : Type := { red : rounded; green : rounded; blue : rounded }.

Definition getProbabilityColor (probability : spec_float) : rgb :=
  let normalizedProb := SFdiv 53 1024 probability (literal 100) in
  let red := Math_round (SFmul 53 1024 (literal 255)
                           (SFsub 53 1024 (literal 1) normalizedProb)) in
  let green := Integer 255 in
  let blue := Math_round (SFmul 53 1024 (literal 255)
                            (SFsub 53 1024 (literal 1) normalizedProb)) in
  {| red := red; green := green; blue := blue |}.

(** A probability in percent: a double from 0 to 100. *)
Definition percentage (p : spec_float) : Prop :=
  nonneg_finite p ∧ (B2Q p <= 100)%Q.

(** The rounding the specification writes as round: to the nearest
    integer, the larger of two at equal distance, on exact rationals. *)
Definition round_half_up (x : Q) : Z := Qfloor (x + (1#2)).

(** The channel as the specification writes it, round(255 * (1 - p / 100)),
    in exact arithmetic. *)
Definition exact_gradient (p : Q) : Z := round_half_up (255 * (1 - p / 100)).

(** The most by which the double computed for 255 * (1 - p / 100) can
    miss the exact value. *)
Definition gradient_slack : Q := 1 # 1000000000000.

End Color.

(** ** The assignment engine behind POST /assign

    The backend (backend/, a FastAPI server) belongs to the repository but
    its source is not at hand.  Every definition of this module is written
    from sections 3, 4.2-4.4, 7 and 9 of the specification.  The
    propagation is written twice: as the function the engine runs on a
    working copy ([visit], [visit_all], [propagate]) and, move by move, as
    a relation between moments of a propagation ([move]), in which an
    emptied candidate set is a fact about the working copy and not an
    answer of the function. *)

Module Engine.

(** Modelled from the spec: the backend's cell (section 3), Fixed with one
    value or in Superposition with a weight for each candidate. *)
Inductive Cell : Type :=
| Fixed (v : Z)
| Superposition (weights : list (Z * Q)).

(** Modelled from the spec: the backend's board (section 3), a grid of
    cells addressed by (row, col). *)
Definition Board : Type := list (list Cell).

(** Modelled from the spec: the backend's cell coordinates (section 3). *)
Definition pos : Type := nat * nat.

(** Modelled from the spec: reading the backend's board at a coordinate;
    [None] outside the grid (malformed coordinates, section 7). *)
Definition get (b : Board) (p : pos) : option Cell :=
  match (b : list (list Cell)) !! p.1 with
  | Some cells => cells !! p.2
  | None => None
  end.

(** Modelled from the spec: writing one cell of the backend's working
    copy of the board (section 4.2); nothing changes outside the grid. *)
Definition set (b : Board) (p : pos) (c : Cell) : Board :=
  match (b : list (list Cell)) !! p.1 with
  | Some cells => <[p.1 := <[p.2 := c]> cells]> (b : list (list Cell))
  | None => b
  end.

(** Modelled from the spec: the backend's probability model (section
    4.3), the uniform default scaled to 100. *)
Definition uniform (candidates : list Z) : list (Z * Q) :=
  (λ v, (v, Qmake 100 (Pos.of_nat (length candidates)))) <$> candidates.

(** Modelled from the spec: the coordinates of the backend's 9x9 grid
    (section 3), in row-major order. *)
Definition positions : list pos :=
  r ← seq 0 9; (λ c, (r, c)) <$> seq 0 9.

(** Modelled from the spec: the backend's peer relation (section 3):
    distinct cells sharing a row, a column or a 3x3 block. *)
Definition is_peer (a b : pos) : bool :=
  bool_decide (a ≠ b) &&
  (bool_decide (a.1 = b.1) || bool_decide (a.2 = b.2) ||
   (bool_decide (a.1 `div` 3 = b.1 `div` 3)%nat
    && bool_decide (a.2 `div` 3 = b.2 `div` 3)%nat)).

(** Modelled from the spec: the peers the backend scans, in row-major
    order, the deterministic order section 4.2 asks for. *)
Definition peers (p : pos) : list pos :=
  filter (λ q, is_peer p q = true) positions.

(** Modelled from the spec: the backend's recoverable errors (section 7). *)
Inductive Error : Type :=
| InvalidRequest
| AlreadyFixed
| Conflict.

(** Modelled from the spec: why the backend's propagation stops before its
    fixed point (sections 4.2 and 8). *)
Inductive Halt : Type :=
| PeerEmptied (p : pos)     (* the candidate set of peer [p] became empty *)
| PeerDuplicate (p : pos)   (* peer [p] is already Fixed to the same value *)
| Exhausted.                (* the step budget ran out *)

(** Modelled from the spec: the backend's work list of cells that have
    just become Fixed (section 9). *)
Definition Queue : Type := list (pos * Z).

(** Modelled from the spec: one step of the backend's propagation (section
    4.2) at peer [p] of a cell newly Fixed to [v]: [v] leaves the peer's
    candidates; a peer left with one candidate collapses and joins the
    work list; a peer left with none halts the propagation. *)
Definition visit (v : Z) (st : Board * Queue) (p : pos) : Halt + Board * Queue :=
  let '(b, q) := st in
  match get b p with
  | Some (Fixed w) => if bool_decide (w = v) then inl (PeerDuplicate p) else inr (b, q)
  | Some (Superposition ws) =>
      if bool_decide (v ∈ ws.*1) then
        match filter (λ u, u ≠ v) (ws.*1) with
        | [] => inl (PeerEmptied p)
        | [u] => inr (set b p (Fixed u), q ++ [(p, u)])
        | cs => inr (set b p (Superposition (uniform cs)), q)
        end
      else inr (b, q)
  | None => inr (b, q)
  end.

(** Modelled from the spec: the backend's scan of all peers of one newly
    Fixed cell (section 4.2), halting at the first conflict. *)
Fixpoint visit_all (v : Z) (st : Board * Queue) (ps : list pos)
    : Halt + Board * Queue :=
  match ps with
  | [] => inr st
  | p :: rest =>
      match visit v st p with
      | inr st' => visit_all v st' rest
      | inl h => inl h
      end
  end.

(** Modelled from the spec: the backend's breadth-first propagation to a
    fixed point (section 4.2), on a working copy [b], with an explicit
    work list (section 9). *)
Fixpoint propagate (fuel : nat) (b : Board) (q : Queue) : Halt + Board :=
  match q with
  | [] => inr b
  | (p, v) :: rest =>
      match fuel with
      | O => inl Exhausted
      | S fuel' =>
          match visit_all v (b, rest) (peers p) with
          | inr (b', q') => propagate fuel' b' q'
          | inl h => inl h
          end
      end
  end.

(** Modelled from the spec: whether a cell of the backend's board is in
    Superposition (section 3). *)
Definition is_superposition (c : Cell) : bool :=
  match c with
  | Superposition _ => true
  | Fixed _ => false
  end.

(** Modelled from the spec: the number of cells of a row of the backend's
    board that are in Superposition. *)
Definition count (cells : list Cell) : nat :=
  length (filter (λ c, is_superposition c = true) cells).

(** Modelled from the spec: the number of cells of the backend's board
    still in Superposition; each collapse lowers it (the termination
    argument of section 4.2), so it bounds what the work list receives. *)
Definition undecided (b : Board) : nat := count (concat b).

(** Modelled from the spec: the propagation the backend runs when an
    assignment fixes the cell at (row, col) to [v] (section 4.2): on a
    working copy, from a work list holding that cell alone. *)
Definition propagation_of (b : Board) (row col : nat) (v : Z) : Halt + Board :=
  let working := set b (row, col) (Fixed v) in
  propagate (S (undecided working)) working [((row, col), v)].

(** Modelled from the spec: the backend's [assign(board, row, col,
    values)] (section 4.2), returning the new board or an error and never
    touching its argument.  Values outside the cell's candidates are
    refused; one value fixes the cell and propagates; several restrict the
    cell and leave its peers alone. *)
Definition assign (b : Board) (row col : nat) (values : list Z) : Error + Board :=
  match get b (row, col) with
  | None => inl InvalidRequest
  | Some (Fixed _) => inl AlreadyFixed
  | Some (Superposition ws) =>
      if bool_decide (Forall (λ v, v ∈ ws.*1) values) then
        match filter (λ u, u ∈ values) (ws.*1) with
        | [] => inl Conflict
        | [v] =>
            match propagation_of b row col v with
            | inr b' => inr b'
            | inl _ => inl Conflict
            end
        | cs => inr (set b (row, col) (Superposition (uniform cs)))
        end
      else inl InvalidRequest
  end.

(** Modelled from the spec: the backend's board state store (section
    4.4), the single owner of the current board. *)
Record Store : Type := { stored : Board }.

(** Modelled from the spec: the body of POST /assign as the backend
    receives it (section 6). *)
Record AssignRequest : Type := {
  row : nat;
  col : nat;
  candidates : list Z
}.

(** Modelled from the spec: the store's [apply] (section 4.4), which
    commits the engine's board when the assignment succeeded and keeps the
    stored one otherwise (sections 4.2 and 7). *)
Definition apply (s : Store) (req : AssignRequest) : Store * (Error + Board) :=
  match assign (stored s) (row req) (col req) (candidates req) with
  | inr b' => ({| stored := b' |}, inr b')
  | inl e => (s, inl e)
  end.

(** Modelled from the spec: the candidate set of a cell of the backend's
    board (section 3): the one value of a Fixed cell, the candidates of a
    cell in Superposition. *)
Definition candidates_of (c : Cell) : list Z :=
  match c with
  | Fixed v => [v]
  | Superposition ws => ws.*1
  end.

(** Modelled from the spec: a moment of the backend's propagation
    (sections 4.2 and 9): the working copy, the value being removed from
    the peers of a cell that has just become Fixed, the peers of that cell
    still to scan, and the work list. *)
Record Moment : Type := {
  working : Board;
  removing : Z;
  ahead : list pos;
  pending : Queue
}.

(** Modelled from the spec: the propagation of section 4.2 told move by
    move, in the words of its bullets.  The next peer is passed when the
    value is none of its candidates; it is restricted when the value is
    one of several others; it collapses to Fixed and joins the work list
    when one other candidate is left; and when no peer is left to scan the
    next cell of the work list is taken up.  No move removes the last
    candidate of a peer: there the propagation halts. *)
Inductive move : Moment → Moment → Prop :=
| move_past (b : Board) (v : Z) (p : pos) (ps : list pos) (q : Queue) :
    (∀ c, get b p = Some c → v ∉ candidates_of c) →
    move {| working := b; removing := v; ahead := p :: ps; pending := q |}
         {| working := b; removing := v; ahead := ps; pending := q |}
| move_restrict (b : Board) (v : Z) (p : pos) (ps : list pos) (q : Queue)
      (ws : list (Z * Q)) (u u' : Z) (cs : list Z) :
    get b p = Some (Superposition ws) →
    v ∈ ws.*1 →
    filter (λ w, w ≠ v) (ws.*1) = u :: u' :: cs →
    move {| working := b; removing := v; ahead := p :: ps; pending := q |}
         {| working := set b p (Superposition (uniform (u :: u' :: cs)));
            removing := v; ahead := ps; pending := q |}
| move_collapse (b : Board) (v : Z) (p : pos) (ps : list pos) (q : Queue)
      (ws : list (Z * Q)) (u : Z) :
    get b p = Some (Superposition ws) →
    v ∈ ws.*1 →
    filter (λ w, w ≠ v) (ws.*1) = [u] →
    move {| working := b; removing := v; ahead := p :: ps; pending := q |}
         {| working := set b p (Fixed u);
            removing := v; ahead := ps; pending := q ++ [(p, u)] |}
| move_next (b : Board) (v : Z) (p' : pos) (v' : Z) (q : Queue) :
    move {| working := b; removing := v; ahead := []; pending := (p', v') :: q |}
         {| working := b; removing := v'; ahead := peers p'; pending := q |}.

(** Modelled from the spec: the moment the propagation starts from when an
    assignment fixes the cell at [p] to [v] (section 4.2): that cell Fixed
    on the working copy and alone in the work list. *)
Definition start (b : Board) (p : pos) (v : Z) : Moment :=
  {| working := set b p (Fixed v); removing := v; ahead := [];
     pending := [(p, v)] |}.

(** Modelled from the spec: at moment [m] the propagation is about to
    empty the candidate set of peer [p] (section 4.2): [p] is the next
    peer to scan and the value being removed is the only candidate it
    has, as a Fixed cell or as a Superposition. *)
Definition empties (m : Moment) (p : pos) : Prop :=
  ∃ ps c, ahead m = p :: ps ∧ get (working m) p = Some c ∧
          removing m ∈ candidates_of c ∧
          Forall (λ w, w = removing m) (candidates_of c).

(** Modelled from the spec: the halt the engine reports when the candidate
    set of the peer at [p], holding cell [c], is emptied. *)
Definition halt_at (c : Cell) (p : pos) : Halt :=
  match c with
  | Fixed _ => PeerDuplicate p
  | Superposition _ => PeerEmptied p
  end.

(** Modelled from the spec: the engine's propagation carried on from a
    moment: the scan of the peers ahead, then the work list. *)
Definition resume (fuel : nat) (m : Moment) : Halt + Board :=
  match visit_all (removing m) (working m, pending m) (ahead m) with
  | inr (b', q') => propagate fuel b' q'
  | inl h => inl h
  end.

(** Modelled from the spec: one move of the propagation, computed by the
    engine's own scan; [None] where the propagation halts or is done. *)
Definition advance (m : Moment) : option Moment :=
  match ahead m with
  | p :: ps =>
      match visit (removing m) (working m, pending m) p with
      | inr (b', q') =>
          Some {| working := b'; removing := removing m; ahead := ps; pending := q' |}
      | inl _ => None
      end
  | [] =>
      match pending m with
      | (p', v') :: q =>
          Some {| working := working m; removing := v'; ahead := peers p';
                  pending := q |}
      | [] => None
      end
  end.

(** Modelled from the spec: [n] moves of the propagation, computed. *)
Fixpoint advances (n : nat) (m : Moment) : option Moment :=
  match n with
  | O => Some m
  | S n' =>
      match advance m with
      | Some m' => advances n' m'
      | None => None
      end
  end.

End Engine.

(** ** Sample data *)

Module Sample.

(** [Number] on the keys of the sample cells, which are decimal numerals. *)
Definition Number (key : string) : Z :=
  match parseInt key with
  | JNum z => z
  | JNaN => 0%Z
  end.

Definition numberToString (n : Z) : string := pretty n.

(** A cell in superposition over 1 and 2, and a cell fixed to 7. *)
Definition open_cell : App.Cell Z :=
  {| App.value := None;
     App.possibilities := Some [("1", 50%Z); ("2", 50%Z)] |}.
Definition fixed_cell : App.Cell Z :=
  {| App.value := Some 7%Z; App.possibilities := None |}.

(** A cell in superposition over 1 and 3. *)
Definition other_cell : App.Cell Z :=
  {| App.value := None;
     App.possibilities := Some [("1", 50%Z); ("3", 50%Z)] |}.

Definition sample_board : App.Board Z := [[open_cell; fixed_cell; other_cell]].

Definition refusal : App.AssignData Z :=
  {| App.assign_success := Some false; App.assign_board := None;
     App.assign_message := None; App.assign_detail := Some "conflict" |}.
Definition approval : App.AssignData Z :=
  {| App.assign_success := Some true;
     App.assign_board := Some [[fixed_cell; fixed_cell]];
     App.assign_message := Some "assigned"; App.assign_detail := None |}.

(** A server that serves the sample board, accepts every reset but the
    one to "hard", and answers /assign with [answer]. *)
Definition server (answer : App.AssignData Z) : App.Server Z :=
  {| App.board_endpoint := λ _ _, Resolves (Some sample_board);
     App.reset_endpoint := λ _ req,
       Resolves
         {| App.reset_success :=
              Some (negb (bool_decide
                (App.url req = "http://localhost:8000/reset?difficulty=hard")));
            App.reset_message := Some "unknown difficulty" |};
     App.assign_endpoint := λ _ _, Resolves answer |}.

(** The world after the board has loaded, with [selected] the selected
    cell and [picked] the numbers toggled in the panel. *)
Definition world (selected : option (nat * nat)) (picked : list Z) : App.World Z :=
  {| App.app :=
       {| App.board := Some sample_board;
          App.selectedCell := selected;
          App.message := Some "Board loaded. Click on a cell to start playing!";
          App.loading := false;
          App.difficulty := "medium" |};
     App.selectedNumbers := picked;
     App.sent := [];
     App.alerts := [];
     App.console := [] |}.

(** Entries of a possibilities mapping, larger key first. *)
Definition shuffled_entries : list (string * Z) := [("3", 20%Z); ("1", 80%Z)].

(** Stand-ins for the two conversions of a probability that the board
    component leaves to double-precision arithmetic. *)
Definition colorOf (probability : Z) : string := "rgb(" +:+ pretty probability +:+ ")".
Definition percentOf (probability : Z) : string := pretty probability.

(** A fresh 9x9 engine board: every cell in superposition over 1 to 9. *)
Definition fresh_board : Engine.Board :=
  replicate 9 (replicate 9
    (Engine.Superposition
       (Engine.uniform [1; 2; 3; 4; 5; 6; 7; 8; 9]%Z))).

(** The fresh board with (0,0) narrowed to 5 and 7 and its row neighbour
    (0,1) narrowed to 5 alone. *)
Definition tight_board : Engine.Board :=
  Engine.set
    (Engine.set fresh_board (0, 0) (Engine.Superposition (Engine.uniform [5; 7]%Z)))
    (0, 1) (Engine.Superposition (Engine.uniform [5%Z])).

Definition tight_request : Engine.AssignRequest :=
  {| Engine.row := 0; Engine.col := 0; Engine.candidates := [5%Z] |}.

(** The fresh board with (0,0) Fixed to 5 (first scenario of section 8 of
    the specification) and the request to give 5 to its neighbour. *)
Definition started_board : Engine.Board :=
  Engine.set fresh_board (0, 0) (Engine.Fixed 5).

Definition duplicate_request : Engine.AssignRequest :=
  {| Engine.row := 0; Engine.col := 1; Engine.candidates := [5%Z] |}.

(** The fresh board with (3,3) narrowed to 2 and 7 (second scenario of
    section 8) and the request to give it 7. *)
Definition narrowed_board : Engine.Board :=
  Engine.set fresh_board (3, 3) (Engine.Superposition (Engine.uniform [2; 7]%Z)).

Definition collapse_request : Engine.AssignRequest :=
  {| Engine.row := 3; Engine.col := 3; Engine.candidates := [7%Z] |}.

(** The fresh board with (0,0) and (0,1) each narrowed to 1 and 2, the
    board two assignments reach, and the request to give 2 to their row
    neighbour (0,2): both cells then collapse to 1. *)
Definition paired_board : Engine.Board :=
  Engine.set
    (Engine.set fresh_board (0, 0) (Engine.Superposition (Engine.uniform [1; 2]%Z)))
    (0, 1) (Engine.Superposition (Engine.uniform [1; 2]%Z)).

Definition pairing_requests : list Engine.AssignRequest :=
  [ {| Engine.row := 0; Engine.col := 0; Engine.candidates := [1; 2]%Z |};
    {| Engine.row := 0; Engine.col := 1; Engine.candidates := [1; 2]%Z |} ].

Definition cascade_request : Engine.AssignRequest :=
  {| Engine.row := 0; Engine.col := 2; Engine.candidates := [2%Z] |}.

(** The moment of that request's propagation at which (0,0), collapsed to
    1, is to remove 1 from (0,1), collapsed to 1 as well: 20 peers of
    (0,2) scanned, then (0,0) taken from the work list. *)
Definition cascade_moment : Engine.Moment :=
  Eval vm_compute in
    default (Engine.start paired_board (0, 2) 2)
            (Engine.advances 22 (Engine.start paired_board (0, 2) 2)).

(** A session at the panel: click the cell over 1 and 3, toggle 3, click
    the cell over 1 and 2, toggle 1. *)
Definition session : App.M Z unit :=
  App.handleCellClick Number numberToString 0 2;;
  App.numberButton_onClick Number 3%Z;;
  App.handleCellClick Number numberToString 0 0;;
  App.numberButton_onClick Number 1%Z.

End Sample.

(** ** The page: what App and InfoPanel render, and the events on it *)

Module Page.
Section Page.
Import App.

Context {number : Type} `{EqDecision number}.
Variable Number : string → number.
Variable numberToString : number → string.
(** The number with a given natural value. *)
Variable numeral : nat → number.
Variable getProbabilityColor : number → string.
Variable toFixed0 : number → string.

(** *** components/InfoPanel.jsx *)

(** [Array.from({ length: 9 }, (_, i) => i + 1)]. *)
Definition numbers : list number := (λ i, numeral (i + 1)) <$> seq 0 9.

(** [handleResetWithDifficulty(newDifficulty)], over the two props it
    chooses between; an absent [onDifficultyChange] is [None]. *)
Definition handleResetWithDifficulty {R}
    (onDifficultyChange : option (string → M number R))
    (onReset : option string → M number R)
    (newDifficulty : string) : M number R :=
  match onDifficultyChange with
  | Some handler => handler newDifficulty
  | None => onReset (Some newDifficulty)
  end.

(** A button of the number grid; [number_onClick] is the argument its
    click passes to [handleNumberToggle], which is also its label. *)
Record NumberButton : Type := {
  number_key : string;
  number_className : string;
  number_disabled : bool;
  number_onClick : number
}.

(** A button of the difficulty selector; [difficulty_onClick] is the
    argument its click passes to [handleResetWithDifficulty]. *)
Record DifficultyButton : Type := {
  difficulty_className : string;
  difficulty_onClick : string;
  difficulty_label : string
}.

(** What InfoPanel returns; the "New Game" button is always there. *)
Record PanelView : Type := {
  message_box : option string;
  selection_info : string;
  number_grid : list NumberButton;
  assign_disabled : bool;
  difficulty_selector : list DifficultyButton
}.

Definition numberButton (w : World number) (n : number) : completion NumberButton :=
  match isNumberAvailable Number w n with
  | Normal available =>
      Normal
        {| number_key := "number-" +:+ numberToString n;
           number_className :=
             "number-button "
             +:+ (if includes (selectedNumbers w) n then "selected" else "")
             +:+ " " +:+ (if negb available then "disabled" else "");
           number_disabled := negb available;
           number_onClick := n |}
  | Throws e => Throws e
  end.

Definition difficultyButton (difficulty level label : string) : DifficultyButton :=
  {| difficulty_className :=
       "difficulty-button "
       +:+ (if bool_decide (difficulty = level) then "active" else "");
     difficulty_onClick := level;
     difficulty_label := label |}.

(** InfoPanel on the props [App] passes it and its own state hook. *)
Definition InfoPanel (w : World number) : completion PanelView :=
  match SudokuBoard.mapi (λ _ n, numberButton w n) 0 numbers with
  | Normal grid =>
      Normal
        {| message_box := message (app w);
           selection_info :=
             match selectedCell (app w) with
             | Some (row, col) =>
                 "Selected: Cell (" +:+ pretty row +:+ ", " +:+ pretty col +:+ ")"
             | None => "Select a cell on the board"
             end;
           number_grid := grid;
           assign_disabled :=
             bool_decide (length (selectedNumbers w) = 0)
             || bool_decide (selectedCell (app w) = None);
           difficulty_selector :=
             [ difficultyButton (difficulty (app w)) "easy" "Easy";
               difficultyButton (difficulty (app w)) "medium" "Medium";
               difficultyButton (difficulty (app w)) "hard" "Hard" ] |}
  | Throws e => Throws e
  end.

(** *** App.jsx: state on mount and the element tree *)

Definition initialState : AppState number :=
  {| board := None; selectedCell := None;
     message := Some "Welcome to Quantum Sudoku!";
     loading := true; difficulty := "medium" |}.

Definition initialWorld : World number :=
  {| app := initialState; selectedNumbers := [];
     sent := []; alerts := []; console := [] |}.

(** What [App] returns: the game area, [None] standing for the
    "Loading..." element, and the panel. *)
Record AppView : Type := {
  game_area : option (@SudokuBoard.Rendered number);
  info_panel : PanelView
}.

(** Rendering [App] with the components below it.  An exception in any
    of them ends the rendering. *)
Definition App_render (w : World number) : completion AppView :=
  match cellData w with
  | Throws e => Throws e
  | Normal _ =>
      match
        (if loading (app w) then Normal None
         else match SudokuBoard.SudokuBoard getProbabilityColor toFixed0
                      (board (app w)) (selectedCell (app w)) with
              | Normal r => Normal (Some r)
              | Throws e => Throws e
              end)
      with
      | Throws e => Throws e
      | Normal area =>
          match InfoPanel w with
          | Normal panel => Normal {| game_area := area; info_panel := panel |}
          | Throws e => Throws e
          end
      end
  end.

(** *** Requests in flight

    A handler returns at its first [await]; what follows the [await]
    runs when the request settles.  [Pending] is a request in flight with
    the answer it will settle to and what its continuation captured. *)

Inductive Pending : Type :=
| AwaitBoard (r : Reply (option (Board number)))
| AwaitReset (newDifficulty : string) (r : Reply ResetData)
| AwaitAssign (r : Reply (AssignData number)).

(** [fetchBoard()] up to its [await]. *)
Definition fetchBoard_begin : M number (option Pending) :=
  r ← fetchBoard_start; mret (Some (AwaitBoard r)).

(** [resetBoard(newDifficulty = difficulty)] up to its [await]. *)
Definition resetBoard_begin (arg : option string) : M number (option Pending) :=
  s ← getState;
  let newDifficulty := default (difficulty s) arg in
  setLoading true;;
  r ← fetch reset_endpoint
        {| url := "http://localhost:8000/reset?difficulty=" +:+ newDifficulty;
           method := "POST"; headers := []; body := None |};
  mret (Some (AwaitReset newDifficulty r)).

(** [resetBoard] after its [await]; on success it calls [fetchBoard],
    which returns at its own [await]. *)
Definition resetBoard_settle (newDifficulty : string) (r : Reply ResetData)
    : M number (option Pending) :=
  match r with
  | Resolves data =>
      if ToBoolean (reset_success data) then
        p ← fetchBoard_begin;
        setDifficulty newDifficulty;;
        setMessage (Some ("Board reset to " +:+ newDifficulty +:+ " difficulty!"));;
        mret p
      else
        setMessage (Some ("Error resetting board: " +:+ ToString (reset_message data)));;
        mret None
  | Rejects e =>
      setMessage (Some ("Error resetting board: " +:+ e));;
      console_error "Error resetting board:";;
      mret None
  end.

Definition handleDifficultyChange_begin (newDifficulty : string)
    : M number (option Pending) :=
  s ← getState;
  if bool_decide (newDifficulty ≠ difficulty s) then resetBoard_begin (Some newDifficulty)
  else mret None.

(** InfoPanel's [handleAssign] up to its return. *)
Definition handleAssign_begin : M number (option Pending) :=
  sel ← getSelectedNumbers;
  if bool_decide (length sel = 0) then
    alert "Please select at least one number!";; mret None
  else
    p ← handleNumberSelection_start Number numberToString sel;
    setSelectedNumbers [];;
    mret (AwaitAssign <$> p).

(** The continuation of a request in flight. *)
Definition settle (p : Pending) : M number (option Pending) :=
  match p with
  | AwaitBoard r => fetchBoard_resume r;; mret None
  | AwaitReset newDifficulty r => resetBoard_settle newDifficulty r
  | AwaitAssign r => assignCellValues_resume r;; mret None
  end.

(** Settling a request and then, in turn, what its continuation
    started; [n] bounds the length of the chain. *)
Fixpoint settleNow (n : nat) (p : option Pending) : M number unit :=
  match n, p with
  | S n', Some pd => p' ← settle pd; settleNow n' p'
  | _, _ => mret ()
  end.

(** *** Events

    The page is the state of the components, the requests in flight, the
    exceptions nobody caught, and whether the element tree is gone: an
    exception while rendering unmounts it. *)

Record Page : Type := {
  world : World number;
  inflight : list Pending;
  uncaught : list string;
  blank : bool
}.

(** A click on an element, named by its position among its siblings, or
    the settling of the [i]-th request in flight. *)
Inductive Event : Type :=
| ClickCell (i j : nat)
| ClickNumber (i : nat)
| ClickAssign
| ClickDifficulty (i : nat)
| ClickNewGame
| Settle (i : nat).

(** The handler a click runs: that of the element if it is on the page
    and not disabled. *)
Definition target (v : AppView) (e : Event) : option (M number (option Pending)) :=
  match e with
  | ClickCell i j =>
      match game_area v with
      | Some (SudokuBoard.BoardDiv rs) =>
          match rs !! i with
          | Some rd =>
              match SudokuBoard.cells rd !! j with
              | Some d =>
                  Some (handleCellClick Number numberToString
                          (SudokuBoard.onClick d).1 (SudokuBoard.onClick d).2;;
                        mret None)
              | None => None
              end
          | None => None
          end
      | _ => None
      end
  | ClickNumber i =>
      match number_grid (info_panel v) !! i with
      | Some b =>
          if number_disabled b then None
          else Some (handleNumberToggle (number_onClick b);; mret None)
      | None => None
      end
  | ClickAssign =>
      if assign_disabled (info_panel v) then None else Some handleAssign_begin
  | ClickDifficulty i =>
      match difficulty_selector (info_panel v) !! i with
      | Some b =>
          Some (handleResetWithDifficulty (Some handleDifficultyChange_begin)
                  resetBoard_begin (difficulty_onClick b))
      | None => None
      end
  | ClickNewGame => Some (resetBoard_begin None)
  | Settle _ => None
  end.

(** The page once the state has changed: rendered again. *)
Definition refresh (w : World number) (fl : list Pending) (errors : list string) : Page :=
  match App_render w with
  | Normal _ => {| world := w; inflight := fl; uncaught := errors; blank := false |}
  | Throws e => {| world := w; inflight := fl; uncaught := errors ++ [e]; blank := true |}
  end.

(** The page after a handler or a continuation has run to its end or to
    an exception; the state changes made before an exception stay. *)
Definition after (p : Page) (fl : list Pending)
    (r : completion (option Pending) * World number) : Page :=
  match r.1 with
  | Normal started => refresh r.2 (fl ++ option_list started) (uncaught p)
  | Throws e => refresh r.2 fl (uncaught p ++ [e])
  end.

(** One event on the page.  A click runs the handler of its element, a
    settlement the continuation of its request.  A blank page is followed
    no further: it has no elements to click, and the continuations of the
    requests still in flight, which JavaScript would run all the same (a
    granted reset would still send GET /board), are left out. *)
Definition fire (srv : Server number) (p : Page) (e : Event) : Page :=
  if blank p then p
  else
    match e with
    | Settle i =>
        match inflight p !! i with
        | Some pd => after p (delete i (inflight p)) (settle pd srv (world p))
        | None => p
        end
    | _ =>
        match App_render (world p) with
        | Normal v =>
            match target v e with
            | Some handler => after p (inflight p) (handler srv (world p))
            | None => p
            end
        | Throws _ => p
        end
    end.

(** The page once mounted: the effect hook has called [fetchBoard]. *)
Definition mounted (srv : Server number) : Page :=
  after {| world := initialWorld; inflight := []; uncaught := []; blank := false |}
        [] (fetchBoard_begin srv initialWorld).

(** The page after the events [es], oldest first. *)
Definition play (srv : Server number) (es : list Event) : Page :=
  foldl (fire srv) (mounted srv) es.

(** *** What the page may send *)

Definition levels : list string := ["easy"; "medium"; "hard"].

Definition boardRequest : Request number :=
  {| url := "http://localhost:8000/board"; method := "GET";
     headers := []; body := None |}.

Definition resetRequest (newDifficulty : string) : Request number :=
  {| url := "http://localhost:8000/reset?difficulty=" +:+ newDifficulty;
     method := "POST"; headers := []; body := None |}.

(** A request for the board, a reset to one of the three difficulties,
    or an assignment of some of the panel's numbers, none twice. *)
Definition pageRequest (req : Request number) : Prop :=
  req = boardRequest ∨
  (∃ level, level ∈ levels ∧ req = resetRequest level) ∨
  (∃ row col candidates,
     req = assignRequest row col candidates ∧
     candidates ≠ [] ∧ NoDup candidates ∧ candidates ⊆ numbers).

(** What holds of the state and of the requests in flight whatever the
    server answers. *)
Definition tidy (w : World number) (fl : list Pending) : Prop :=
  alerts w = [] ∧
  difficulty (app w) ∈ levels ∧
  Forall (λ pd, match pd with
                | AwaitReset newDifficulty _ => newDifficulty ∈ levels
                | _ => True
                end) fl ∧
  Forall pageRequest (sent w) ∧
  NoDup (selectedNumbers w) ∧
  selectedNumbers w ⊆ numbers.

(** *** Well-formed answers *)

(** A board of 9 rows of 9 cells, each Fixed or in superposition. *)
Definition sudokuBoard (b : Board number) : Prop :=
  length b = 9 ∧
  Forall (λ row, length row = 9 ∧ Forall SudokuBoard.boardCell row) b.

(** A server whose answers carry such boards wherever the client reads
    one: the body of GET /board, and the board of a successful /assign. *)
Definition servesSudokuBoards (srv : Server number) : Prop :=
  (∀ history req data,
     board_endpoint srv history req = Resolves data →
     ∃ b, data = Some b ∧ sudokuBoard b) ∧
  (∀ history req data,
     assign_endpoint srv history req = Resolves data →
     ToBoolean (assign_success data) = true →
     ∃ b, assign_board data = Some b ∧ sudokuBoard b).

(** An answer in flight that carries such a board where the client
    will read one. *)
Definition carriesSudokuBoard (pd : Pending) : Prop :=
  match pd with
  | AwaitBoard (Resolves data) => ∃ b, data = Some b ∧ sudokuBoard b
  | AwaitAssign (Resolves data) =>
      ToBoolean (assign_success data) = true →
      ∃ b, assign_board data = Some b ∧ sudokuBoard b
  | _ => True
  end.

(** What holds of the state and of the requests in flight against such
    a server: the board, once there, is a Sudoku board, and the selected
    cell is one of its cells. *)
Definition sound (w : World number) (fl : list Pending) : Prop :=
  (∀ rows, board (app w) = Some rows → sudokuBoard rows) ∧
  (∀ row col, selectedCell (app w) = Some (row, col) →
     row < 9 ∧ col < 9 ∧ board (app w) ≠ None) ∧
  Forall carriesSudokuBoard fl.

(** A server that grants every reset. *)
Definition grantsResets (srv : Server number) : Prop :=
  ∀ history req, ∃ data,
    reset_endpoint srv history req = Resolves data ∧
    ToBoolean (reset_success data) = true.

(** What holds against such a server: while the page is loading, a
    request is in flight. *)
Definition waiting (w : World number) (fl : list Pending) : Prop :=
  (loading (app w) = true → fl ≠ []) ∧
  Forall (λ pd, match pd with
                | AwaitReset _ r =>
                    ∃ data, r = Resolves data ∧ ToBoolean (reset_success data) = true
                | _ => True
                end) fl.

End Page.
End Page.

(** ** Sample data for the page *)

Module Demo.

(** The number with a natural value. *)
Definition numeral (n : nat) : Z := Z.of_nat n.

(** A server that cannot be reached. *)
Definition offline : App.Server Z :=
  {| App.board_endpoint := λ _ _, Rejects "Failed to fetch";
     App.reset_endpoint := λ _ _, Rejects "Failed to fetch";
     App.assign_endpoint := λ _ _, Rejects "Failed to fetch" |}.

(** A cell in superposition over all nine digits, and a 9x9 board of
    such cells. *)
Definition open_cell : App.Cell Z :=
  {| App.value := None;
     App.possibilities :=
       Some [("1", 11%Z); ("2", 11%Z); ("3", 11%Z); ("4", 11%Z); ("5", 11%Z);
             ("6", 11%Z); ("7", 11%Z); ("8", 11%Z); ("9", 11%Z)] |}.

Definition grid : App.Board Z := replicate 9 (replicate 9 open_cell).

(** The board with its first cell Fixed to 5. *)
Definition grid_after : App.Board Z :=
  ({| App.value := Some 5%Z; App.possibilities := None |} :: replicate 8 open_cell)
  :: replicate 8 (replicate 9 open_cell).

(** A server that serves the 9x9 board, accepts every reset and answers
    every assignment with the board whose first cell is Fixed. *)
Definition server : App.Server Z :=
  {| App.board_endpoint := λ _ _, Resolves (Some grid);
     App.reset_endpoint := λ _ _,
       Resolves {| App.reset_success := Some true; App.reset_message := Some "reset" |};
     App.assign_endpoint := λ _ _,
       Resolves {| App.assign_success := Some true;
                   App.assign_board := Some grid_after;
                   App.assign_message := Some "Assigned";
                   App.assign_detail := None |} |}.

(** The page after some events. *)
Definition play (srv : App.Server Z) (es : list Page.Event) : Page.Page :=
  Page.play Sample.Number Sample.numberToString numeral Sample.colorOf Sample.percentOf
    srv es.

(** The board loads; the first cell is clicked, then the fifth number
    button, then Assign; the assignment settles. *)
Definition first_move : list Page.Event :=
  [Page.Settle 0; Page.ClickCell 0 0; Page.ClickNumber 4; Page.ClickAssign; Page.Settle 0].

(** The third difficulty button, with its reset and the board load that
    follows settled in turn. *)
Definition harder : list Page.Event :=
  [Page.ClickDifficulty 2; Page.Settle 0; Page.Settle 0].

End Demo.

(** ** Facts about the handlers of App *)

Section AppFacts.
Import App.
Context {number : Type} `{EqDecision number}.
Variable Number : string → number.
Variable numberToString : number → string.

Ltac run :=
  repeat progress unfold exec, handleNumberSelection, handleNumberSelection_start, handleAssign,
    assignCellValues, assignCellValues_start, assignCellValues_resume, resumePending,
    resetBoard, fetchBoard, fetchBoard_start, fetchBoard_resume, cellAt, Object_keys,
    setBoard, setMessage, setLoading, setDifficulty, setSelectedNumbers,
    setSelectedCell, modifyApp, alert, console_error, fetch, getState,
    getSelectedNumbers, throw, mbind, M_bind, mret, M_ret in *; simpl in *.

(** Running [m] and then [k] on its result. *)
Lemma exec_bind {A B} (m : M number A) (k : A → M number B)
    (srv : Server number) (w : World number) :
  exec (m ≫= k) srv w =
    match m srv w with
    | (Normal a, w1) => exec (k a) srv w1
    | (Throws e, w1) => w1
    end.
Proof.
  unfold exec, mbind, M_bind. destruct (m srv w) as [[a|e] w1]; reflexivity.
Qed.

(** Settling an /assign call sends nothing. *)
Lemma resumePending_sent (p : option (Reply (AssignData number))) (srv : Server number) (w : World number) :
  sent (exec (resumePending p) srv w) = sent w.
Proof.
  destruct p as [[e|data]|]; run; try reflexivity.
  destruct (ToBoolean (assign_success data)); reflexivity.
Qed.

(** What the synchronous part of [handleNumberSelection] sends: nothing,
    or one /assign request for the selected superposition cell carrying
    the valid part of the selection, which is then not empty. *)
Lemma handleNumberSelection_start_sent (numbers : list number)
    (srv : Server number) (w : World number) :
  let r := handleNumberSelection_start Number numberToString numbers srv w in
  (r.1 = Normal None ∨ (∃ e, r.1 = Throws e)) ∧ sent r.2 = sent w ∧ board (app r.2) = board (app w)
  ∨ ∃ row col cell entries,
      selectedCell (app w) = Some (row, col) ∧
      lookupCell (board (app w)) row col = Some cell ∧
      value cell = None ∧
      possibilities cell = Some entries ∧
      validNumbers Number entries.*1 numbers ≠ [] ∧
      r.1 = Normal (Some (assign_endpoint srv (sent w)
                            (assignRequest row col (validNumbers Number entries.*1 numbers)))) ∧
      sent r.2 = sent w ++ [assignRequest row col (validNumbers Number entries.*1 numbers)] ∧
      board (app r.2) = board (app w) ∧
      selectedNumbers r.2 = selectedNumbers w.
Proof.
  destruct w as [[b sc msg ld df] sn st al co]; simpl.
  run. destruct sc as [[row col]|]; simpl; [|left; eauto].
  destruct (lookupCell b row col) as [cell|] eqn:Hcell; simpl; [|left; eauto].
  destruct (value cell) as [v|] eqn:Hv; simpl; [left; eauto|].
  destruct (possibilities cell) as [entries|] eqn:Hp; simpl; [|left; eauto].
  case_bool_decide as Hlen; simpl; [left; eauto|].
  right. exists row, col, cell, entries.
  assert (validNumbers Number entries.*1 numbers ≠ []) by (intros E; rewrite E in Hlen; done).
  case_bool_decide; simpl; eauto 10.
Qed.


(** Membership in the valid part of a selection. *)
Lemma elem_of_validNumbers (keys : list string) (numbers : list number) (n : number) :
  n ∈ validNumbers Number keys numbers ↔
  n ∈ numbers ∧ n ∈ currentPossibilities Number keys.
Proof.
  unfold validNumbers, includes. rewrite list_elem_of_filter, bool_decide_eq_true.
  tauto.
Qed.

(** The valid part is shorter than a selection holding an invalid number. *)
Lemma validNumbers_shorter (keys : list string) (numbers : list number) (n : number) :
  n ∈ numbers → n ∉ currentPossibilities Number keys →
  length (validNumbers Number keys numbers) < length numbers.
Proof.
  unfold validNumbers. induction numbers as [|m rest IH]; intros Hin Hout.
  - inversion Hin.
  - rewrite filter_cons. simpl.
    destruct (decide (n = m)) as [->|Hne].
    + rewrite decide_False.
      * pose proof (length_filter (λ n, includes (currentPossibilities Number keys) n = true) rest). lia.
      * unfold includes. rewrite bool_decide_eq_true. exact Hout.
    + assert (n ∈ rest) as Hrest by (inversion Hin; subst; done).
      specialize (IH Hrest Hout). case_decide; simpl; lia.
Qed.

(** C8: when the selected cell has a defined value, the number-selection
    handler issues no request and leaves the board state as it is; all
    it does is set the message saying the cell is already fixed. *)
Theorem fixed_cell_selection_only_sets_message (numbers : list number)
    (srv : Server number) (w : World number) (row col : nat)
    (cell : Cell number) (v : number) :
  selectedCell (app w) = Some (row, col) →
  lookupCell (board (app w)) row col = Some cell →
  value cell = Some v →
  let w' := exec (handleNumberSelection Number numberToString numbers) srv w in
  sent w' = sent w ∧
  board (app w') = board (app w) ∧
  w' = exec (setMessage (Some ("Cell (" +:+ pretty row +:+ ", " +:+ pretty col
                               +:+ ") is already fixed and cannot be changed."))) srv w.
Proof.
  destruct w as [[b sc msg ld df] sn st al co]; simpl.
  intros -> Hcell Hv. run. rewrite Hcell. simpl. rewrite Hv. simpl. done.
Qed.

(** C1, as the code has it: a selection holding a number outside the
    selected cell's candidate set is filtered, not refused.  Its valid
    part is strictly shorter; when that part is empty nothing is sent and
    the message says the selection is not valid, otherwise one /assign
    request is sent and it carries exactly the valid part. *)
Theorem invalid_numbers_are_filtered_out (numbers : list number)
    (srv : Server number) (w : World number) (row col : nat)
    (cell : Cell number) (entries : list (string * number)) (bad : number) :
  selectedCell (app w) = Some (row, col) →
  lookupCell (board (app w)) row col = Some cell →
  value cell = None →
  possibilities cell = Some entries →
  bad ∈ numbers →
  bad ∉ currentPossibilities Number entries.*1 →
  let valid := validNumbers Number entries.*1 numbers in
  let w' := exec (handleNumberSelection Number numberToString numbers) srv w in
  length valid < length numbers ∧
  (∀ n, n ∈ valid ↔ n ∈ numbers ∧ n ∈ currentPossibilities Number entries.*1) ∧
  (valid = [] →
     sent w' = sent w ∧
     message (app w') = Some "Selected numbers are not valid for this cell!") ∧
  (valid ≠ [] → sent w' = sent w ++ [assignRequest row col valid]).
Proof.
  intros Hsel Hcell Hv Hp Hin Hout valid w'.
  split; [by eapply validNumbers_shorter|].
  split; [intros n; apply elem_of_validNumbers|].
  subst w' valid. destruct w as [[b sc msg ld df] sn st al co]; simpl in *. subst sc.
  run. rewrite Hcell. simpl. rewrite Hv, Hp. simpl.
  split; intros Hvalid.
  - rewrite Hvalid. simpl. done.
  - case_bool_decide as Hlen; [by destruct (validNumbers _ _ _)|].
    case_bool_decide; simpl;
      destruct (assign_endpoint _ _ _) as [e|data]; simpl;
      try destruct (ToBoolean _); reflexivity.
Qed.

(** What [handleNumberSelection] sends, with the call it started settled. *)
Lemma handleNumberSelection_sent (numbers : list number)
    (srv : Server number) (w : World number) :
  let w' := exec (handleNumberSelection Number numberToString numbers) srv w in
  sent w' = sent w ∨
  ∃ row col cell entries,
    selectedCell (app w) = Some (row, col) ∧
    lookupCell (board (app w)) row col = Some cell ∧
    value cell = None ∧
    possibilities cell = Some entries ∧
    validNumbers Number entries.*1 numbers ≠ [] ∧
    sent w' = sent w ++ [assignRequest row col (validNumbers Number entries.*1 numbers)].
Proof.
  intros w'. subst w'. unfold handleNumberSelection. rewrite exec_bind.
  destruct (handleNumberSelection_start_sent numbers srv w) as [([Hr|[e Hr]] & Hs & _)|Hr];
    destruct (handleNumberSelection_start _ _ _ _ _) as [r w1]; simpl in *.
  - subst r. left. exact Hs.
  - subst r. left. exact Hs.
  - destruct Hr as (row & col & cell & entries & ? & ? & ? & ? & ? & -> & Hs & _).
    right. exists row, col, cell, entries. split_and!; try done.
    rewrite <- Hs. apply (resumePending_sent (Some _)).
Qed.

(** What InfoPanel's [handleAssign] sends. *)
Lemma handleAssign_sent (srv : Server number) (w : World number) :
  let w' := exec (handleAssign Number numberToString) srv w in
  sent w' = sent w ∨
  selectedNumbers w ≠ [] ∧
  ∃ row col cell entries,
    selectedCell (app w) = Some (row, col) ∧
    lookupCell (board (app w)) row col = Some cell ∧
    value cell = None ∧
    possibilities cell = Some entries ∧
    validNumbers Number entries.*1 (selectedNumbers w) ≠ [] ∧
    sent w' = sent w ++ [assignRequest row col
                           (validNumbers Number entries.*1 (selectedNumbers w))].
Proof.
  intros w'. subst w'.
  pose proof (handleNumberSelection_start_sent (selectedNumbers w) srv w) as Hstart.
  unfold exec, handleAssign, getSelectedNumbers, mbind, M_bind. cbv beta iota.
  case_bool_decide as Hlen; [left; reflexivity|].
  destruct (handleNumberSelection_start _ _ _ _ _) as [r w1]; simpl in Hstart.
  destruct Hstart as [([->|[e ->]] & Hs & _)|Hr].
  - left. exact Hs.
  - left. exact Hs.
  - destruct Hr as (row & col & cell & entries & ? & ? & ? & ? & ? & -> & Hs & _).
    right. split; [by destruct (selectedNumbers w)|].
    exists row, col, cell, entries. split_and!; try done.
    cbv beta iota.
    etrans; [apply (resumePending_sent (Some _))|]. exact Hs.
Qed.


(** The valid part of a selection holds candidates only. *)
Lemma validNumbers_Forall (keys : list string) (numbers : list number) :
  Forall (λ n, n ∈ currentPossibilities Number keys) (validNumbers Number keys numbers).
Proof.
  apply Forall_forall. intros n Hn. by apply elem_of_validNumbers in Hn as [_ Hn].
Qed.

(** C9: every /assign request the client sends is for the selected cell,
    a cell in superposition, and carries a non-empty candidates array
    whose elements all belong to that cell's possibilities.  This holds
    of the handler in App and of the panel's handler in front of it; the
    panel sends nothing and raises an alert on an empty selection, and
    the handler sends nothing when no selected number is valid. *)
Theorem assign_requests_carry_valid_candidates (numbers : list number)
    (srv : Server number) (w : World number) :
  let direct := exec (handleNumberSelection Number numberToString numbers) srv w in
  let panel := exec (handleAssign Number numberToString) srv w in
  (sent direct = sent w ∨
   ∃ req, sent direct = sent w ++ [req] ∧ carriesValidCandidates Number w req) ∧
  (sent panel = sent w ∨
   ∃ req, sent panel = sent w ++ [req] ∧ carriesValidCandidates Number w req) ∧
  (selectedNumbers w = [] →
     sent panel = sent w ∧
     alerts panel = alerts w ++ ["Please select at least one number!"]) ∧
  (∀ row col cell entries,
     selectedCell (app w) = Some (row, col) →
     lookupCell (board (app w)) row col = Some cell →
     value cell = None →
     possibilities cell = Some entries →
     validNumbers Number entries.*1 numbers = [] →
     sent direct = sent w).
Proof.
  intros direct panel. split_and!.
  - destruct (handleNumberSelection_sent numbers srv w)
      as [Hs|(row & col & cell & entries & ? & ? & ? & ? & ? & Hs)]; [by left|].
    right. eexists. split; [exact Hs|].
    exists row, col, cell, entries, (validNumbers Number entries.*1 numbers).
    split_and!; try done. apply validNumbers_Forall.
  - destruct (handleAssign_sent srv w)
      as [Hs|[_ (row & col & cell & entries & ? & ? & ? & ? & ? & Hs)]]; [by left|].
    right. eexists. split; [exact Hs|].
    exists row, col, cell, entries, (validNumbers Number entries.*1 (selectedNumbers w)).
    split_and!; try done. apply validNumbers_Forall.
  - intros Hsel. subst panel. unfold exec, handleAssign, getSelectedNumbers, mbind, M_bind.
    cbv beta iota. rewrite Hsel. simpl. done.
  - intros row col cell entries Hsel Hcell Hv Hp Hvalid.
    destruct (handleNumberSelection_sent numbers srv w)
      as [Hs|(row' & col' & cell' & entries' & Hsel' & Hcell' & _ & Hp' & Hne & _)]; [done|].
    rewrite Hsel in Hsel'. injection Hsel' as <- <-.
    rewrite Hcell in Hcell'. injection Hcell' as <-.
    rewrite Hp in Hp'. injection Hp' as <-. done.
Qed.


(** C3: when /assign answers with success true, the client's board
    becomes the answer's board and its message the answer's message;
    with success false, the message shows the answer's detail (after the
    words "Error assigning values: ") and the board is the one from
    before the call. *)
Theorem assign_response_handling (row col : nat) (candidates : list number)
    (srv : Server number) (w : World number) (data : AssignData number) :
  assign_endpoint srv (sent w) (assignRequest row col candidates) = Resolves data →
  let w' := exec (assignCellValues row col candidates) srv w in
  (assign_success data = Some true →
     board (app w') = assign_board data ∧
     message (app w') = assign_message data) ∧
  (assign_success data = Some false →
     board (app w') = board (app w) ∧
     message (app w') =
       Some ("Error assigning values: " +:+ ToString (assign_detail data))).
Proof.
  destruct w as [[b sc msg ld df] sn st al co]; simpl.
  intros Hreply. run. rewrite Hreply. simpl.
  split; intros ->; simpl; done.
Qed.

(** C7: a reset issues a POST to /reset with the chosen difficulty as the
    query parameter, before anything else it requests.  When the answer
    has success true the board is fetched with GET /board and the stored
    difficulty becomes the chosen one; when it has success false the
    message shows the answer's message (after the words "Error resetting
    board: "), nothing more is requested and the stored difficulty stays. *)
Theorem reset_request_handling (arg : option string)
    (srv : Server number) (w : World number) :
  let newDifficulty := default (difficulty (app w)) arg in
  let req : Request number :=
    {| url := "http://localhost:8000/reset?difficulty=" +:+ newDifficulty;
       method := "POST"; headers := []; body := None |} in
  let get : Request number :=
    {| url := "http://localhost:8000/board"; method := "GET";
       headers := []; body := None |} in
  let w' := exec (resetBoard arg) srv w in
  (∃ later, sent w' = sent w ++ req :: later) ∧
  ∀ data, reset_endpoint srv (sent w) req = Resolves data →
    (reset_success data = Some true →
       sent w' = sent w ++ [req; get] ∧
       difficulty (app w') = newDifficulty) ∧
    (reset_success data = Some false →
       sent w' = sent w ++ [req] ∧
       message (app w') =
         Some ("Error resetting board: " +:+ ToString (reset_message data)) ∧
       difficulty (app w') = difficulty (app w)).
Proof.
  destruct w as [[b sc msg ld df] sn st al co]; simpl. split.
  - run. destruct (reset_endpoint _ _ _) as [e|data]; simpl; [by exists []|].
    destruct (ToBoolean (reset_success data)); simpl; [|by exists []].
    destruct (board_endpoint _ _ _); simpl; rewrite <- app_assoc; by eexists.
  - intros data Hreply. run. rewrite Hreply. simpl.
    split; intros ->; simpl; [|done].
    destruct (board_endpoint _ _ _); simpl; rewrite <- app_assoc; done.
Qed.

End AppFacts.

(** ** The handlers on the sample data *)

Lemma fixed_cell_selection_only_sets_message_witness :
  let w := Sample.world (Some (0, 1)) [] in
  let w' := App.exec (App.handleNumberSelection Sample.Number Sample.numberToString [7%Z])
              (Sample.server Sample.approval) w in
  App.selectedCell (App.app w) = Some (0, 1) ∧
  App.lookupCell (App.board (App.app w)) 0 1 = Some Sample.fixed_cell ∧
  App.value Sample.fixed_cell = Some 7%Z ∧
  App.sent w' = [] ∧
  App.board (App.app w') = Some Sample.sample_board.
Proof.
  intros w w'.
  destruct (fixed_cell_selection_only_sets_message Sample.Number Sample.numberToString
              [7%Z] (Sample.server Sample.approval) w 0 1 Sample.fixed_cell 7%Z
              eq_refl eq_refl eq_refl) as (Hsent & Hboard & _).
  split; [reflexivity|]. split; [reflexivity|]. split; [reflexivity|].
  split; [exact Hsent | exact Hboard].
Defined.

(** C1 fails as stated: the selection 1, 3 on a cell whose candidates are
    1 and 2 holds the invalid number 3, and the client still sends an
    /assign request, with the reduced list 1. *)
Lemma invalid_selection_still_sent_counterexample :
  let w := Sample.world (Some (0, 0)) [] in
  let w' := App.exec (App.handleNumberSelection Sample.Number Sample.numberToString
                        [1%Z; 3%Z])
              (Sample.server Sample.approval) w in
  App.lookupCell (App.board (App.app w)) 0 0 = Some Sample.open_cell ∧
  App.currentPossibilities Sample.Number ["1"; "2"] = [1%Z; 2%Z] ∧
  3%Z ∈ [1%Z; 3%Z] ∧
  (3%Z ∉ App.currentPossibilities Sample.Number ["1"; "2"]) ∧
  App.sent w' = [App.assignRequest 0 0 [1%Z]].
Proof.
  intros w w'. split_and!; try reflexivity; compute_done.
Qed.

(** The selection of the counterexample arises at the panel: numbers
    toggled for one cell stay selected when another cell is clicked. *)
Lemma stale_selection_is_filtered :
  let srv := Sample.server Sample.approval in
  let w := App.exec Sample.session srv (Sample.world None []) in
  let w' := App.exec (App.assignButton_onClick Sample.Number Sample.numberToString) srv w in
  App.selectedCell (App.app w) = Some (0, 0) ∧
  App.selectedNumbers w = [3%Z; 1%Z] ∧
  App.sent w = [] ∧
  App.sent w' = [App.assignRequest 0 0 [1%Z]].
Proof. intros srv w w'. split_and!; reflexivity. Qed.

Lemma invalid_numbers_are_filtered_out_witness :
  let w := Sample.world (Some (0, 0)) [] in
  let w' := App.exec (App.handleNumberSelection Sample.Number Sample.numberToString
                        [1%Z; 3%Z])
              (Sample.server Sample.approval) w in
  App.selectedCell (App.app w) = Some (0, 0) ∧
  App.lookupCell (App.board (App.app w)) 0 0 = Some Sample.open_cell ∧
  App.value Sample.open_cell = None ∧
  App.possibilities Sample.open_cell = Some [("1", 50%Z); ("2", 50%Z)] ∧
  3%Z ∈ [1%Z; 3%Z] ∧
  (3%Z ∉ App.currentPossibilities Sample.Number ["1"; "2"]) ∧
  App.validNumbers Sample.Number ["1"; "2"] [1%Z; 3%Z] = [1%Z] ∧
  App.sent w' = [App.assignRequest 0 0 [1%Z]].
Proof.
  intros w w'.
  assert (3%Z ∈ [1%Z; 3%Z]) as Hin by compute_done.
  assert (3%Z ∉ App.currentPossibilities Sample.Number ["1"; "2"]) as Hout
    by compute_done.
  destruct (invalid_numbers_are_filtered_out Sample.Number Sample.numberToString
              [1%Z; 3%Z] (Sample.server Sample.approval) w 0 0 Sample.open_cell
              [("1", 50%Z); ("2", 50%Z)] 3%Z eq_refl eq_refl eq_refl eq_refl Hin Hout)
    as (_ & _ & _ & Hsent).
  split; [reflexivity|]. split; [reflexivity|]. split; [reflexivity|].
  split; [reflexivity|]. split; [assumption|]. split; [assumption|].
  split; [reflexivity|].
  apply Hsent. discriminate.
Defined.

Lemma assign_response_handling_witness :
  let w := Sample.world (Some (0, 0)) [] in
  let w' := App.exec (App.assignCellValues 0 0 [1%Z]) (Sample.server Sample.refusal) w in
  App.assign_endpoint (Sample.server Sample.refusal) (App.sent w)
    (App.assignRequest 0 0 [1%Z]) = Resolves Sample.refusal ∧
  App.assign_success Sample.refusal = Some false ∧
  App.board (App.app w') = Some Sample.sample_board ∧
  App.message (App.app w') = Some "Error assigning values: conflict".
Proof.
  intros w w'.
  destruct (assign_response_handling 0 0 [1%Z] (Sample.server Sample.refusal) w
              Sample.refusal eq_refl) as [_ Hfalse].
  split; [reflexivity|]. split; [reflexivity|].
  exact (Hfalse eq_refl).
Defined.

(** The other branch of C3 on the sample data: an approval replaces the
    board and shows the server's message. *)
Lemma assign_approved_example :
  let w := Sample.world (Some (0, 0)) [] in
  let w' := App.exec (App.assignCellValues 0 0 [1%Z]) (Sample.server Sample.approval) w in
  App.board (App.app w') = Some [[Sample.fixed_cell; Sample.fixed_cell]] ∧
  App.message (App.app w') = Some "assigned" ∧
  App.loading (App.app w') = false.
Proof. intros w w'. split_and!; reflexivity. Qed.

Lemma reset_request_handling_witness :
  let w := Sample.world (Some (0, 0)) [] in
  let req : App.Request Z :=
    {| App.url := "http://localhost:8000/reset?difficulty=easy";
       App.method := "POST"; App.headers := []; App.body := None |} in
  let data : App.ResetData :=
    {| App.reset_success := Some true;
       App.reset_message := Some "unknown difficulty" |} in
  let w' := App.exec (App.resetBoard (Some "easy")) (Sample.server Sample.refusal) w in
  App.reset_endpoint (Sample.server Sample.refusal) (App.sent w) req = Resolves data ∧
  App.sent w' =
    [req; {| App.url := "http://localhost:8000/board"; App.method := "GET";
             App.headers := []; App.body := None |}] ∧
  App.difficulty (App.app w') = "easy".
Proof.
  intros w req data w'.
  destruct (reset_request_handling (Some "easy") (Sample.server Sample.refusal) w)
    as [_ Hanswer].
  destruct (Hanswer data eq_refl) as [Htrue _].
  split; [reflexivity|].
  exact (Htrue eq_refl).
Defined.

(** The other branch of C7 on the sample data: the refused reset to
    "hard" requests nothing more, shows the server's message and keeps
    the difficulty. *)
Lemma reset_refused_example :
  let w := Sample.world (Some (0, 0)) [] in
  let w' := App.exec (App.handleDifficultyChange "hard") (Sample.server Sample.refusal) w in
  App.sent w' =
    [{| App.url := "http://localhost:8000/reset?difficulty=hard";
        App.method := "POST"; App.headers := []; App.body := None |}] ∧
  App.message (App.app w') = Some "Error resetting board: unknown difficulty" ∧
  App.difficulty (App.app w') = "medium".
Proof. intros w w'. split_and!; reflexivity. Qed.

(** ** Facts about sorting *)

Section SortFacts.
Context {A : Type}.
Variable comparefn : A → A → jsnum.

Lemma insert_Permutation (x : A) (l : list A) : insert comparefn x l ≡ₚ x :: l.
Proof.
  induction l as [|y rest IH]; simpl; [reflexivity|].
  destruct (SortCompare comparefn x y <=? 0)%Z; [reflexivity|].
  rewrite IH. apply Permutation_swap.
Qed.

Lemma sort_Permutation (l : list A) : sort comparefn l ≡ₚ l.
Proof.
  induction l as [|x rest IH]; simpl; [reflexivity|].
  rewrite insert_Permutation. by rewrite IH.
Qed.

(** A comparator that subtracts integer keys, on the elements where
    [numeric] holds. *)
Variable key : A → Z.
Variable numeric : A → Prop.
Hypothesis comparefn_key :
  ∀ x y, numeric x → numeric y → SortCompare comparefn x y = (key x - key y)%Z.

Lemma insert_sorted (x : A) (l : list A) :
  numeric x → Forall numeric l →
  StronglySorted (λ a b, (key a ≤ key b)%Z) l →
  StronglySorted (λ a b, (key a ≤ key b)%Z) (insert comparefn x l).
Proof.
  intros Hx Hl Hs. induction Hs as [|y rest Hrest IH Hy]; simpl.
  - repeat constructor.
  - apply Forall_cons in Hl as [Hny Hl].
    rewrite comparefn_key by assumption.
    destruct (Z.leb_spec (key x - key y) 0) as [Hle|Hgt].
    + constructor; [by constructor|].
      constructor; [lia|]. eapply Forall_impl; [exact Hy|]. simpl. intros; lia.
    + constructor; [by apply IH|].
      rewrite insert_Permutation. constructor; [lia|exact Hy].
Qed.

Lemma sort_sorted (l : list A) :
  Forall numeric l →
  StronglySorted (λ a b, (key a ≤ key b)%Z) (sort comparefn l).
Proof.
  induction l as [|x rest IH]; intros Hl; simpl; [constructor|].
  apply Forall_cons in Hl as [Hx Hl].
  apply insert_sorted; [done| |by apply IH].
  by rewrite sort_Permutation.
Qed.

(** Distinct keys in ascending order ascend strictly. *)
Lemma sorted_NoDup_strict (l : list A) :
  NoDup (key <$> l) →
  StronglySorted (λ a b, (key a ≤ key b)%Z) l →
  StronglySorted (λ a b, (key a < key b)%Z) l.
Proof.
  induction l as [|x rest IH]; intros Hnd Hs; [constructor|].
  rewrite fmap_cons in Hnd. apply NoDup_cons in Hnd as [Hx Hnd].
  apply StronglySorted_inv in Hs as [Hs Hall].
  constructor; [by apply IH|].
  apply Forall_forall. intros y Hy.
  rewrite Forall_forall in Hall. specialize (Hall y Hy).
  destruct (decide (key x = key y)) as [Heq|Hne]; [|lia].
  exfalso. apply Hx. rewrite Heq. by apply list_elem_of_fmap_2.
Qed.

(** Sorting a list of numeric elements with distinct keys. *)
Lemma sort_strict (l : list A) :
  Forall numeric l → NoDup (key <$> l) →
  StronglySorted (λ a b, (key a < key b)%Z) (sort comparefn l).
Proof.
  intros Hl Hnd. apply sorted_NoDup_strict; [|by apply sort_sorted].
  by rewrite sort_Permutation.
Qed.
End SortFacts.

(** ** Facts about the board component *)

Section SudokuBoardFacts.
Import SudokuBoard.
Context {number : Type}.
Variable getProbabilityColor : number → string.
Variable toFixed0 : number → string.

(** [parseInt] reads each candidate key as the digit it shows. *)
Lemma parseInt_candidateKeys :
  Forall (λ k, ∃ z, (1 ≤ z ≤ 9)%Z ∧ k = pretty z ∧ parseInt k = JNum z) candidateKeys.
Proof.
  unfold candidateKeys.
  repeat (constructor;
          [first [ by (exists 1%Z) | by (exists 2%Z) | by (exists 3%Z)
                 | by (exists 4%Z) | by (exists 5%Z) | by (exists 6%Z)
                 | by (exists 7%Z) | by (exists 8%Z) | by (exists 9%Z) ]|]).
  constructor.
Qed.

Lemma parseInt_candidateKey (k : string) :
  k ∈ candidateKeys → ∃ z, (1 ≤ z ≤ 9)%Z ∧ k = pretty z ∧ parseInt k = JNum z.
Proof.
  intros Hk. pose proof parseInt_candidateKeys as Hall.
  rewrite Forall_forall in Hall. by apply Hall.
Qed.

Lemma parsed_numeric (entries : list (string * number)) :
  possibilitiesMapping entries →
  Forall (λ e : jsnum * number, ∃ z, e.1 = JNum z)
         ((λ e, (parseInt e.1, e.2)) <$> entries).
Proof.
  intros [_ Hkeys]. apply Forall_fmap, Forall_forall. intros [k p] Hin. simpl.
  rewrite Forall_forall in Hkeys.
  destruct (parseInt_candidateKey k) as (z & _ & _ & Hz); [|by exists z].
  apply Hkeys. by apply (list_elem_of_fmap_2 fst) in Hin.
Qed.

Lemma parsed_NoDup (entries : list (string * number)) :
  possibilitiesMapping entries →
  NoDup (numericKey <$> ((λ e, (parseInt e.1, e.2)) <$> entries)).
Proof.
  intros [Hnd Hkeys]. rewrite <- list_fmap_compose.
  induction entries as [|[k p] rest IH]; [constructor|].
  rewrite !fmap_cons in *. simpl in *.
  apply NoDup_cons in Hnd as [Hk Hnd]. apply Forall_cons in Hkeys as [Hkey Hkeys].
  apply NoDup_cons. split; [|by apply IH].
  intros Hin. apply list_elem_of_fmap in Hin as ([k' p'] & Heq & Hin').
  apply Hk.
  assert (k' ∈ candidateKeys) as Hkey'.
  { rewrite Forall_forall in Hkeys. apply Hkeys.
    by apply (list_elem_of_fmap_2 fst) in Hin'. }
  destruct (parseInt_candidateKey k Hkey) as (z & _ & -> & Hz).
  destruct (parseInt_candidateKey k' Hkey') as (z' & _ & -> & Hz').
  unfold numericKey in Heq. simpl in Heq. rewrite Hz, Hz' in Heq. subst z'.
  by apply (list_elem_of_fmap_2 fst) in Hin'.
Qed.

Lemma StronglySorted_impl_Forall {B} (R R' : B → B → Prop) (P : B → Prop) (l : list B) :
  (∀ a b, P a → P b → R a b → R' a b) →
  Forall P l → StronglySorted R l → StronglySorted R' l.
Proof.
  intros HR Hl Hs. induction Hs as [|x rest Hrest IH Hx]; [constructor|].
  apply Forall_cons in Hl as [Hpx Hl].
  constructor; [by apply IH|].
  rewrite Forall_forall in Hx, Hl |- *. intros y Hy. apply HR; auto.
Qed.

(** C10: on a possibilities mapping, [sortPossibilities] returns the
    (value, probability) pairs in strictly ascending numeric order of
    value; the pairs are exactly the entries of the mapping, each key
    read as the number it shows and each probability kept. *)
Theorem sortPossibilities_ascending (entries : list (string * number)) :
  possibilitiesMapping entries →
  StronglySorted ascending (sortPossibilities entries) ∧
  sortPossibilities entries ≡ₚ (λ e, (parseInt e.1, e.2)) <$> entries ∧
  Forall (λ e, ∃ z, (1 ≤ z ≤ 9)%Z ∧ e.1 = pretty z ∧ parseInt e.1 = JNum z) entries.
Proof.
  intros Hmap. unfold sortPossibilities. split_and!.
  - pose proof (parsed_numeric entries Hmap) as Hnum.
    apply (StronglySorted_impl_Forall (λ a b, (numericKey a < numericKey b)%Z) _
             (λ e, ∃ z, e.1 = JNum z)).
    + intros a b [x Ha] [y Hb]. unfold ascending, numericKey. by rewrite Ha, Hb.
    + by rewrite sort_Permutation.
    + apply (sort_strict _ numericKey (λ e, ∃ z, e.1 = JNum z)); [|done|by apply parsed_NoDup].
      intros a b [x Ha] [y Hb]. unfold SortCompare, numericKey. by rewrite Ha, Hb.
  - apply sort_Permutation.
  - destruct Hmap as [_ Hkeys]. apply Forall_forall. intros [k p] Hin. simpl.
    apply parseInt_candidateKey. rewrite Forall_forall in Hkeys. apply Hkeys.
    by apply (list_elem_of_fmap_2 fst) in Hin.
Qed.

(** The pairs of a mapping, sorted, ascend strictly by the integer of
    their key. *)
Lemma sortPossibilities_strict (entries : list (string * number)) :
  possibilitiesMapping entries →
  StronglySorted (λ a b, (numericKey a < numericKey b)%Z) (sortPossibilities entries) ∧
  Forall (λ e : jsnum * number, ∃ z, e.1 = JNum z) (sortPossibilities entries).
Proof.
  intros Hmap. pose proof (parsed_numeric entries Hmap) as Hnum.
  unfold sortPossibilities. split; [|by rewrite sort_Permutation].
  apply (sort_strict _ numericKey (λ e, ∃ z, e.1 = JNum z)); [|done|by apply parsed_NoDup].
  intros a b [x Ha] [y Hb]. unfold SortCompare, numericKey. by rewrite Ha, Hb.
Qed.

(** The element of a parsed entry shows that entry: its number as text,
    its probability as colour and percentage. *)
Lemma possibilityDiv_shows (rowIndex colIndex : nat) (k : string) (z : Z)
    (probability : number) :
  k = pretty z → parseInt k = JNum z →
  let item := possibilityDiv getProbabilityColor toFixed0 rowIndex colIndex
                (parseInt k, probability) in
  possibility_text item = JNum z ∧
  backgroundColor item = getProbabilityColor probability ∧
  data_probability item = toFixed0 probability +:+ "%" ∧
  color item = "#333" ∧
  possibility_key item
  = "possibility-" +:+ pretty rowIndex +:+ "-" +:+ pretty colIndex +:+ "-" +:+ pretty z.
Proof. intros -> Hz. cbv zeta. rewrite Hz. by split_and!. Qed.

(** The elements of pairs that ascend strictly ascend by the numbers they
    show. *)
Lemma possibilityDiv_sorted (rowIndex colIndex : nat) (l : list (jsnum * number)) :
  Forall (λ e : jsnum * number, ∃ z, e.1 = JNum z) l →
  StronglySorted (λ a b, (numericKey a < numericKey b)%Z) l →
  StronglySorted numberBefore
    (possibilityDiv getProbabilityColor toFixed0 rowIndex colIndex <$> l).
Proof.
  intros Hnum Hs. induction Hs as [|x rest Hrest IH Hx]; [constructor|].
  apply Forall_cons in Hnum as [[z Hz] Hnum]. rewrite fmap_cons.
  constructor; [by apply IH|].
  apply Forall_fmap, Forall_forall. intros y Hy.
  rewrite Forall_forall in Hx, Hnum. specialize (Hx y Hy).
  destruct (Hnum y Hy) as [z' Hz'].
  destruct x as [n p], y as [n' p']. simpl in *. subst n n'.
  unfold numberBefore, numericKey in *. simpl in *. exact Hx.
Qed.

(** C5: a cell of the board JSON (Fixed, or in superposition over a
    mapping with keys among "1" to "9") is rendered as a Fixed cell
    exactly when its value field is defined, showing that value, and
    otherwise as candidates; every such cell gets one of the two
    renderings and never both.  The candidates are as many elements as
    the mapping has entries, in ascending order of the numbers they show,
    and each entry has its element: the one whose text is the number of
    the entry's key, whose background is the colour of the entry's
    probability, and whose data-probability is that probability as a
    percentage.  (The type of JSON values is arbitrary: a value field
    holding null counts as defined, as [cell.value !== undefined] has
    it.) *)
Theorem cell_rendering (selectedCell : option (nat * nat))
    (rowIndex colIndex : nat) (cell : App.Cell number) :
  contractCell cell →
  ∃ d, renderCell getProbabilityColor toFixed0 selectedCell rowIndex colIndex cell
         = Normal d ∧
    (rendersFixed d ↔ App.value cell ≠ None) ∧
    (rendersCandidates d ↔ App.value cell = None) ∧
    (rendersFixed d ∨ rendersCandidates d) ∧
    ¬ (rendersFixed d ∧ rendersCandidates d) ∧
    (∀ v, App.value cell = Some v → content d = FixedValue v) ∧
    (∀ entries,
       App.value cell = None → App.possibilities cell = Some entries →
       ∃ items,
         content d = Possibilities items ∧
         length items = length entries ∧
         StronglySorted numberBefore items ∧
         ∀ k probability, (k, probability) ∈ entries →
           ∃ z item,
             k = pretty z ∧ (1 ≤ z ≤ 9)%Z ∧ item ∈ items ∧
             possibility_text item = JNum z ∧
             backgroundColor item = getProbabilityColor probability ∧
             data_probability item = toFixed0 probability +:+ "%" ∧
             color item = "#333" ∧
             possibility_key item
             = "possibility-" +:+ pretty rowIndex +:+ "-" +:+ pretty colIndex
               +:+ "-" +:+ pretty z).
Proof.
  intros Hcell. unfold renderCell, contractCell in *.
  destruct (App.value cell) as [v|] eqn:Hv.
  - eexists. split; [reflexivity|]. unfold rendersFixed, rendersCandidates. simpl.
    split_and!.
    + split; [done|]. intros _. by exists v.
    + split; [|done]. intros [items Hitems]. discriminate Hitems.
    + left. by exists v.
    + intros [_ [items Hitems]]. discriminate Hitems.
    + by intros v' [= <-].
    + intros entries Hnone. discriminate Hnone.
  - destruct Hcell as [Hcell|(entries & Hp & Hmap)]; [done|].
    rewrite Hp. simpl.
    eexists. split; [reflexivity|]. unfold rendersFixed, rendersCandidates. simpl.
    split_and!.
    + split; [|done]. intros [v Hfixed]. discriminate Hfixed.
    + split; [done|]. intros _. by eexists.
    + right. by eexists.
    + intros [[v Hfixed] _]. discriminate Hfixed.
    + intros v Hsome. discriminate Hsome.
    + intros entries' _ [= <-]. eexists. split; [reflexivity|].
      destruct (sortPossibilities_strict entries Hmap) as [Hs Hnum].
      split_and!.
      * rewrite length_fmap. unfold sortPossibilities.
        by rewrite sort_Permutation, length_fmap.
      * by apply possibilityDiv_sorted.
      * intros k probability Hin.
        assert (k ∈ candidateKeys) as Hk.
        { destruct Hmap as [_ Hkeys]. rewrite Forall_forall in Hkeys. apply Hkeys.
          by apply (list_elem_of_fmap_2 fst) in Hin. }
        destruct (parseInt_candidateKey k Hk) as (z & Hz & Hkz & Hparse).
        exists z, (possibilityDiv getProbabilityColor toFixed0 rowIndex colIndex
                     (parseInt k, probability)).
        destruct (possibilityDiv_shows rowIndex colIndex k z probability Hkz Hparse)
          as (Ht & Hb & Hd & Hc & Hkey).
        split; [exact Hkz|]. split; [exact Hz|].
        split; [|by split_and!].
        apply list_elem_of_fmap_2. unfold sortPossibilities. rewrite sort_Permutation.
        by apply (list_elem_of_fmap_2 (λ e : string * number, (parseInt e.1, e.2)))
          in Hin.
Qed.
End SudokuBoardFacts.

Lemma sortPossibilities_ascending_witness :
  SudokuBoard.possibilitiesMapping Sample.shuffled_entries ∧
  StronglySorted SudokuBoard.ascending
    (SudokuBoard.sortPossibilities Sample.shuffled_entries) ∧
  SudokuBoard.sortPossibilities Sample.shuffled_entries
    ≡ₚ (λ e, (parseInt e.1, e.2)) <$> Sample.shuffled_entries.
Proof.
  assert (SudokuBoard.possibilitiesMapping Sample.shuffled_entries) as Hmap.
  { split; compute_done. }
  split; [exact Hmap|].
  destruct (sortPossibilities_ascending Sample.shuffled_entries Hmap) as (Hs & Hp & _).
  split; [exact Hs | exact Hp].
Defined.

Lemma cell_rendering_witness :
  SudokuBoard.contractCell Sample.open_cell ∧
  ∃ d, SudokuBoard.renderCell Sample.colorOf Sample.percentOf (Some (0, 0)) 0 0
         Sample.open_cell = Normal d ∧
       (SudokuBoard.rendersCandidates d ↔ App.value Sample.open_cell = None) ∧
       ∃ items, SudokuBoard.content d = SudokuBoard.Possibilities items ∧
                length items = 2 ∧
                SudokuBoard.possibility_text <$> items = [JNum 1; JNum 2].
Proof.
  assert (SudokuBoard.contractCell Sample.open_cell) as Hcell.
  { right. eexists. split; [reflexivity|]. split; compute_done. }
  split; [exact Hcell|].
  destruct (cell_rendering Sample.colorOf Sample.percentOf (Some (0, 0)) 0 0
              Sample.open_cell Hcell) as (d & Hd & _ & Hcands & _ & _ & _ & Hitems).
  exists d. split; [exact Hd|]. split; [exact Hcands|].
  destruct (Hitems _ eq_refl eq_refl) as (items & Hcontent & Hlen & _).
  exists items. split; [exact Hcontent|]. split; [exact Hlen|].
  injection Hd as <-. injection Hcontent as <-. reflexivity.
Defined.

(** ** Facts about the assignment engine *)

Section EngineFacts.
Import Engine.

Lemma count_insert (cells : list Cell) (i : nat) (old new : Cell) :
  cells !! i = Some old →
  count (<[i := new]> cells) + (if is_superposition old then 1 else 0)
  = count cells + (if is_superposition new then 1 else 0).
Proof.
  intros Hi. unfold count.
  rewrite insert_take_drop by (by eapply lookup_lt_Some).
  rewrite <- (take_drop_middle cells i old Hi) at 3.
  rewrite !filter_app, !filter_cons, !length_app.
  destruct old, new; simpl; lia.
Qed.

Lemma undecided_set (b : Board) (p : pos) (old new : Cell) :
  get b p = Some old →
  undecided (set b p new) + (if is_superposition old then 1 else 0)
  = undecided b + (if is_superposition new then 1 else 0).
Proof.
  unfold get, set, undecided, count. destruct p as [r c]. simpl.
  destruct ((b : list (list Cell)) !! r) as [cells|] eqn:Hr; [|done]. intros Hc.
  rewrite insert_take_drop by (by eapply lookup_lt_Some).
  rewrite <- (take_drop_middle b r cells Hr) at 3.
  rewrite !concat_app, !concat_cons, !filter_app, !length_app.
  pose proof (count_insert cells c old new Hc) as Hcount. unfold count in Hcount.
  lia.
Qed.

(** A visit that goes on never lets work list and undecided cells grow
    together. *)
Lemma visit_measure (v : Z) (b b' : Board) (q q' : Queue) (p : pos) :
  visit v (b, q) p = inr (b', q') →
  length q' + undecided b' ≤ length q + undecided b.
Proof.
  unfold visit. destruct (get b p) as [[w|ws]|] eqn:Hget.
  - case_bool_decide; [done|]. intros [= <- <-]. lia.
  - case_bool_decide; [|intros [= <- <-]; lia].
    destruct (filter _ _) as [|u [|u' cs]]; [done| |]; intros [= <- <-].
    + pose proof (undecided_set b p _ (Fixed u) Hget) as Hu. simpl in Hu.
      rewrite length_app. simpl. lia.
    + pose proof (undecided_set b p _ (Superposition (uniform (u :: u' :: cs))) Hget) as Hu.
      simpl in Hu. lia.
  - intros [= <- <-]. lia.
Qed.

Lemma visit_all_measure (v : Z) (ps : list pos) (b b' : Board) (q q' : Queue) :
  visit_all v (b, q) ps = inr (b', q') →
  length q' + undecided b' ≤ length q + undecided b.
Proof.
  revert b q. induction ps as [|p rest IH]; intros b q; cbn [visit_all].
  - intros [= <- <-]. lia.
  - destruct (visit v (b, q) p) as [h|[b1 q1]] eqn:Hvisit; [done|].
    intros Hrest. apply IH in Hrest. apply visit_measure in Hvisit. lia.
Qed.

(** Propagation reaches its fixed point or a conflict within a budget of
    one step for each work-list entry and each undecided cell. *)
Lemma propagate_within_budget (fuel : nat) (b : Board) (q : Queue) :
  length q + undecided b ≤ fuel → propagate fuel b q ≠ inl Exhausted.
Proof.
  revert b q. induction fuel as [|fuel IH]; intros b q Hfuel.
  - destruct q as [|[p v] rest]; cbn [propagate length] in *; [done|lia].
  - destruct q as [|[p v] rest]; cbn [propagate length] in *; [done|].
    destruct (visit_all v (b, rest) (peers p)) as [h|[b' q']] eqn:Hvisit.
    + clear -Hvisit. revert b rest Hvisit. generalize (peers p) as ps.
      induction ps as [|p' ps IHps]; intros b rest; cbn [visit_all]; [done|].
      destruct (visit v (b, rest) p') as [h'|[b1 q1]] eqn:Hv.
      * intros [= <-]. unfold visit in Hv.
        destruct (get b p') as [[w|ws]|]; [case_bool_decide| |]; try congruence.
        case_bool_decide; [|congruence].
        destruct (filter _ _) as [|u [|u' cs]]; congruence.
      * apply IHps.
    + apply IH. apply visit_all_measure in Hvisit. lia.
Qed.

(** The propagation [assign] runs always has budget enough. *)
Lemma propagation_of_terminates (b : Board) (row col : nat) (v : Z) :
  propagation_of b row col v ≠ inl Exhausted.
Proof.
  unfold propagation_of. apply propagate_within_budget. simpl. lia.
Qed.

(** Reading the working copy after a write: the cell written, and every
    other cell as before. *)
Lemma get_set_same (b : Board) (p : pos) (old c : Cell) :
  get b p = Some old → get (set b p c) p = Some c.
Proof.
  unfold get, set. destruct p as [r k]. simpl.
  destruct ((b : list (list Cell)) !! r) as [cells|] eqn:Hr; [|done]. intros Hk.
  rewrite list_lookup_insert_eq by (by eapply lookup_lt_Some).
  apply list_lookup_insert_eq. by eapply lookup_lt_Some.
Qed.

Lemma get_set_other (b : Board) (p p' : pos) (c : Cell) :
  p ≠ p' → get (set b p c) p' = get b p'.
Proof.
  unfold get, set. destruct p as [r k], p' as [r' k']. simpl. intros Hne.
  destruct ((b : list (list Cell)) !! r) as [cells|] eqn:Hr; [|done].
  destruct (decide (r = r')) as [<-|Hr'].
  - rewrite list_lookup_insert_eq by (by eapply lookup_lt_Some). rewrite Hr.
    apply list_lookup_insert_ne. congruence.
  - by rewrite list_lookup_insert_ne.
Qed.

(** What the scan does at one peer, case by case. *)
Lemma visit_past (v : Z) (b : Board) (q : Queue) (p : pos) :
  (∀ c, get b p = Some c → v ∉ candidates_of c) → visit v (b, q) p = inr (b, q).
Proof.
  intros Hfree. unfold visit. destruct (get b p) as [[w|ws]|]; [| |done].
  - rewrite bool_decide_false; [done|]. intros ->.
    apply (Hfree (Fixed v)); [done|]. simpl. left.
  - rewrite bool_decide_false; [done|]. by apply (Hfree (Superposition ws)).
Qed.

Lemma visit_halts (v : Z) (b : Board) (q : Queue) (p : pos) (c : Cell) :
  get b p = Some c → v ∈ candidates_of c → Forall (λ w, w = v) (candidates_of c) →
  visit v (b, q) p = inl (halt_at c p).
Proof.
  intros Hget Hin Hall. unfold visit. rewrite Hget. destruct c as [w|ws]; simpl in *.
  - apply list_elem_of_singleton in Hin. by rewrite bool_decide_true.
  - rewrite bool_decide_true by done.
    destruct (filter (λ u, u ≠ v) ws.*1) as [|u rest] eqn:Hfilter; [done|].
    assert (u ∈ filter (λ u, u ≠ v) ws.*1) as Hu by (rewrite Hfilter; left).
    apply list_elem_of_filter in Hu as [Hne Hu].
    rewrite Forall_forall in Hall. by specialize (Hall u Hu).
Qed.

(** The engine follows the moves: after a move it goes on from the moment
    reached, within its budget of steps. *)
Lemma move_resume (m m' : Moment) (fuel : nat) :
  move m m' →
  length (pending m) + undecided (working m) ≤ fuel →
  ∃ fuel', resume fuel m = resume fuel' m' ∧
           length (pending m') + undecided (working m') ≤ fuel'.
Proof.
  intros Hmove Hfuel.
  destruct Hmove as [b v p ps q Hfree|b v p ps q ws u u' cs Hget Hin Hfilter
                    |b v p ps q ws u Hget Hin Hfilter|b v p' v' q];
    unfold resume; cbn [working removing ahead pending visit_all] in *.
  - exists fuel. split; [|done]. by rewrite visit_past.
  - assert (visit v (b, q) p
            = inr (set b p (Superposition (uniform (u :: u' :: cs))), q)) as Hvisit.
    { unfold visit. by rewrite Hget, bool_decide_true, Hfilter. }
    exists fuel. split; [by rewrite Hvisit|].
    apply visit_measure in Hvisit. lia.
  - assert (visit v (b, q) p = inr (set b p (Fixed u), q ++ [(p, u)])) as Hvisit.
    { unfold visit. by rewrite Hget, bool_decide_true, Hfilter. }
    exists fuel. split; [by rewrite Hvisit|].
    apply visit_measure in Hvisit. lia.
  - destruct fuel as [|fuel]; [simpl in Hfuel; lia|]. exists fuel.
    split; [reflexivity|]. simpl in Hfuel. lia.
Qed.

(** At a moment that empties a peer the engine halts, and names that
    peer. *)
Lemma empties_resume (m : Moment) (p : pos) (fuel : nat) :
  empties m p →
  resume fuel m = inl (PeerEmptied p) ∨ resume fuel m = inl (PeerDuplicate p).
Proof.
  intros (ps & c & Hahead & Hget & Hin & Hall). unfold resume. rewrite Hahead.
  cbn [visit_all]. rewrite (visit_halts _ _ _ _ c) by done.
  destruct c; [by right|by left].
Qed.

(** The engine halts where the moves first empty a candidate set. *)
Lemma run_resume (m m' : Moment) (p : pos) :
  rtc move m m' → empties m' p →
  ∀ fuel, length (pending m) + undecided (working m) ≤ fuel →
          resume fuel m = inl (PeerEmptied p) ∨ resume fuel m = inl (PeerDuplicate p).
Proof.
  intros Hrun Hempty. induction Hrun as [m|m m1 m' Hmove Hrun IH]; intros fuel Hfuel.
  - by apply empties_resume.
  - destruct (move_resume m m1 fuel Hmove Hfuel) as (fuel' & -> & Hfuel').
    by apply IH.
Qed.

(** No move touches a cell that is Fixed. *)
Lemma move_keeps_fixed (m m' : Moment) (t : pos) (v : Z) :
  move m m' → get (working m) t = Some (Fixed v) → get (working m') t = Some (Fixed v).
Proof.
  intros Hmove.
  destruct Hmove as [b w p ps q Hfree|b w p ps q ws u u' cs Hget Hin Hfilter
                    |b w p ps q ws u Hget Hin Hfilter|b w p' v' q]; simpl; try done.
  - intros Ht. rewrite get_set_other; [done|]. intros ->. congruence.
  - intros Ht. rewrite get_set_other; [done|]. intros ->. congruence.
Qed.

Lemma run_keeps_fixed (m m' : Moment) (t : pos) (v : Z) :
  rtc move m m' → get (working m) t = Some (Fixed v) → get (working m') t = Some (Fixed v).
Proof.
  intros Hrun. induction Hrun as [m|m m1 m' Hmove Hrun IH]; [done|].
  intros Ht. apply IH. by eapply move_keeps_fixed.
Qed.

(** The computed moves are moves. *)
Lemma advance_move (m m' : Moment) : advance m = Some m' → move m m'.
Proof.
  destruct m as [b v ps q]. unfold advance. cbn [working removing ahead pending].
  destruct ps as [|p ps].
  - destruct q as [|[p' v'] q]; [done|]. intros [= <-]. constructor.
  - destruct (visit v (b, q) p) as [h|[b' q']] eqn:Hvisit; [done|]. intros [= <-].
    unfold visit in Hvisit. destruct (get b p) as [[w|ws]|] eqn:Hget.
    + case_bool_decide as Hw; [done|]. injection Hvisit as <- <-.
      apply move_past. intros c Hc. rewrite Hget in Hc. injection Hc as <-.
      simpl. intros Hin. apply list_elem_of_singleton in Hin. congruence.
    + case_bool_decide as Hin.
      * destruct (filter (λ u, u ≠ v) ws.*1) as [|u [|u' cs]] eqn:Hfilter; [done| |];
          injection Hvisit as <- <-.
        -- by eapply move_collapse.
        -- by eapply move_restrict.
      * injection Hvisit as <- <-.
        apply move_past. intros c Hc. rewrite Hget in Hc. by injection Hc as <-.
    + injection Hvisit as <- <-. apply move_past. intros c Hc. congruence.
Qed.

Lemma advances_run (n : nat) (m m' : Moment) : advances n m = Some m' → rtc move m m'.
Proof.
  revert m. induction n as [|n IH]; intros m; simpl.
  - by intros [= <-].
  - destruct (advance m) as [m1|] eqn:Hm1; [|done]. intros Hrest.
    eapply rtc_l; [by apply advance_move|by apply IH].
Qed.

(** C2: when an assign operation fixes a cell and the propagation from it
    comes to a peer whose candidate set it empties (the value to remove is
    the peer's only candidate, as a Superposition or, collapsed, as a
    Fixed cell), the engine halts at that peer, the operation fails with
    the Conflict error, and the stored board after it is the stored board
    from before: the working copy, on which the assigned cell is already
    Fixed, is dropped. *)
Theorem conflict_leaves_board_unchanged (s : Store) (req : AssignRequest)
    (ws : list (Z * Q)) (v : Z) (m : Moment) (p : pos) :
  get (stored s) (row req, col req) = Some (Superposition ws) →
  Forall (λ u, u ∈ ws.*1) (candidates req) →
  filter (λ u, u ∈ candidates req) (ws.*1) = [v] →
  rtc move (start (stored s) (row req, col req) v) m →
  empties m p →
  (propagation_of (stored s) (row req) (col req) v = inl (PeerEmptied p) ∨
   propagation_of (stored s) (row req) (col req) v = inl (PeerDuplicate p)) ∧
  (apply s req).2 = inl Conflict ∧
  stored (apply s req).1 = stored s ∧
  get (working m) (row req, col req) = Some (Fixed v) ∧
  get (stored (apply s req).1) (row req, col req) = Some (Superposition ws).
Proof.
  intros Hget Hvalid Hone Hrun Hempty.
  assert (propagation_of (stored s) (row req) (col req) v = inl (PeerEmptied p) ∨
          propagation_of (stored s) (row req) (col req) v = inl (PeerDuplicate p))
    as Hhalt.
  { apply (run_resume _ _ _ Hrun Hempty (S (undecided (set (stored s) (row req, col req)
                                                         (Fixed v))))).
    simpl. lia. }
  assert ((apply s req) = (s, inl Conflict)) as Happly.
  { unfold apply, assign. rewrite Hget, (bool_decide_true _ Hvalid), Hone.
    by destruct Hhalt as [-> | ->]. }
  rewrite Happly. simpl. split_and!; try done.
  eapply run_keeps_fixed; [exact Hrun|]. simpl. by eapply get_set_same.
Qed.

(** No error changes the stored board. *)
Lemma error_leaves_store (s : Store) (req : AssignRequest) (e : Error) :
  (apply s req).2 = inl e → (apply s req).1 = s.
Proof.
  unfold apply. destruct (assign _ _ _ _); [done|discriminate].
Qed.
End EngineFacts.

Lemma conflict_leaves_board_unchanged_witness :
  Engine.get Sample.paired_board (0, 2)
  = Some (Engine.Superposition (Engine.uniform [1; 2; 3; 4; 5; 6; 7; 8; 9]%Z)) ∧
  rtc Engine.move (Engine.start Sample.paired_board (0, 2) 2) Sample.cascade_moment ∧
  Engine.empties Sample.cascade_moment (0, 1) ∧
  Engine.propagation_of Sample.paired_board 0 2 2 = inl (Engine.PeerDuplicate (0, 1)) ∧
  (Engine.apply {| Engine.stored := Sample.paired_board |} Sample.cascade_request).2
    = inl Engine.Conflict ∧
  Engine.stored (Engine.apply {| Engine.stored := Sample.paired_board |}
                   Sample.cascade_request).1 = Sample.paired_board.
Proof.
  assert (rtc Engine.move (Engine.start Sample.paired_board (0, 2) 2)
            Sample.cascade_moment) as Hrun.
  { apply (advances_run 22). vm_compute. reflexivity. }
  assert (Engine.empties Sample.cascade_moment (0, 1)) as Hempty.
  { eexists _, (Engine.Fixed 1). split; [reflexivity|]. split; [reflexivity|].
    split; [simpl; left|]. by apply Forall_singleton. }
  destruct (conflict_leaves_board_unchanged {| Engine.stored := Sample.paired_board |}
              Sample.cascade_request
              (Engine.uniform [1; 2; 3; 4; 5; 6; 7; 8; 9]%Z) 2 Sample.cascade_moment (0, 1)
              eq_refl ltac:(compute_done) eq_refl Hrun Hempty)
    as (Hhalt & Hres & Hstored & _).
  split; [reflexivity|]. split; [exact Hrun|]. split; [exact Hempty|].
  split; [vm_compute; reflexivity|]. split; [exact Hres | exact Hstored].
Defined.

(** The board of the cascade is the one two assignments reach from the
    fresh board. *)
Lemma paired_board_reached :
  foldl (λ s req, (Engine.apply s req).1) {| Engine.stored := Sample.fresh_board |}
        Sample.pairing_requests
  = {| Engine.stored := Sample.paired_board |}.
Proof. vm_compute. reflexivity. Qed.

(** A conflict at a cell still in Superposition: next to a cell whose only
    candidate is 5, assigning 5 halts at that cell and the stored board
    stays. *)
Lemma last_candidate_example :
  Engine.propagation_of Sample.tight_board 0 0 5 = inl (Engine.PeerEmptied (0, 1)) ∧
  Engine.apply {| Engine.stored := Sample.tight_board |} Sample.tight_request
  = ({| Engine.stored := Sample.tight_board |}, inl Engine.Conflict).
Proof. split; vm_compute; reflexivity. Qed.

(** First scenario of section 8 of the specification: next to a cell
    Fixed to 5, assigning 5 is a Conflict and the stored board stays. *)
Lemma duplicate_in_row_example :
  Engine.apply {| Engine.stored := Sample.started_board |} Sample.duplicate_request
  = ({| Engine.stored := Sample.started_board |}, inl Engine.Conflict).
Proof. vm_compute. reflexivity. Qed.

(** Second scenario of section 8: assigning 7 to the cell over 2 and 7
    fixes it, and 7 leaves the candidates of each of its peers. *)
Lemma collapse_example :
  ∃ b, (Engine.apply {| Engine.stored := Sample.narrowed_board |}
          Sample.collapse_request).2 = inr b ∧
       Engine.get b (3, 3) = Some (Engine.Fixed 7) ∧
       Forall (λ p, Engine.get b p
                    = Some (Engine.Superposition
                              (Engine.uniform [1; 2; 3; 4; 5; 6; 8; 9]%Z)))
              (Engine.peers (3, 3)) ∧
       Engine.get b (0, 0) = Engine.get Sample.narrowed_board (0, 0).
Proof.
  eexists. split; [vm_compute; reflexivity|].
  split; [reflexivity|]. split; [|reflexivity].
  vm_compute. repeat constructor.
Qed.

(** ** Facts about double-precision rounding *)

Section DigitsFacts.
Local Open Scope Z_scope.

Lemma digits2_pos_bounds (m : positive) :
  2 ^ (Zpos (digits2_pos m) - 1) ≤ Zpos m < 2 ^ Zpos (digits2_pos m).
Proof.
  induction m as [m IH|m IH|]; simpl digits2_pos.
  - rewrite Pos2Z.inj_succ.
    replace (Z.succ (Zpos (digits2_pos m)) - 1) with (Z.succ (Zpos (digits2_pos m) - 1)) by lia.
    rewrite !Z.pow_succ_r by lia. lia.
  - rewrite Pos2Z.inj_succ.
    replace (Z.succ (Zpos (digits2_pos m)) - 1) with (Z.succ (Zpos (digits2_pos m) - 1)) by lia.
    rewrite !Z.pow_succ_r by lia. lia.
  - simpl. lia.
Qed.

Lemma iter_pos_nat {A} (f : A → A) (p : positive) (x : A) :
  SpecFloat.iter_pos f p x = Nat.iter (Pos.to_nat p) f x.
Proof.
  revert x. induction p as [p IH|p IH|]; intros x; simpl SpecFloat.iter_pos.
  - rewrite !IH, Pos2Nat.inj_xI.
    replace (S (2 * Pos.to_nat p)) with (Pos.to_nat p + S (Pos.to_nat p))%nat by lia.
    rewrite Nat.iter_add, Nat.iter_succ_r. reflexivity.
  - rewrite !IH, Pos2Nat.inj_xO.
    replace (2 * Pos.to_nat p)%nat with (Pos.to_nat p + Pos.to_nat p)%nat by lia.
    rewrite Nat.iter_add. reflexivity.
  - reflexivity.
Qed.

Lemma inject_Z_double (z : Z) : (inject_Z (2 * z) == 2 * inject_Z z)%Q.
Proof. rewrite inject_Z_mult. reflexivity. Qed.

Lemma inject_Z_double_succ (z : Z) : (inject_Z (2 * z + 1) == 2 * inject_Z z + 1)%Q.
Proof. rewrite inject_Z_plus, inject_Z_mult. reflexivity. Qed.

(** One right shift keeps track of where the halved number lies. *)
Lemma shr_1_located (x : Q) (mrs : shr_record) :
  0 ≤ shr_m mrs →
  located x (shr_m mrs) (shr_r mrs) (shr_s mrs) →
  located (x * (1#2)) (shr_m (shr_1 mrs)) (shr_r (shr_1 mrs)) (shr_s (shr_1 mrs)).
Proof.
  destruct mrs as [m r s]. simpl. intros Hm Hloc.
  destruct m as [|p|p]; [| |lia].
  - change (inject_Z 0) with 0%Q in *.
    destruct r, s; simpl in *; change (inject_Z 0) with 0%Q in *; lra.
  - destruct p as [p|p|].
    + pose proof (inject_Z_double_succ (Zpos p)) as E.
      change (2 * Zpos p + 1) with (Zpos p~1) in E.
      destruct r, s; simpl in *; lra.
    + pose proof (inject_Z_double (Zpos p)) as E.
      change (2 * Zpos p) with (Zpos p~0) in E.
      destruct r, s; simpl in *; lra.
    + destruct r, s; simpl in *;
        change (inject_Z 1) with 1%Q in *; change (inject_Z 0) with 0%Q in *; lra.
Qed.

Lemma shr_1_nonneg (mrs : shr_record) : 0 ≤ shr_m mrs → 0 ≤ shr_m (shr_1 mrs).
Proof.
  destruct mrs as [m r s]. simpl. destruct m as [|[p|p|]|p]; simpl; lia.
Qed.

End DigitsFacts.

Section Pow2.
Local Open Scope Q_scope.

Lemma pow2_pos (e : Z) : 0 < pow2 e.
Proof. apply Qpower_0_lt. reflexivity. Qed.

Lemma pow2_add (a b : Z) : pow2 (a + b) == pow2 a * pow2 b.
Proof. apply Qpower_plus. discriminate. Qed.

Lemma pow2_0 : pow2 0 == 1.
Proof. reflexivity. Qed.

Lemma pow2_1 : pow2 1 == 2.
Proof. reflexivity. Qed.

Lemma pow2_succ (a : Z) : pow2 (a + 1) == 2 * pow2 a.
Proof. rewrite pow2_add, pow2_1. ring. Qed.

Lemma pow2_pred (a : Z) : pow2 (a - 1) == (1#2) * pow2 a.
Proof.
  replace a with ((a - 1) + 1)%Z at 2 by lia. rewrite pow2_succ. field.
Qed.

Lemma pow2_opp (a : Z) : pow2 a * pow2 (- a) == 1.
Proof. rewrite <- pow2_add. replace (a + - a)%Z with 0%Z by lia. reflexivity. Qed.

Lemma pow2_le (a b : Z) : (a ≤ b)%Z → pow2 a <= pow2 b.
Proof. intros H. apply Qpower_le_compat_l; [exact H|]. discriminate. Qed.

Lemma pow2_lt (a b : Z) : (a < b)%Z → pow2 a < pow2 b.
Proof. intros H. apply Qpower_lt_compat_l; [exact H|]. reflexivity. Qed.

Lemma pow2_inject (n : Z) : (0 ≤ n)%Z → inject_Z (2 ^ n) == pow2 n.
Proof. intros H. unfold pow2. rewrite Zpower_Qpower by exact H. reflexivity. Qed.

Lemma located_ext (x y : Q) (m : Z) (r s : bool) :
  x == y → located x m r s → located y m r s.
Proof. intros E. destruct r, s; simpl; rewrite E; trivial. Qed.

End Pow2.

Section Shift.
Local Open Scope Z_scope.

(** [n] right shifts keep track of where the number divided by 2^n lies. *)
Lemma iter_shr_1_located (n : nat) (x : Q) (mrs : shr_record) :
  0 ≤ shr_m mrs →
  located x (shr_m mrs) (shr_r mrs) (shr_s mrs) →
  let mrs' := Nat.iter n shr_1 mrs in
  0 ≤ shr_m mrs' ∧
  located (x * pow2 (- Z.of_nat n)) (shr_m mrs') (shr_r mrs') (shr_s mrs').
Proof.
  intros Hm Hloc. induction n as [|n [IHm IH]].
  - simpl. split; [exact Hm|]. eapply located_ext; [|exact Hloc].
    change (pow2 (- Z.of_nat 0)) with 1%Q. ring.
  - cbn [Nat.iter]. split; [by apply shr_1_nonneg|].
    eapply located_ext; [|apply shr_1_located; [exact IHm|exact IH]].
    replace (- Z.of_nat (S n)) with (- Z.of_nat n - 1) by lia.
    rewrite pow2_pred. ring.
Qed.

End Shift.

Section Rounding.
Local Open Scope Q_scope.

Lemma nearest_even_Z (z : Z) : nearest_even (inject_Z z) z.
Proof.
  unfold nearest_even. split; [lra|]. split; [lra|]. intros [H|H]; lra.
Qed.

Lemma nearest_even_ext (x y : Q) (k : Z) : x == y → nearest_even x k → nearest_even y k.
Proof. intros E. unfold nearest_even. rewrite E. trivial. Qed.

Lemma nearest_even_mono (x1 x2 : Q) (k1 k2 : Z) :
  x1 <= x2 → nearest_even x1 k1 → nearest_even x2 k2 → (k1 ≤ k2)%Z.
Proof.
  intros Hx (Hl1 & Hu1 & He1) (Hl2 & Hu2 & He2).
  destruct (Z_le_gt_dec k1 k2) as [|Hgt]; [assumption|exfalso].
  assert (inject_Z (k2 + 1) <= inject_Z k1) as Hk by (rewrite <- Zle_Qle; lia).
  rewrite inject_Z_plus in Hk. change (inject_Z 1) with 1 in Hk.
  assert (x1 == inject_Z k1 - (1#2)) as E1 by lra.
  assert (x2 == inject_Z k2 + (1#2)) as E2 by lra.
  assert (inject_Z k1 == inject_Z (k2 + 1)) as Ek.
  { rewrite inject_Z_plus. change (inject_Z 1) with 1. lra. }
  assert (k1 = k2 + 1)%Z as -> by (unfold Qeq in Ek; simpl in Ek; lia).
  specialize (He1 (or_introl E1)). specialize (He2 (or_intror E2)).
  rewrite Z.add_1_r, Z.even_succ, <- Z.negb_even, He2 in He1. discriminate.
Qed.

Lemma round_nearest_even_spec (x : Q) (m : Z) (r s : bool) :
  located x m r s →
  nearest_even x (round_nearest_even m (loc_of_shr_record (Build_shr_record m r s))).
Proof.
  unfold nearest_even. destruct r, s; simpl; intros H.
  - rewrite inject_Z_plus. change (inject_Z 1) with 1.
    split; [lra|]. split; [lra|]. intros [E|E]; lra.
  - destruct (Z.even m) eqn:Hm.
    + split; [lra|]. split; [lra|]. intros _. exact Hm.
    + rewrite inject_Z_plus. change (inject_Z 1) with 1.
      split; [lra|]. split; [lra|]. intros _.
      rewrite Z.add_1_r, Z.even_succ, <- Z.negb_even, Hm. reflexivity.
  - split; [lra|]. split; [lra|]. intros [E|E]; lra.
  - split; [lra|]. split; [lra|]. intros [E|E]; lra.
Qed.

Lemma scale_pow2 (r : Q) (E c : Z) :
  r * pow2 (- E) * pow2 E == r.
Proof.
  rewrite <- Qmult_assoc, (Qmult_comm (pow2 (- E))), pow2_opp. ring.
Qed.

Lemma scale_lt (r : Q) (E c : Z) : r < pow2 (E + c) → r * pow2 (- E) < pow2 c.
Proof.
  intros H. pose proof (pow2_pos (- E)) as Hp.
  assert (pow2 (E + c) * pow2 (- E) == pow2 c) as Heq.
  { rewrite pow2_add, <- Qmult_assoc, (Qmult_comm (pow2 c)), Qmult_assoc, pow2_opp. ring. }
  rewrite <- Heq. apply Qmult_lt_compat_r; assumption.
Qed.

Lemma scale_le (r : Q) (E c : Z) : pow2 (E + c) <= r → pow2 c <= r * pow2 (- E).
Proof.
  intros H. pose proof (pow2_pos (- E)) as Hp.
  assert (pow2 (E + c) * pow2 (- E) == pow2 c) as Heq.
  { rewrite pow2_add, <- Qmult_assoc, (Qmult_comm (pow2 c)), Qmult_assoc, pow2_opp. ring. }
  rewrite <- Heq. apply Qmult_le_compat_r; [assumption|]. apply Qlt_le_weak, Hp.
Qed.

(** Rounding to nearest is monotone. *)
Lemma rounds_mono (r1 r2 y1 y2 : Q) :
  r1 <= r2 → rounds r1 y1 → rounds r2 y2 → y1 <= y2.
Proof.
  intros Hr (E1 & k1 & Hf1 & Hn1 & Hy1) (E2 & k2 & Hf2 & Hn2 & Hy2).
  rewrite Hy1, Hy2.
  assert (∀ E k1 k2, (k1 ≤ k2)%Z → inject_Z k1 * pow2 E <= inject_Z k2 * pow2 E) as Hsame.
  { intros E a b Hab. apply Qmult_le_compat_r; [by rewrite <- Zle_Qle|].
    apply Qlt_le_weak, pow2_pos. }
  assert (∀ r E k, r < pow2 (E + 53) → nearest_even (r * pow2 (- E)) k →
                   inject_Z k * pow2 E <= pow2 (E + 53)) as Hup.
  { intros r E k Hlt Hn. apply scale_lt in Hlt.
    assert (k ≤ 2 ^ 53)%Z as Hk.
    { eapply (nearest_even_mono _ (inject_Z (2 ^ 53))); [|exact Hn|apply nearest_even_Z].
      rewrite pow2_inject by lia. by apply Qlt_le_weak. }
    rewrite (pow2_add E 53), <- (pow2_inject 53), (Qmult_comm (pow2 E)) by lia.
    apply Qmult_le_compat_r; [by rewrite <- Zle_Qle|]. apply Qlt_le_weak, pow2_pos. }
  assert (∀ r E k, pow2 (E + 52) <= r → nearest_even (r * pow2 (- E)) k →
                   pow2 (E + 52) <= inject_Z k * pow2 E) as Hlow.
  { intros r E k Hle Hn. apply scale_le in Hle.
    assert (2 ^ 52 ≤ k)%Z as Hk.
    { eapply (nearest_even_mono (inject_Z (2 ^ 52))); [|apply nearest_even_Z|exact Hn].
      by rewrite pow2_inject by lia. }
    rewrite (pow2_add E 52), <- (pow2_inject 52), (Qmult_comm (pow2 E)) by lia.
    apply Qmult_le_compat_r; [by rewrite <- Zle_Qle|]. apply Qlt_le_weak, pow2_pos. }
  assert (∀ r1 r2 E, r1 <= r2 → r1 * pow2 (- E) <= r2 * pow2 (- E)) as Hscale.
  { intros a b E Hab. apply Qmult_le_compat_r; [exact Hab|]. apply Qlt_le_weak, pow2_pos. }
  destruct (Z.lt_trichotomy E1 E2) as [Hlt|[->|Hgt]].
  - (* the grid of r1 is finer: y1 stays below the binade of r2 *)
    assert (r1 < pow2 (E1 + 53)) as Hr1 by (destruct Hf1 as [[-> ?]|(_ & _ & ?)]; assumption).
    assert (pow2 (E2 + 52) <= r2) as Hr2.
    { destruct Hf2 as [[-> _]|(_ & ? & _)]; [|assumption].
      destruct Hf1 as [[-> _]|[? _]]; unfold emin64 in *; lia. }
    eapply Qle_trans; [by eapply Hup|].
    eapply Qle_trans; [|by eapply Hlow].
    apply pow2_le. lia.
  - apply Hsame. eapply nearest_even_mono; [|exact Hn1|exact Hn2]. by apply Hscale.
  - (* impossible: r1 would lie in a higher binade than r2 *)
    exfalso.
    assert (r2 < pow2 (E2 + 53)) as Hr2 by (destruct Hf2 as [[-> ?]|(_ & _ & ?)]; assumption).
    assert (pow2 (E1 + 52) <= r1) as Hr1.
    { destruct Hf1 as [[-> _]|(_ & ? & _)]; [|assumption].
      destruct Hf2 as [[-> _]|[? _]]; unfold emin64 in *; lia. }
    assert (pow2 (E2 + 53) <= pow2 (E1 + 52)) by (apply pow2_le; lia).
    lra.
Qed.

End Rounding.

Section RoundAux.
Local Open Scope Z_scope.

Lemma fexp64 (x : Z) : fexp 53 1024 x = Z.max (x - 53) emin64.
Proof. reflexivity. Qed.

Lemma shr_located (mrs : shr_record) (e n : Z) (x : Q) :
  0 ≤ shr_m mrs →
  located x (shr_m mrs) (shr_r mrs) (shr_s mrs) →
  let res := shr mrs e n in
  res.2 = e + Z.max n 0 ∧
  0 ≤ shr_m res.1 ∧
  located (x * pow2 (- Z.max n 0)) (shr_m res.1) (shr_r res.1) (shr_s res.1).
Proof.
  intros Hm Hloc. unfold shr. destruct n as [|p|p]; cbn [fst snd].
  - rewrite Z.add_0_r. split; [reflexivity|]. split; [exact Hm|].
    eapply located_ext; [|exact Hloc]. change (pow2 (- Z.max 0 0)) with 1%Q. ring.
  - rewrite iter_pos_nat. replace (Z.max (Zpos p) 0) with (Z.of_nat (Pos.to_nat p))
      by (rewrite positive_nat_Z; lia).
    split; [rewrite positive_nat_Z; reflexivity|].
    by apply iter_shr_1_located.
  - replace (Z.max (Zneg p) 0) with 0 by lia. rewrite Z.add_0_r.
    split; [reflexivity|]. split; [exact Hm|].
    eapply located_ext; [|exact Hloc]. change (pow2 (- 0)) with 1%Q. ring.
Qed.

Lemma Zdigits2_bounds (m : Z) :
  0 < m → 2 ^ (Zdigits2 m - 1) ≤ m < 2 ^ Zdigits2 m.
Proof.
  destruct m as [|p|p]; [lia| |lia]. intros _. apply digits2_pos_bounds.
Qed.

Lemma Zdigits2_pos (m : Z) : 0 < m → 0 < Zdigits2 m.
Proof. destruct m; simpl; lia. Qed.

Lemma Zdigits2_unique (m d : Z) :
  0 < d → 2 ^ (d - 1) ≤ m < 2 ^ d → Zdigits2 m = d.
Proof.
  intros Hd [Hl Hu].
  assert (0 < m) as Hm by (pose proof (Z.pow_pos_nonneg 2 (d - 1)); lia).
  pose proof (Zdigits2_bounds m Hm) as [Hl' Hu'].
  pose proof (Zdigits2_pos m Hm) as Hp.
  destruct (Z.lt_trichotomy (Zdigits2 m) d) as [Hlt|[Heq|Hgt]]; [|exact Heq|].
  - assert (2 ^ Zdigits2 m ≤ 2 ^ (d - 1)) by (apply Z.pow_le_mono_r; lia). lia.
  - assert (2 ^ d ≤ 2 ^ (Zdigits2 m - 1)) by (apply Z.pow_le_mono_r; lia). lia.
Qed.

Lemma Zdigits2_le (m d : Z) : 0 ≤ d → 0 ≤ m < 2 ^ d → Zdigits2 m ≤ d.
Proof.
  intros Hd [Hl Hu]. destruct (Z.eq_dec m 0) as [->|Hne]; [simpl; lia|].
  pose proof (Zdigits2_bounds m ltac:(lia)) as [Hl' Hu'].
  pose proof (Zdigits2_pos m ltac:(lia)) as Hp.
  destruct (Z_le_gt_dec (Zdigits2 m) d) as [|Hgt]; [assumption|].
  assert (2 ^ d ≤ 2 ^ (Zdigits2 m - 1)) by (apply Z.pow_le_mono_r; lia). lia.
Qed.

(** After rounding, the mantissa fits the grid or is 2^53, which one more
    shift renormalises without loss. *)
Lemma renormalise (k e' : Z) :
  (e' = emin64 ∧ 0 ≤ k ≤ 2 ^ 53) ∨ (emin64 < e' ∧ 2 ^ 52 ≤ k ≤ 2 ^ 53) →
  let res := shr_fexp 53 1024 k e' loc_Exact in
  0 ≤ shr_m res.1 ∧ e' ≤ res.2 ≤ e' + 1 ∧
  (inject_Z (shr_m res.1) * pow2 res.2 == inject_Z k * pow2 e')%Q.
Proof.
  intros Hk. unfold shr_fexp. rewrite fexp64. cbn [shr_record_of_loc].
  destruct (Z.eq_dec k (2 ^ 53)) as [->|Hne].
  - change (Zdigits2 (2 ^ 53)) with 54.
    replace (Z.max (54 + e' - 53) emin64 - e') with 1 by (unfold emin64 in *; lia).
    change (2 ^ 53) with 9007199254740992. cbn. split; [lia|]. split; [lia|].
    rewrite pow2_succ. change (inject_Z 4503599627370496) with (inject_Z (2 ^ 52)).
    change (inject_Z 9007199254740992) with (inject_Z (2 ^ 53)).
    rewrite !pow2_inject by lia.
    change (pow2 53) with (pow2 (52 + 1)). rewrite (pow2_succ 52). ring.
  - assert (Z.max (Zdigits2 k + e' - 53) emin64 - e' ≤ 0) as Hn.
    { destruct Hk as [[-> Hk]|[He Hk]].
      + pose proof (Zdigits2_le k 53 ltac:(lia) ltac:(lia)). unfold emin64. lia.
      + rewrite (Zdigits2_unique k 53) by lia. unfold emin64 in *. lia. }
    assert (0 ≤ k) as Hk0 by (destruct Hk as [[_ ?]|[_ ?]]; lia).
    unfold shr. destruct (Z.max _ _ - e') as [|p|p] eqn:En; [| lia |];
      cbn [fst snd shr_m]; (split; [lia|]); (split; [lia|]); reflexivity.
Qed.

End RoundAux.

Section RoundAux2.
Local Open Scope Q_scope.

Lemma located_bounds (x : Q) (m : Z) (r s : bool) :
  located x m r s → inject_Z m <= x ∧ x < inject_Z m + 1.
Proof. destruct r, s; simpl; intros H; lra. Qed.

Lemma unscale_lt (r : Q) (E c : Z) : r * pow2 (- E) < pow2 c → r < pow2 (E + c).
Proof.
  intros H. destruct (Qlt_le_dec r (pow2 (E + c))) as [|Hle]; [assumption|].
  apply scale_le in Hle. lra.
Qed.

Lemma unscale_le (r : Q) (E c : Z) : pow2 c <= r * pow2 (- E) → pow2 (E + c) <= r.
Proof.
  intros H. destruct (Qlt_le_dec r (pow2 (E + c))) as [Hlt|]; [|assumption].
  apply scale_lt in Hlt. lra.
Qed.

Lemma rescale (r : Q) (a b : Z) : r * pow2 (- a) * pow2 (- b) == r * pow2 (- (a + b)).
Proof.
  replace (- (a + b))%Z with (- a + - b)%Z by lia. rewrite pow2_add. ring.
Qed.

Lemma format_exp_of_digits (m e : Z) (r : Q) :
  (0 < m)%Z →
  inject_Z m <= r * pow2 (- e) → r * pow2 (- e) < inject_Z m + 1 →
  format_exp r (fexp 53 1024 (Zdigits2 m + e)).
Proof.
  intros Hm Hl Hu. pose proof (Zdigits2_bounds m Hm) as [Hdl Hdu].
  pose proof (Zdigits2_pos m Hm) as Hd.
  assert (pow2 (e + (Zdigits2 m - 1)) <= r) as Hlow.
  { apply unscale_le. rewrite <- (pow2_inject (Zdigits2 m - 1)) by lia.
    eapply Qle_trans; [|exact Hl]. by rewrite <- Zle_Qle. }
  assert (r < pow2 (e + Zdigits2 m)) as Hup.
  { apply unscale_lt. rewrite <- (pow2_inject (Zdigits2 m)) by lia.
    eapply Qlt_le_trans; [exact Hu|].
    change 1 with (inject_Z 1). rewrite <- inject_Z_plus, <- Zle_Qle. lia. }
  rewrite fexp64. unfold format_exp.
  destruct (Z_le_gt_dec (Zdigits2 m + e - 53) emin64) as [Hsub|Hnorm].
  - left. split; [lia|]. eapply Qlt_le_trans; [exact Hup|]. apply pow2_le. lia.
  - right. replace (Z.max (Zdigits2 m + e - 53) emin64) with (Zdigits2 m + e - 53)%Z by lia.
    split; [lia|]. split.
    + eapply Qle_trans; [|exact Hlow]. apply pow2_le. lia.
    + eapply Qlt_le_trans; [exact Hup|]. apply pow2_le. lia.
Qed.

Lemma pow2_lt_inv (a b : Z) : pow2 a < pow2 b → (a < b)%Z.
Proof.
  intros H. destruct (Z_lt_le_dec a b) as [|Hle]; [assumption|].
  apply pow2_le in Hle. lra.
Qed.

(** The second half of [binary_round_aux]: from the rounded mantissa to
    the float. *)
Lemma round_aux_tail (r : Q) (E k : Z) :
  0 <= r → r < pow2 10 →
  format_exp r E → nearest_even (r * pow2 (- E)) k →
  let res := shr_fexp 53 1024 k E loc_Exact in
  let z := match shr_m res.1 with
           | Z0 => S754_zero false
           | Zpos m => if (res.2 <=? 1024 - 53)%Z then S754_finite false m res.2
                       else S754_infinity false
           | Zneg _ => S754_nan
           end in
  nonneg_finite z ∧ rounds r (B2Q z).
Proof.
  intros Hr0 Hr10 Hf Hn.
  assert (0 ≤ k)%Z as Hk0.
  { eapply (nearest_even_mono 0 _ 0); [|apply (nearest_even_Z 0)|exact Hn].
    apply Qmult_le_0_compat; [exact Hr0|]. apply Qlt_le_weak, pow2_pos. }
  assert (k ≤ 2 ^ 53)%Z as Hk53.
  { eapply (nearest_even_mono _ (inject_Z (2 ^ 53))); [|exact Hn|apply nearest_even_Z].
    rewrite (pow2_inject 53) by lia. apply Qlt_le_weak, scale_lt.
    destruct Hf as [[-> ?]|(_ & _ & ?)]; assumption. }
  assert ((E = emin64 ∧ (0 ≤ k ≤ 2 ^ 53)%Z) ∨ ((emin64 < E)%Z ∧ (2 ^ 52 ≤ k ≤ 2 ^ 53)%Z)) as Hk.
  { destruct Hf as [[-> _]|(HE & Hlow & _)]; [left; lia|right].
    split; [exact HE|]. split; [|exact Hk53].
    eapply (nearest_even_mono (inject_Z (2 ^ 52))); [|apply nearest_even_Z|exact Hn].
    rewrite (pow2_inject 52) by lia. by apply scale_le. }
  assert (E < -42)%Z as HE.
  { destruct Hf as [[-> _]|(_ & Hlow & _)]; [unfold emin64; lia|].
    assert (pow2 (E + 52) < pow2 10) as Hlt by lra. apply pow2_lt_inv in Hlt. lia. }
  pose proof (renormalise k E Hk) as (Hm & He & Hval).
  intros res z. subst res z.
  destruct (shr_fexp 53 1024 k E loc_Exact) as [mrs e'']. cbn [fst snd] in *.
  destruct (shr_m mrs) as [|p|p] eqn:Hp; [| |lia].
  - split; [exact I|]. exists E, k. split; [exact Hf|]. split; [exact Hn|].
    simpl. rewrite <- Hval. change (inject_Z 0) with 0. ring.
  - replace (e'' <=? 1024 - 53)%Z with true by (symmetry; apply Z.leb_le; lia).
    split; [exact I|]. exists E, k. split; [exact Hf|]. split; [exact Hn|].
    simpl. exact Hval.
Qed.

(** [binary_round_aux] on a nonnegative number [r] handed over as a
    truncated mantissa with the position of the remainder: the result is
    [r] rounded to nearest. *)
Lemma round_aux_rounds (m e : Z) (loc : location) (r : Q) :
  (0 ≤ m)%Z →
  located (r * pow2 (- e)) m (shr_r (shr_record_of_loc m loc))
          (shr_s (shr_record_of_loc m loc)) →
  (m = 0%Z → (e ≤ emin64)%Z) →
  ((0 < m)%Z → loc = loc_Exact ∨ (e ≤ fexp 53 1024 (Zdigits2 m + e))%Z) →
  r < pow2 10 →
  nonneg_finite (binary_round_aux 53 1024 false m e loc) ∧
  rounds r (B2Q (binary_round_aux 53 1024 false m e loc)).
Proof.
  intros Hm Hloc Hzero Hprec Hr10.
  pose proof (located_bounds _ _ _ _ Hloc) as [Hxl Hxu].
  assert (0 <= r) as Hr0.
  { assert (0 <= r * pow2 (- e)) as Hx.
    { eapply Qle_trans; [|exact Hxl]. change 0 with (inject_Z 0). by rewrite <- Zle_Qle. }
    pose proof (pow2_pos (- e)) as Hp.
    destruct (Qlt_le_dec r 0) as [Hneg|]; [|assumption].
    exfalso. assert (r * pow2 (- e) < 0 * pow2 (- e)) by (apply Qmult_lt_compat_r; assumption).
    lra. }
  unfold binary_round_aux.
  set (n := (fexp 53 1024 (Zdigits2 m + e) - e)%Z).
  assert (shr_m (shr_record_of_loc m loc) = m) as Hsm by (destruct loc as [|[]]; reflexivity).
  pose proof (shr_located (shr_record_of_loc m loc) e n (r * pow2 (- e))) as Hshr.
  rewrite Hsm in Hshr. specialize (Hshr Hm Hloc). cbv zeta in Hshr.
  change (shr (shr_record_of_loc m loc) e n) with (shr_fexp 53 1024 m e loc) in Hshr.
  destruct (shr_fexp 53 1024 m e loc) as [mrs' e'] eqn:Hfirst. cbn [fst snd] in Hshr.
  destruct Hshr as (He' & Hm' & Hloc').
  destruct mrs' as [m' r' s']. cbn [shr_m shr_r shr_s] in *.
  apply round_nearest_even_spec in Hloc'.
  set (k := round_nearest_even m' (loc_of_shr_record (Build_shr_record m' r' s'))) in *.
  destruct (Z_le_gt_dec 0%Z n) as [Hn|Hn].
  - (* the mantissa was cut down to the grid, or lay on it *)
    replace (Z.max n 0%Z) with n in * by lia.
    assert (e' = fexp 53 1024 (Zdigits2 m + e)) as HE by (subst n; lia).
    assert (nearest_even (r * pow2 (- e')) k) as Hk.
    { eapply nearest_even_ext; [|exact Hloc']. rewrite rescale. f_equiv. f_equiv. lia. }
    assert (format_exp r e') as Hf.
    { destruct (Z.eq_dec m 0%Z) as [->|Hne].
      - specialize (Hzero eq_refl). left. change (inject_Z 0) with 0 in *.
        assert (e' = emin64) as -> by (rewrite HE, fexp64; simpl; unfold emin64 in *; lia).
        split; [reflexivity|].
        assert (r < pow2 (e + 0)) as Hlt by (apply unscale_lt; change (pow2 0) with 1; lra).
        eapply Qlt_le_trans; [exact Hlt|]. apply pow2_le. unfold emin64 in *. lia.
      - rewrite HE. apply format_exp_of_digits; [lia|assumption..]. }
    pose proof (round_aux_tail r e' k Hr0 Hr10 Hf Hk) as Htail. cbv zeta in Htail.
    destruct (shr_fexp 53 1024 k e' loc_Exact) as [mrs'' e'']. exact Htail.
  - (* nothing to cut: the number is exact and has spare digits *)
    assert (0 < m)%Z as Hmpos.
    { destruct (Z.eq_dec m 0%Z) as [->|]; [|lia]. specialize (Hzero eq_refl).
      subst n. rewrite fexp64 in Hn. simpl in Hn. unfold emin64 in *. lia. }
    destruct (Hprec Hmpos) as [->|Hle]; [|subst n; lia].
    assert (e' = e) as -> by lia.
    unfold shr_fexp, shr in Hfirst. fold n in Hfirst.
    destruct n as [|p|p] eqn:En; [lia|lia|]. injection Hfirst as <- <- <-.
    subst k. cbn [loc_of_shr_record round_nearest_even].
    unfold shr_fexp, shr. fold n. rewrite En. cbn [shr_record_of_loc shr_m].
    destruct m as [|p'|p']; [lia| |lia].
    assert (r == inject_Z (Zpos p') * pow2 e) as Hr.
    { simpl in Hloc. rewrite <- (scale_pow2 r e 0), Hloc. reflexivity. }
    assert (e < 10)%Z as He10.
    { apply pow2_lt_inv. eapply Qle_lt_trans; [|exact Hr10]. rewrite Hr.
      rewrite <- (Qmult_1_l (pow2 e)) at 1.
      apply Qmult_le_compat_r; [|apply Qlt_le_weak, pow2_pos].
      change 1 with (inject_Z 1). rewrite <- Zle_Qle. lia. }
    replace (e <=? 1024 - 53)%Z with true by (symmetry; apply Z.leb_le; lia).
    split; [exact I|].
    set (E := fexp 53 1024 (Zdigits2 (Zpos p') + e)).
    assert (E < e)%Z as HEe by (subst E n; lia).
    exists E, (Zpos p' * 2 ^ (e - E))%Z.
    assert (inject_Z (Zpos p' * 2 ^ (e - E)) == r * pow2 (- E)) as Hscaled.
    { rewrite inject_Z_mult, pow2_inject, Hr by lia.
      replace (e - E)%Z with (e + - E)%Z by lia. rewrite pow2_add. ring. }
    split; [|split].
    + apply format_exp_of_digits; [lia| |]; rewrite Hr, <- Qmult_assoc, pow2_opp; lra.
    + eapply nearest_even_ext; [exact Hscaled|]. apply nearest_even_Z.
    + simpl. rewrite Hscaled, scale_pow2, Hr; [reflexivity|exact 0%Z].
Qed.

End RoundAux2.

Section Operations.
Local Open Scope Q_scope.

Lemma rounds_zero : rounds 0 0.
Proof.
  exists emin64, 0%Z. split; [|split].
  - left. split; [reflexivity|]. apply pow2_pos.
  - eapply nearest_even_ext; [|apply (nearest_even_Z 0)]. change (inject_Z 0) with 0. ring.
  - change (inject_Z 0) with 0. ring.
Qed.

Lemma rounds_ext (r r' y y' : Q) : r == r' → y == y' → rounds r y → rounds r' y'.
Proof.
  intros Er Ey (E & k & Hf & Hn & Hy). exists E, k. split; [|split].
  - unfold format_exp in *. rewrite <- Er. exact Hf.
  - eapply nearest_even_ext; [|exact Hn]. by rewrite Er.
  - by rewrite <- Ey.
Qed.

Lemma Pos_iter_xO (m d : positive) :
  Zpos (Pos.iter xO m d) = (Zpos m * 2 ^ Zpos d)%Z.
Proof.
  rewrite Pos2Nat.inj_iter, <- (positive_nat_Z d).
  induction (Pos.to_nat d) as [|n IH]; [simpl; lia|].
  rewrite Nat2Z.inj_succ, Z.pow_succ_r by lia. cbn [nat_rect].
  rewrite Pos2Z.inj_xO, IH. lia.
Qed.

Lemma shl_align_value (m : positive) (e e' : Z) :
  let res := shl_align m e e' in
  (res.2 ≤ e)%Z ∧ (e' < e → res.2 = e')%Z ∧ (e ≤ e' → res.2 = e)%Z ∧
  inject_Z (Zpos res.1) * pow2 res.2 == inject_Z (Zpos m) * pow2 e.
Proof.
  unfold shl_align. destruct (e' - e)%Z as [|d|d] eqn:Hd; cbn [fst snd].
  - split; [lia|]. split; [lia|]. split; [lia|]. reflexivity.
  - split; [lia|]. split; [lia|]. split; [lia|]. reflexivity.
  - split; [lia|]. split; [lia|]. split; [lia|].
    rewrite Pos_iter_xO, inject_Z_mult, (pow2_inject (Zpos d)) by lia.
    replace e with (Zpos d + e')%Z by lia. rewrite pow2_add. ring.
Qed.

(** [binary_normalize] on a nonnegative integer mantissa rounds the
    number it stands for. *)
Lemma binary_normalize_rounds (m e : Z) :
  (0 ≤ m)%Z → inject_Z m * pow2 e < pow2 10 →
  nonneg_finite (binary_normalize 53 1024 m e false) ∧
  rounds (inject_Z m * pow2 e) (B2Q (binary_normalize 53 1024 m e false)).
Proof.
  intros Hm Hr. destruct m as [|p|p]; [| |lia].
  - simpl. split; [exact I|]. eapply rounds_ext; [| reflexivity |exact rounds_zero].
    change (inject_Z 0) with 0. ring.
  - cbn [binary_normalize]. unfold binary_round.
    pose proof (shl_align_value p e (fexp 53 1024 (Zpos (digits2_pos p) + e))) as Hal.
    cbv zeta in Hal. destruct (shl_align p e _) as [mz ez]. cbn [fst snd] in Hal.
    destruct Hal as (_ & _ & _ & Hval).
    rewrite <- Hval in Hr.
    destruct (round_aux_rounds (Zpos mz) ez loc_Exact (inject_Z (Zpos mz) * pow2 ez))
      as [Hfin Hrnd]; [lia| |intros [=]|by left|exact Hr|].
    + simpl. rewrite <- Qmult_assoc, pow2_opp. ring.
    + split; [exact Hfin|]. eapply rounds_ext; [exact Hval|reflexivity|exact Hrnd].
Qed.

Lemma located_exact (x : Q) (m : Z) : x == inject_Z m → located x m false false.
Proof. intros H. exact H. Qed.

(** Multiplication of positive numbers. *)
Lemma SFmul_rounds (mx my : positive) (ex ey : Z) :
  let x := S754_finite false mx ex in
  let y := S754_finite false my ey in
  B2Q x * B2Q y < pow2 10 →
  nonneg_finite (SFmul 53 1024 x y) ∧
  rounds (B2Q x * B2Q y) (B2Q (SFmul 53 1024 x y)).
Proof.
  intros x y Hr. subst x y. cbn [SFmul xorb B2Q cond_Zopp] in *.
  assert (inject_Z (Zpos mx) * pow2 ex * (inject_Z (Zpos my) * pow2 ey)
          == inject_Z (Zpos (mx * my)) * pow2 (ex + ey)) as Hval.
  { rewrite Pos2Z.inj_mul, inject_Z_mult, pow2_add. ring. }
  rewrite Hval in Hr.
  destruct (round_aux_rounds (Zpos (mx * my)) (ex + ey) loc_Exact
              (inject_Z (Zpos (mx * my)) * pow2 (ex + ey))) as [Hfin Hrnd];
    [lia| |intros [=]|by left|exact Hr|].
  - simpl. rewrite <- Qmult_assoc, pow2_opp. ring.
  - split; [exact Hfin|]. eapply rounds_ext; [|reflexivity|exact Hrnd]. by rewrite Hval.
Qed.

(** Subtraction of a positive number from one that is not smaller. *)
Lemma SFsub_rounds (mx my : positive) (ex ey : Z) :
  let x := S754_finite false mx ex in
  let y := S754_finite false my ey in
  B2Q y <= B2Q x → B2Q x < pow2 10 →
  nonneg_finite (SFsub 53 1024 x y) ∧
  rounds (B2Q x - B2Q y) (B2Q (SFsub 53 1024 x y)).
Proof.
  intros x y Hle Hr. subst x y. cbn [SFsub B2Q cond_Zopp] in *.
  set (ez := Z.min ex ey).
  pose proof (shl_align_value mx ex ez) as Hx. pose proof (shl_align_value my ey ez) as Hy.
  cbv zeta in Hx, Hy.
  destruct (shl_align mx ex ez) as [ax ex']. destruct (shl_align my ey ez) as [ay ey'].
  cbn [fst snd] in *.
  destruct Hx as (_ & Hx1 & Hx2 & Hxv). destruct Hy as (_ & Hy1 & Hy2 & Hyv).
  assert (ex' = ez) as -> by (subst ez; lia). assert (ey' = ez) as -> by (subst ez; lia).
  assert (inject_Z (Zpos ax - Zpos ay) * pow2 ez
          == inject_Z (Zpos mx) * pow2 ex - inject_Z (Zpos my) * pow2 ey) as Hval.
  { rewrite <- Hxv, <- Hyv. unfold Z.sub. rewrite inject_Z_plus, inject_Z_opp. ring. }
  assert (0 ≤ Zpos ax - Zpos ay)%Z as Hpos.
  { rewrite <- Hxv, <- Hyv in Hle. pose proof (pow2_pos ez) as Hp.
    destruct (Z_le_gt_dec (Zpos ay) (Zpos ax)) as [|Hgt]; [lia|exfalso].
    assert (inject_Z (Zpos ax) < inject_Z (Zpos ay)) as Hlt by (rewrite <- Zlt_Qlt; lia).
    assert (inject_Z (Zpos ax) * pow2 ez < inject_Z (Zpos ay) * pow2 ez)
      by (apply Qmult_lt_compat_r; assumption).
    lra. }
  destruct (binary_normalize_rounds (Zpos ax - Zpos ay) ez Hpos) as [Hfin Hrnd].
  { rewrite Hval. pose proof (pow2_pos ey) as Hp.
    assert (0 <= inject_Z (Zpos my) * pow2 ey).
    { apply Qmult_le_0_compat; [|lra]. change 0 with (inject_Z 0). rewrite <- Zle_Qle. lia. }
    lra. }
  split; [exact Hfin|]. eapply rounds_ext; [exact Hval|reflexivity|exact Hrnd].
Qed.

End Operations.

Section Division.
Local Open Scope Q_scope.

(** The quotient and the position of the remainder, as [SFdiv] hands them
    to the rounding. *)
Lemma located_of_remainder (M q rem : Z) (x : Q) :
  (0 < M)%Z → (0 ≤ rem < M)%Z →
  x * inject_Z M == inject_Z (M * q + rem) →
  located x q (shr_r (shr_record_of_loc q (new_location M rem)))
            (shr_s (shr_record_of_loc q (new_location M rem))).
Proof.
  intros HM [Hr0 HrM] Hx.
  rewrite inject_Z_plus, inject_Z_mult in Hx.
  assert (0 < inject_Z M) as HMq by (change 0 with (inject_Z 0); rewrite <- Zlt_Qlt; lia).
  assert (0 <= inject_Z rem) as Hrq by (change 0 with (inject_Z 0); rewrite <- Zle_Qle; lia).
  assert (inject_Z rem < inject_Z M) as HrMq by (rewrite <- Zlt_Qlt; lia).
  destruct (Z.eq_dec rem 0%Z) as [->|Hne].
  - assert (new_location M 0 = loc_Exact) as ->.
    { unfold new_location, new_location_even, new_location_odd.
      destruct (Z.even M); reflexivity. }
    simpl. change (inject_Z 0) with 0 in Hx. nra.
  - assert (∃ c, new_location M rem = loc_Inexact c ∧
                 match c with
                 | Lt => (2 * rem < M)%Z
                 | Eq => (2 * rem = M)%Z
                 | Gt => (M < 2 * rem)%Z
                 end) as (c & -> & Hc).
    { unfold new_location. destruct (Z.even M) eqn:Hev;
        unfold new_location_even, new_location_odd;
        rewrite (proj2 (Z.eqb_neq rem 0) Hne).
      - exists (2 * rem ?= M)%Z. split; [reflexivity|].
        destruct (Z.compare_spec (2 * rem) M); lia.
      - assert (Z.odd M = true) as Hodd by (rewrite <- Z.negb_even, Hev; reflexivity).
        apply Z.odd_spec in Hodd as [h Hh].
        destruct (Z.compare_spec (2 * rem + 1) M) as [Heq|Hlt|Hgt].
        + exists Lt. split; [reflexivity|lia].
        + exists Lt. split; [reflexivity|lia].
        + exists Gt. split; [reflexivity|lia]. }
    destruct c; simpl.
    + assert (2 * inject_Z rem == inject_Z M) as Hc'.
      { rewrite <- Hc, inject_Z_mult. reflexivity. }
      nra.
    + assert (2 * inject_Z rem < inject_Z M) as Hc'.
      { change 2 with (inject_Z 2). rewrite <- inject_Z_mult, <- Zlt_Qlt. lia. }
      assert (0 < inject_Z rem) by (change 0 with (inject_Z 0); rewrite <- Zlt_Qlt; lia).
      split; nra.
    + assert (inject_Z M < 2 * inject_Z rem) as Hc'.
      { change 2 with (inject_Z 2). rewrite <- inject_Z_mult, <- Zlt_Qlt. lia. }
      split; nra.
Qed.

Lemma fexp64_mono (a b : Z) : (a ≤ b)%Z → (fexp 53 1024 a ≤ fexp 53 1024 b)%Z.
Proof. intros H. rewrite !fexp64. lia. Qed.

(** The mantissa [SFdiv] computes has digits enough for the rounding. *)
Lemma SFdiv_core_precise (m1 m2 : positive) (e1 e2 : Z) :
  let core := SFdiv_core_binary 53 1024 (Zpos m1) e1 (Zpos m2) e2 in
  let q := core.1.1 in
  let e' := core.1.2 in
  ∃ s rem,
    (0 ≤ s)%Z ∧ (e' = e1 - e2 - s)%Z ∧
    (Zpos m1 * 2 ^ s = Zpos m2 * q + rem)%Z ∧ (0 ≤ rem < Zpos m2)%Z ∧
    core.2 = new_location (Zpos m2) rem ∧
    (0 ≤ q)%Z ∧
    (q = 0%Z → (e' ≤ emin64)%Z) ∧
    ((0 < q)%Z → (e' ≤ fexp 53 1024 (Zdigits2 q + e'))%Z).
Proof.
  unfold SFdiv_core_binary.
  set (d1 := Zdigits2 (Zpos m1)). set (d2 := Zdigits2 (Zpos m2)).
  set (L := (d1 + e1 - (d2 + e2))%Z).
  set (e' := Z.min (fexp 53 1024 L) (e1 - e2)).
  set (s := (e1 - e2 - e')%Z).
  assert (0 ≤ s)%Z as Hs by (subst s e'; lia).
  set (m' := match s with Zpos _ => Z.shiftl (Zpos m1) s | Z0 => Zpos m1 | Zneg _ => Z0 end).
  assert (m' = Zpos m1 * 2 ^ s)%Z as Hm'.
  { subst m'. destruct s as [|p|p] eqn:Es; [simpl; lia| |lia].
    rewrite Z.shiftl_mul_pow2 by lia. reflexivity. }
  pose proof (Z.div_eucl_eq m' (Zpos m2) ltac:(lia)) as Hdiv.
  pose proof (Z.mod_pos_bound m' (Zpos m2) ltac:(lia)) as Hmod.
  unfold Z.modulo in Hmod.
  assert (0 ≤ m' / Zpos m2)%Z as Hq0 by (apply Z.div_pos; subst; lia || (rewrite Hm'; lia)).
  unfold Z.div in Hq0.
  destruct (Z.div_eucl m' (Zpos m2)) as [q rem] eqn:Hde. cbn [fst snd].
  exists s, rem. split; [exact Hs|]. split; [subst s; lia|]. split; [lia|].
  split; [exact Hmod|]. split; [reflexivity|]. split; [exact Hq0|].
  pose proof (Zdigits2_bounds (Zpos m1) ltac:(lia)) as [Hl1 Hu1].
  pose proof (Zdigits2_bounds (Zpos m2) ltac:(lia)) as [Hl2 Hu2].
  pose proof (Zdigits2_pos (Zpos m1) ltac:(lia)) as Hd1.
  pose proof (Zdigits2_pos (Zpos m2) ltac:(lia)) as Hd2.
  fold d1 in Hl1, Hu1, Hd1. fold d2 in Hl2, Hu2, Hd2.
  assert (2 ^ (d1 - 1 + s) ≤ m')%Z as Hlow.
  { rewrite Hm', Z.pow_add_r by lia. apply Z.mul_le_mono_nonneg_r; [|exact Hl1].
    apply Z.pow_nonneg. lia. }
  assert (e' ≤ fexp 53 1024 L)%Z as HeL by (subst e'; lia).
  assert (L - e' = d1 - d2 + s)%Z as Ht by (subst L s; lia).
  split.
  - intros ->. assert (m' < Zpos m2)%Z as Hsmall by lia.
    assert (2 ^ (d1 - 1 + s) < 2 ^ d2)%Z as Hpow by lia.
    apply Z.pow_lt_mono_r_iff in Hpow; [|lia|lia].
    rewrite fexp64 in HeL. unfold emin64 in *. lia.
  - intros Hq. eapply Z.le_trans; [exact HeL|]. apply fexp64_mono.
    pose proof (Zdigits2_bounds q Hq) as [Hlq Huq].
    pose proof (Zdigits2_pos q Hq) as Hdq.
    destruct (Z_le_gt_dec (d1 - d2 + s) 1) as [|Hbig]; [lia|].
    assert (2 ^ (d1 - d2 + s - 1) ≤ q)%Z as Hqlow.
    { assert (Zpos m2 * 2 ^ (d1 - d2 + s - 1) ≤ m')%Z as Hprod.
      { eapply Z.le_trans; [|exact Hlow].
        replace (d1 - 1 + s)%Z with (d2 + (d1 - d2 + s - 1))%Z by lia.
        rewrite Z.pow_add_r by lia. apply Z.mul_le_mono_nonneg_r; [|lia].
        apply Z.pow_nonneg. lia. }
      assert (2 ^ (d1 - d2 + s - 1) ≤ m' / Zpos m2)%Z as Hdivlow
        by (apply Z.div_le_lower_bound; lia).
      unfold Z.div in Hdivlow. rewrite Hde in Hdivlow. exact Hdivlow. }
    assert (2 ^ (d1 - d2 + s - 1) < 2 ^ Zdigits2 q)%Z as Hpow by lia.
    apply Z.pow_lt_mono_r_iff in Hpow; lia.
Qed.

(** Division of positive numbers. *)
Lemma SFdiv_rounds (mx my : positive) (ex ey : Z) :
  let x := S754_finite false mx ex in
  let y := S754_finite false my ey in
  B2Q x / B2Q y < pow2 10 →
  nonneg_finite (SFdiv 53 1024 x y) ∧
  rounds (B2Q x / B2Q y) (B2Q (SFdiv 53 1024 x y)).
Proof.
  intros x y Hr. subst x y. cbn [SFdiv xorb B2Q cond_Zopp] in *.
  pose proof (SFdiv_core_precise mx my ex ey) as Hcore. cbv zeta in Hcore.
  destruct (SFdiv_core_binary 53 1024 (Zpos mx) ex (Zpos my) ey) as [[q e'] loc].
  cbn [fst snd] in Hcore.
  destruct Hcore as (s & rem & Hs & He' & Hdiv & Hrem & -> & Hq0 & Hzero & Hprec).
  set (r := inject_Z (Zpos mx) * pow2 ex / (inject_Z (Zpos my) * pow2 ey)) in *.
  apply round_aux_rounds; [exact Hq0| |exact Hzero| |exact Hr].
  - apply located_of_remainder; [lia|exact Hrem|].
    rewrite <- Hdiv, inject_Z_mult, (pow2_inject s) by lia.
    subst r. replace ex with (ey + e' + s)%Z by lia.
    rewrite !pow2_add.
    pose proof (pow2_pos ey) as Hp1. pose proof (pow2_opp e') as Hp2.
    assert (0 < inject_Z (Zpos my)) as Hmy
      by (change 0 with (inject_Z 0); rewrite <- Zlt_Qlt; lia).
    transitivity (inject_Z (Zpos mx) * pow2 s * (pow2 e' * pow2 (- e'))).
    + field. split; lra.
    + rewrite Hp2. ring.
  - intros Hq. right. by apply Hprec.
Qed.

End Division.

(** ** Facts about the colour of a probability *)

Section ColorFacts.
Import Color.
Local Open Scope Q_scope.

Lemma nonneg_finite_B2Q (z : spec_float) : nonneg_finite z → 0 <= B2Q z.
Proof.
  destruct z as [s|s| |[] m e]; simpl; intros H; try lra; try contradiction.
  apply Qmult_le_0_compat; [|apply Qlt_le_weak, pow2_pos].
  change 0 with (inject_Z 0). rewrite <- Zle_Qle. lia.
Qed.

(** A number with 53 binary digits above the subnormal range rounds to
    itself. *)
Lemma rounds_normal (m E : Z) :
  (2 ^ 52 ≤ m < 2 ^ 53)%Z → (emin64 < E)%Z →
  rounds (inject_Z m * pow2 E) (inject_Z m * pow2 E).
Proof.
  intros [Hl Hu] HE. exists E, m. split; [|split; [|reflexivity]].
  - right. split; [exact HE|]. split.
    + rewrite (Z.add_comm E 52), pow2_add, <- (pow2_inject 52) by lia.
      apply Qmult_le_compat_r; [by rewrite <- Zle_Qle|apply Qlt_le_weak, pow2_pos].
    + rewrite (Z.add_comm E 53), pow2_add, <- (pow2_inject 53) by lia.
      apply Qmult_lt_compat_r; [apply pow2_pos|by rewrite <- Zlt_Qlt].
  - eapply nearest_even_ext; [|apply nearest_even_Z].
    rewrite <- Qmult_assoc, pow2_opp. ring.
Qed.

Lemma rounds_1 : rounds 1 1.
Proof.
  eapply rounds_ext; [| |apply (rounds_normal (2 ^ 52) (-52))];
    [reflexivity|reflexivity|lia|unfold emin64; lia].
Qed.

Lemma rounds_255 : rounds 255 255.
Proof.
  eapply rounds_ext; [| |apply (rounds_normal (255 * 2 ^ 45) (-45))];
    [reflexivity|reflexivity|lia|unfold emin64; lia].
Qed.

Lemma pow2_10 : pow2 10 == 1024.
Proof. reflexivity. Qed.

(** [probability / 100]. *)
Lemma normalizedProb_rounds (p : spec_float) :
  percentage p →
  let n := SFdiv 53 1024 p (literal 100) in
  nonneg_finite n ∧ rounds (B2Q p * (1#100)) (B2Q n).
Proof.
  intros [Hfin Hle]. pose proof (nonneg_finite_B2Q p Hfin) as H0.
  destruct p as [s|s| |[] m e]; try contradiction.
  - simpl. split; [exact I|]. eapply rounds_ext; [|reflexivity|exact rounds_zero]. ring.
  - change (literal 100) with (S754_finite false 7036874417766400 (-46)).
    assert (B2Q (S754_finite false 7036874417766400 (-46)) == 100) as Hc by reflexivity.
    assert (B2Q (S754_finite false m e) / B2Q (S754_finite false 7036874417766400 (-46))
            == B2Q (S754_finite false m e) * (1#100)) as Hq.
    { rewrite Hc. unfold Qdiv. reflexivity. }
    destruct (SFdiv_rounds m 7036874417766400 e (-46)) as [Hf Hr].
    + cbv zeta. rewrite Hq, pow2_10. lra.
    + cbv zeta in Hf, Hr. split; [exact Hf|].
      eapply rounds_ext; [exact Hq|reflexivity|exact Hr].
Qed.

(** [1 - normalizedProb]. *)
Lemma complement_rounds (x : spec_float) :
  nonneg_finite x → B2Q x <= 1 →
  let c := SFsub 53 1024 (literal 1) x in
  nonneg_finite c ∧ rounds (1 - B2Q x) (B2Q c).
Proof.
  intros Hfin Hle.
  change (literal 1) with (S754_finite false 4503599627370496 (-52)).
  assert (B2Q (S754_finite false 4503599627370496 (-52)) == 1) as Hc by reflexivity.
  destruct x as [s|s| |[] m e]; try contradiction.
  - cbn [SFsub]. split; [exact I|].
    eapply rounds_ext; [|symmetry; exact Hc|exact rounds_1]. simpl. ring.
  - destruct (SFsub_rounds 4503599627370496 m (-52) e) as [Hf Hr].
    + cbv zeta. rewrite Hc. exact Hle.
    + cbv zeta. rewrite Hc, pow2_10. lra.
    + cbv zeta in Hf, Hr. split; [exact Hf|].
      eapply rounds_ext; [|reflexivity|exact Hr]. rewrite Hc. reflexivity.
Qed.

(** [255 * (1 - normalizedProb)]. *)
Lemma scaled_rounds (y : spec_float) :
  nonneg_finite y → B2Q y <= 1 →
  let v := SFmul 53 1024 (literal 255) y in
  nonneg_finite v ∧ rounds (255 * B2Q y) (B2Q v).
Proof.
  intros Hfin Hle. pose proof (nonneg_finite_B2Q y Hfin) as H0.
  change (literal 255) with (S754_finite false 8972014882652160 (-45)).
  assert (B2Q (S754_finite false 8972014882652160 (-45)) == 255) as Hc by reflexivity.
  destruct y as [s|s| |[] m e]; try contradiction.
  - cbn [SFmul]. split; [exact I|].
    eapply rounds_ext; [|reflexivity|exact rounds_zero]. simpl. ring.
  - destruct (SFmul_rounds 8972014882652160 m (-45) e) as [Hf Hr].
    + cbv zeta. rewrite Hc, pow2_10. lra.
    + cbv zeta in Hf, Hr. split; [exact Hf|].
      eapply rounds_ext; [|reflexivity|exact Hr]. rewrite Hc. reflexivity.
Qed.

(** The value rounded by [Math.round] for a probability: a double between
    0 and 255 that does not grow with the probability. *)
Lemma scaled_value (p : spec_float) :
  percentage p →
  let v := SFmul 53 1024 (literal 255)
             (SFsub 53 1024 (literal 1) (SFdiv 53 1024 p (literal 100))) in
  nonneg_finite v ∧ 0 <= B2Q v ∧ B2Q v <= 255.
Proof.
  intros Hp. pose proof Hp as [Hfin Hle]. pose proof (nonneg_finite_B2Q p Hfin) as H0.
  destruct (normalizedProb_rounds p Hp) as [Hf1 Hr1]. cbv zeta in Hf1, Hr1.
  assert (B2Q (SFdiv 53 1024 p (literal 100)) <= 1) as Hn1.
  { eapply rounds_mono; [|exact Hr1|exact rounds_1]. lra. }
  destruct (complement_rounds _ Hf1 Hn1) as [Hf2 Hr2]. cbv zeta in Hf2, Hr2.
  assert (B2Q (SFsub 53 1024 (literal 1) (SFdiv 53 1024 p (literal 100))) <= 1) as Hn2.
  { eapply rounds_mono; [|exact Hr2|exact rounds_1].
    pose proof (nonneg_finite_B2Q _ Hf1). lra. }
  destruct (scaled_rounds _ Hf2 Hn2) as [Hf3 Hr3]. cbv zeta in Hf3, Hr3.
  cbv zeta. split; [exact Hf3|]. split; [by apply nonneg_finite_B2Q|].
  eapply rounds_mono; [|exact Hr3|exact rounds_255]. lra.
Qed.

Lemma scaled_value_mono (p q : spec_float) :
  percentage p → percentage q → B2Q p <= B2Q q →
  B2Q (SFmul 53 1024 (literal 255)
         (SFsub 53 1024 (literal 1) (SFdiv 53 1024 q (literal 100))))
  <= B2Q (SFmul 53 1024 (literal 255)
            (SFsub 53 1024 (literal 1) (SFdiv 53 1024 p (literal 100)))).
Proof.
  intros Hp Hq Hpq.
  destruct (normalizedProb_rounds p Hp) as [Hfp1 Hrp1].
  destruct (normalizedProb_rounds q Hq) as [Hfq1 Hrq1]. cbv zeta in *.
  assert (B2Q (SFdiv 53 1024 p (literal 100)) <= B2Q (SFdiv 53 1024 q (literal 100))) as H1.
  { eapply rounds_mono; [|exact Hrp1|exact Hrq1]. lra. }
  assert (B2Q (SFdiv 53 1024 q (literal 100)) <= 1) as Hq1.
  { eapply rounds_mono; [|exact Hrq1|exact rounds_1]. destruct Hq. lra. }
  assert (B2Q (SFdiv 53 1024 p (literal 100)) <= 1) as Hp1 by lra.
  destruct (complement_rounds _ Hfp1 Hp1) as [Hfp2 Hrp2].
  destruct (complement_rounds _ Hfq1 Hq1) as [Hfq2 Hrq2]. cbv zeta in *.
  assert (B2Q (SFsub 53 1024 (literal 1) (SFdiv 53 1024 q (literal 100)))
          <= B2Q (SFsub 53 1024 (literal 1) (SFdiv 53 1024 p (literal 100)))) as H2.
  { eapply rounds_mono; [|exact Hrq2|exact Hrp2]. lra. }
  assert (B2Q (SFsub 53 1024 (literal 1) (SFdiv 53 1024 p (literal 100))) <= 1) as Hp2.
  { eapply rounds_mono; [|exact Hrp2|exact rounds_1].
    pose proof (nonneg_finite_B2Q _ Hfp1). lra. }
  assert (B2Q (SFsub 53 1024 (literal 1) (SFdiv 53 1024 q (literal 100))) <= 1) as Hq2 by lra.
  destruct (scaled_rounds _ Hfp2 Hp2) as [_ Hrp3].
  destruct (scaled_rounds _ Hfq2 Hq2) as [_ Hrq3]. cbv zeta in *.
  eapply rounds_mono; [|exact Hrq3|exact Hrp3]. lra.
Qed.

Lemma Math_round_nonneg_finite (v : spec_float) :
  nonneg_finite v → Math_round v = Integer (Qfloor (B2Q v + (1#2))).
Proof. destruct v as [s|s| |[] m e]; simpl; intros H; try contradiction; reflexivity. Qed.

(** Rounding to nearest moves a number below 2^c by at most half a unit
    in the last place of that range. *)
Lemma rounds_error (r y : Q) (c : Z) :
  rounds r y → r <= pow2 c → (emin64 + 52 ≤ c)%Z →
  - pow2 (c - 53) <= y - r ∧ y - r <= pow2 (c - 53).
Proof.
  intros (E & k & Hfmt & (Hlo & Hhi & _) & Hy) Hr Hc.
  assert (E ≤ c - 52)%Z as HE.
  { destruct Hfmt as [[-> _]|(_ & Hle & _)]; [lia|].
    destruct (Z_le_gt_dec (E + 52) c) as [|Hgt]; [lia|].
    assert (pow2 c < pow2 (E + 52)) by (apply pow2_lt; lia). lra. }
  assert (pow2 (E - 1) <= pow2 (c - 53)) as Hbound by (apply pow2_le; lia).
  assert (pow2 (E - 1) == (1#2) * pow2 E) as Hhalf by apply pow2_pred.
  pose proof (pow2_pos E) as HposE.
  assert (r == r * pow2 (- E) * pow2 E) as Hscale.
  { rewrite <- Qmult_assoc, (Qmult_comm (pow2 (- E))), pow2_opp. ring. }
  set (x := r * pow2 (- E)) in *.
  assert (y - r == (inject_Z k - x) * pow2 E) as Hdiff.
  { rewrite Hy. rewrite Hscale at 1. ring. }
  assert ((- (1#2)) * pow2 E <= (inject_Z k - x) * pow2 E) as H1.
  { apply Qmult_le_compat_r; lra. }
  assert ((inject_Z k - x) * pow2 E <= (1#2) * pow2 E) as H2.
  { apply Qmult_le_compat_r; lra. }
  rewrite Hdiff. split; lra.
Qed.

(** The double that [Math.round] receives is within 10^-12 of the exact
    255 * (1 - p / 100). *)
Lemma scaled_value_error (p : spec_float) :
  percentage p →
  let v := B2Q (SFmul 53 1024 (literal 255)
                  (SFsub 53 1024 (literal 1) (SFdiv 53 1024 p (literal 100)))) in
  255 * (1 - B2Q p / 100) - gradient_slack <= v ∧
  v <= 255 * (1 - B2Q p / 100) + gradient_slack.
Proof.
  intros Hp. pose proof Hp as [Hfin Hle]. pose proof (nonneg_finite_B2Q p Hfin) as H0.
  destruct (normalizedProb_rounds p Hp) as [Hf1 Hr1]. cbv zeta in Hf1, Hr1.
  assert (B2Q (SFdiv 53 1024 p (literal 100)) <= 1) as Hn1.
  { eapply rounds_mono; [|exact Hr1|exact rounds_1]. lra. }
  destruct (complement_rounds _ Hf1 Hn1) as [Hf2 Hr2]. cbv zeta in Hf2, Hr2.
  pose proof (nonneg_finite_B2Q _ Hf1) as Hn0.
  assert (B2Q (SFsub 53 1024 (literal 1) (SFdiv 53 1024 p (literal 100))) <= 1) as Hn2.
  { eapply rounds_mono; [|exact Hr2|exact rounds_1]. lra. }
  destruct (scaled_rounds _ Hf2 Hn2) as [Hf3 Hr3]. cbv zeta in Hf3, Hr3.
  pose proof (nonneg_finite_B2Q _ Hf2) as Hc0.
  assert (pow2 0 == 1) as P0 by reflexivity.
  assert (pow2 8 == 256) as P8 by reflexivity.
  assert (pow2 (0 - 53) == 1 # 9007199254740992) as P53 by reflexivity.
  assert (pow2 (8 - 53) == 1 # 35184372088832) as P45 by reflexivity.
  destruct (rounds_error _ _ 0 Hr1) as [E1 E1']; [lra|unfold emin64; lia|].
  destruct (rounds_error _ _ 0 Hr2) as [E2 E2']; [lra|unfold emin64; lia|].
  destruct (rounds_error _ _ 8 Hr3) as [E3 E3']; [lra|unfold emin64; lia|].
  cbv zeta. unfold gradient_slack.
  set (a := B2Q (SFdiv 53 1024 p (literal 100))) in *.
  set (b := B2Q (SFsub 53 1024 (literal 1) (SFdiv 53 1024 p (literal 100)))) in *.
  set (v := B2Q (SFmul 53 1024 (literal 255)
                   (SFsub 53 1024 (literal 1) (SFdiv 53 1024 p (literal 100))))) in *.
  assert (B2Q p / 100 == B2Q p * (1#100)) as -> by (unfold Qdiv; reflexivity).
  split; lra.
Qed.

(** C6: for every probability p from 0 to 100, [getProbabilityColor]
    yields rgb(r, 255, r) with r an integer from 0 to 255.  The code
    computes 255 * (1 - p / 100) in double precision, so r is the
    specification's round(255 * (1 - p / 100)) up to the error of that
    computation: r lies between the rounding of the exact value less
    10^-12 and the rounding of the exact value plus 10^-12, and so is
    the rounding of the exact value whenever these two agree.
    Probability 0 gives white, rgb(255, 255, 255), probability 100 gives
    green, rgb(0, 255, 0); and the red and blue channels do not grow when
    p grows. *)
Theorem getProbabilityColor_gradient :
  (∀ p, percentage p →
     ∃ r, getProbabilityColor p
            = {| red := Integer r; green := Integer 255; blue := Integer r |} ∧
          (0 ≤ r ≤ 255)%Z ∧
          (round_half_up (255 * (1 - B2Q p / 100) - gradient_slack) ≤ r)%Z ∧
          (r ≤ round_half_up (255 * (1 - B2Q p / 100) + gradient_slack))%Z ∧
          (round_half_up (255 * (1 - B2Q p / 100) - gradient_slack)
           = round_half_up (255 * (1 - B2Q p / 100) + gradient_slack) →
           r = exact_gradient (B2Q p))) ∧
  getProbabilityColor (literal 0)
    = {| red := Integer 255; green := Integer 255; blue := Integer 255 |} ∧
  getProbabilityColor (literal 100)
    = {| red := Integer 0; green := Integer 255; blue := Integer 0 |} ∧
  (∀ p q, percentage p → percentage q → B2Q p <= B2Q q →
     ∃ rp rq,
       getProbabilityColor p
         = {| red := Integer rp; green := Integer 255; blue := Integer rp |} ∧
       getProbabilityColor q
         = {| red := Integer rq; green := Integer 255; blue := Integer rq |} ∧
       (rq ≤ rp)%Z).
Proof.
  assert (∀ p, percentage p →
            getProbabilityColor p
            = let r := Qfloor (B2Q (SFmul 53 1024 (literal 255)
                                      (SFsub 53 1024 (literal 1)
                                         (SFdiv 53 1024 p (literal 100)))) + (1#2)) in
              {| red := Integer r; green := Integer 255; blue := Integer r |})
    as Hcolor.
  { intros p Hp. destruct (scaled_value p Hp) as (Hfin & _). cbv zeta in *.
    unfold getProbabilityColor. by rewrite Math_round_nonneg_finite. }
  split; [|split; [|split]].
  - intros p Hp. destruct (scaled_value p Hp) as (Hfin & H0 & H255).
    destruct (scaled_value_error p Hp) as [Hlo Hhi]. cbv zeta in *.
    set (v := B2Q (SFmul 53 1024 (literal 255)
                     (SFsub 53 1024 (literal 1) (SFdiv 53 1024 p (literal 100))))) in *.
    assert (round_half_up (255 * (1 - B2Q p / 100) - gradient_slack)
            ≤ Qfloor (v + (1#2)))%Z as Hbelow.
    { apply Qfloor_resp_le. lra. }
    assert (Qfloor (v + (1#2))
            ≤ round_half_up (255 * (1 - B2Q p / 100) + gradient_slack))%Z as Habove.
    { apply Qfloor_resp_le. lra. }
    assert (round_half_up (255 * (1 - B2Q p / 100) - gradient_slack)
            ≤ exact_gradient (B2Q p))%Z as Hbelow'.
    { apply Qfloor_resp_le. unfold gradient_slack. lra. }
    assert (exact_gradient (B2Q p)
            ≤ round_half_up (255 * (1 - B2Q p / 100) + gradient_slack))%Z as Habove'.
    { apply Qfloor_resp_le. unfold gradient_slack. lra. }
    exists (Qfloor (v + (1#2))). split; [by apply Hcolor|]. split; [|split; [|split]].
    + split.
      * apply (Qfloor_resp_le 0). lra.
      * apply (Qfloor_resp_le _ (255 + (1#2))). lra.
    + exact Hbelow.
    + exact Habove.
    + intros Heq. lia.
  - vm_compute. reflexivity.
  - vm_compute. reflexivity.
  - intros p q Hp Hq Hpq.
    pose proof (scaled_value_mono p q Hp Hq Hpq) as Hmono. cbv zeta in Hmono.
    eexists _, _. split; [by apply Hcolor|]. split; [by apply Hcolor|].
    apply Qfloor_resp_le. lra.
Qed.

End ColorFacts.

(** C6 fails as stated: at probability 90 the exact 255 * (1 - 90 / 100)
    is 25.5, which rounds to 26, while the double the code computes lies
    just below 25.5 and [Math.round] gives 25. *)
Lemma exact_gradient_counterexample :
  Color.percentage (Color.literal 90) ∧
  (B2Q (Color.literal 90) == 90)%Q ∧
  Color.exact_gradient (B2Q (Color.literal 90)) = 26%Z ∧
  Color.getProbabilityColor (Color.literal 90)
  = {| Color.red := Color.Integer 25; Color.green := Color.Integer 255;
       Color.blue := Color.Integer 25 |} ∧
  ¬ (∀ p, Color.percentage p →
       Color.getProbabilityColor p
       = {| Color.red := Color.Integer (Color.exact_gradient (B2Q p));
            Color.green := Color.Integer 255;
            Color.blue := Color.Integer (Color.exact_gradient (B2Q p)) |}).
Proof.
  assert (Color.percentage (Color.literal 90)) as Hp.
  { split; [exact I|]. vm_compute. discriminate. }
  split; [exact Hp|]. split; [reflexivity|]. split; [vm_compute; reflexivity|].
  split; [vm_compute; reflexivity|].
  intros Hall. specialize (Hall _ Hp). vm_compute in Hall. discriminate Hall.
Qed.


(** The colours of a few probabilities.  At 90 the double 90 / 100 lies
    above nine tenths, so that 255 * (1 - 90 / 100) comes out just below
    25.5 and [Math.round] gives 25. *)
Lemma getProbabilityColor_examples :
  Color.getProbabilityColor (Color.literal 50)
  = {| Color.red := Color.Integer 128; Color.green := Color.Integer 255;
       Color.blue := Color.Integer 128 |} ∧
  Color.getProbabilityColor (Color.literal 90)
  = {| Color.red := Color.Integer 25; Color.green := Color.Integer 255;
       Color.blue := Color.Integer 25 |} ∧
  Color.getProbabilityColor (Color.literal 25)
  = {| Color.red := Color.Integer 191; Color.green := Color.Integer 255;
       Color.blue := Color.Integer 191 |}.
Proof. repeat split; vm_compute; reflexivity. Qed.

(** ** More facts about the handlers of App *)

Section RequestFacts.
Import App.
Context {number : Type} `{EqDecision number}.
Variable Number : string → number.
Variable numberToString : number → string.

Ltac run :=
  repeat progress unfold exec, handleNumberSelection, handleNumberSelection_start, handleAssign,
    handleDifficultyChange, handleCellClick,
    assignCellValues, assignCellValues_start, assignCellValues_resume, resumePending,
    resetBoard, fetchBoard, fetchBoard_start, fetchBoard_resume, cellAt, Object_keys,
    setBoard, setMessage, setLoading, setDifficulty, setSelectedNumbers,
    setSelectedCell, modifyApp, alert, console_error, fetch, getState,
    getSelectedNumbers, throw, mbind, M_bind, mret, M_ret in *; simpl in *.

(** X1: loading the board: one GET /board, whatever state the page is in.
    The answer's body becomes the board; a failed request leaves the
    board, shows its error and logs it.  Either way [loading] ends false
    and the selection, the difficulty and the alerts are untouched. *)
Theorem fetchBoard_outcome (srv : Server number) (w : World number) :
  let get : Request number :=
    {| url := "http://localhost:8000/board"; method := "GET";
       headers := []; body := None |} in
  let w' := exec fetchBoard srv w in
  sent w' = sent w ++ [get] ∧
  loading (app w') = false ∧
  selectedCell (app w') = selectedCell (app w) ∧
  difficulty (app w') = difficulty (app w) ∧
  selectedNumbers w' = selectedNumbers w ∧
  alerts w' = alerts w ∧
  match board_endpoint srv (sent w) get with
  | Resolves data =>
      board (app w') = data ∧
      message (app w') = Some "Board loaded. Click on a cell to start playing!" ∧
      console w' = console w
  | Rejects e =>
      board (app w') = board (app w) ∧
      message (app w') = Some ("Error loading board: " +:+ e) ∧
      console w' = console w ++ ["Error fetching board:"]
  end.
Proof.
  destruct w as [[b sc msg ld df] sn st al co]. run.
  destruct (board_endpoint _ _ _) as [e|data]; simpl; done.
Qed.

(** X2: an assignment always ends with [loading] false, and touches neither
    the selected cell, nor the difficulty, nor the panel's selection. *)
Theorem assignCellValues_clears_loading (row col : nat) (candidates : list number)
    (srv : Server number) (w : World number) :
  let w' := exec (assignCellValues row col candidates) srv w in
  loading (app w') = false ∧
  selectedCell (app w') = selectedCell (app w) ∧
  difficulty (app w') = difficulty (app w) ∧
  selectedNumbers w' = selectedNumbers w ∧
  alerts w' = alerts w.
Proof.
  destruct w as [[b sc msg ld df] sn st al co]. run.
  destruct (assign_endpoint _ _ _) as [e|data]; simpl; [done|].
  destruct (ToBoolean (assign_success data)); done.
Qed.

(** X3: an assignment that does not succeed: the request fails, or its
    answer has no truthy [success] (false, or absent as in an HTTP error
    body).  The board stays, and the message is "Error assigning values: "
    followed by the error's message, respectively the answer's [detail];
    only a failed request is logged. *)
Theorem assign_failure_handling (row col : nat) (candidates : list number)
    (srv : Server number) (w : World number) :
  let reply := assign_endpoint srv (sent w) (assignRequest row col candidates) in
  let w' := exec (assignCellValues row col candidates) srv w in
  match reply with
  | Resolves data => ToBoolean (assign_success data) = false
  | Rejects _ => True
  end →
  board (app w') = board (app w) ∧
  message (app w') =
    Some ("Error assigning values: "
          +:+ match reply with
              | Resolves data => ToString (assign_detail data)
              | Rejects e => e
              end) ∧
  console w' =
    console w ++ match reply with
                 | Resolves _ => []
                 | Rejects _ => ["Error assigning values:"]
                 end.
Proof.
  destruct w as [[b sc msg ld df] sn st al co]. run.
  destruct (assign_endpoint _ _ _) as [e|data]; simpl.
  - done.
  - intros ->. simpl. by rewrite app_nil_r.
Qed.

(** X4: a reset that does not succeed leaves the page loading: [loading],
    set when the request went out, is never set back.  Nothing more is
    requested; the board and the difficulty stay; the message is "Error
    resetting board: " followed by the error's message, respectively the
    answer's [message]. *)
Theorem reset_failure_keeps_loading (arg : option string)
    (srv : Server number) (w : World number) :
  let newDifficulty := default (difficulty (app w)) arg in
  let req : Request number :=
    {| url := "http://localhost:8000/reset?difficulty=" +:+ newDifficulty;
       method := "POST"; headers := []; body := None |} in
  let reply := reset_endpoint srv (sent w) req in
  let w' := exec (resetBoard arg) srv w in
  match reply with
  | Resolves data => ToBoolean (reset_success data) = false
  | Rejects _ => True
  end →
  loading (app w') = true ∧
  sent w' = sent w ++ [req] ∧
  board (app w') = board (app w) ∧
  difficulty (app w') = difficulty (app w) ∧
  message (app w') =
    Some ("Error resetting board: "
          +:+ match reply with
              | Resolves data => ToString (reset_message data)
              | Rejects e => e
              end).
Proof.
  destruct w as [[b sc msg ld df] sn st al co]. run.
  destruct (reset_endpoint _ _ _) as [e|data]; simpl.
  - done.
  - intros ->. done.
Qed.

(** X5: a reset that succeeds ends in the state the board load ends in: the
    message is the load's (the words "Board reset to ..." are set before
    the load settles and do not last), [loading] is false, the difficulty
    is the chosen one, and the selected cell and the panel's selection
    are those from before the reset. *)
Theorem reset_success_outcome (arg : option string)
    (srv : Server number) (w : World number) (data : ResetData) :
  let newDifficulty := default (difficulty (app w)) arg in
  let req : Request number :=
    {| url := "http://localhost:8000/reset?difficulty=" +:+ newDifficulty;
       method := "POST"; headers := []; body := None |} in
  let get : Request number :=
    {| url := "http://localhost:8000/board"; method := "GET";
       headers := []; body := None |} in
  let w' := exec (resetBoard arg) srv w in
  reset_endpoint srv (sent w) req = Resolves data →
  ToBoolean (reset_success data) = true →
  loading (app w') = false ∧
  difficulty (app w') = newDifficulty ∧
  selectedCell (app w') = selectedCell (app w) ∧
  selectedNumbers w' = selectedNumbers w ∧
  match board_endpoint srv (sent w ++ [req]) get with
  | Resolves loaded =>
      board (app w') = loaded ∧
      message (app w') = Some "Board loaded. Click on a cell to start playing!"
  | Rejects e =>
      board (app w') = board (app w) ∧
      message (app w') = Some ("Error loading board: " +:+ e)
  end.
Proof.
  destruct w as [[b sc msg ld df] sn st al co]. run.
  intros -> ->. simpl.
  destruct (board_endpoint _ _ _) as [e|loaded]; simpl; done.
Qed.

(** X6: a click on a cell selects it and does nothing else to the state but
    set the message: no request, no change of board, loading, difficulty
    or of the numbers selected in the panel.  Where the board has no such
    cell the message stays too. *)
Theorem handleCellClick_selects (row col : nat)
    (srv : Server number) (w : World number) :
  let w' := exec (handleCellClick Number numberToString row col) srv w in
  selectedCell (app w') = Some (row, col) ∧
  sent w' = sent w ∧
  board (app w') = board (app w) ∧
  loading (app w') = loading (app w) ∧
  difficulty (app w') = difficulty (app w) ∧
  selectedNumbers w' = selectedNumbers w ∧
  alerts w' = alerts w ∧
  (lookupCell (board (app w)) row col = None → message (app w') = message (app w)).
Proof.
  destruct w as [[b sc msg ld df] sn st al co]. run.
  destruct (lookupCell b row col) as [cell|]; simpl; [|done].
  destruct (value cell); simpl; [done|].
  destruct (possibilities cell); simpl; done.
Qed.

End RequestFacts.

(** ** Sorting with any comparator that follows an order *)

Section SortOrder.
Context {A : Type}.
Variable comparefn : A → A → jsnum.
Variable R : A → A → Prop.
Hypothesis R_trans : ∀ x y z, R x y → R y z → R x z.
Hypothesis compare_le : ∀ x y, (SortCompare comparefn x y ≤ 0)%Z → R x y.
Hypothesis compare_gt : ∀ x y, (0 < SortCompare comparefn x y)%Z → R y x.

Lemma insert_ordered (x : A) (l : list A) :
  StronglySorted R l → StronglySorted R (insert comparefn x l).
Proof.
  intros Hs. induction Hs as [|y rest Hrest IH Hy]; simpl.
  - repeat constructor.
  - destruct (Z.leb_spec (SortCompare comparefn x y) 0) as [Hle|Hgt].
    + constructor; [by constructor|].
      constructor; [by apply compare_le|].
      eapply Forall_impl; [exact Hy|]. simpl. intros z Hz.
      eapply R_trans; [|exact Hz]. by apply compare_le.
    + constructor; [exact IH|].
      rewrite insert_Permutation. constructor; [by apply compare_gt|exact Hy].
Qed.

Lemma sort_ordered (l : list A) : StronglySorted R (sort comparefn l).
Proof.
  induction l as [|x rest IH]; simpl; [constructor|]. by apply insert_ordered.
Qed.
End SortOrder.

(** The comparison of [sort()] without comparator follows the order of
    the elements' string forms. *)
Lemma defaultCompare_le {A} (toString : A → string) (x y : A) :
  (SortCompare (defaultCompare toString) x y ≤ 0)%Z →
  (toString x ≤ toString y)%string.
Proof.
  unfold SortCompare, defaultCompare, String.le, String.leb.
  destruct (String.compare (toString x) (toString y)); simpl; [done|done|lia].
Qed.

Lemma defaultCompare_gt {A} (toString : A → string) (x y : A) :
  (0 < SortCompare (defaultCompare toString) x y)%Z →
  (toString y ≤ toString x)%string.
Proof.
  unfold SortCompare, defaultCompare, String.le, String.leb.
  rewrite (String.compare_antisym (toString y) (toString x)).
  destruct (String.compare (toString x) (toString y)); simpl; [lia|lia|done].
Qed.

Section ClickFacts.
Import App.
Context {number : Type} `{EqDecision number}.
Variable Number : string → number.
Variable numberToString : number → string.

(** X7: a click on a cell in superposition shows its candidates in the
    message: the numbers of the cell's keys, each once per key, in the
    order of their string forms (the order of [sort()] without a
    comparator). *)
Theorem handleCellClick_lists_candidates (row col : nat)
    (srv : Server number) (w : World number)
    (cell : Cell number) (entries : list (string * number)) :
  lookupCell (board (app w)) row col = Some cell →
  value cell = None →
  possibilities cell = Some entries →
  ∃ shown,
    message (app (exec (handleCellClick Number numberToString row col) srv w))
    = Some ("Cell (" +:+ pretty row +:+ ", " +:+ pretty col
            +:+ ") - Select numbers from: "
            +:+ join ", " (numberToString <$> shown)) ∧
    shown ≡ₚ Number <$> entries.*1 ∧
    StronglySorted (λ a b, (numberToString a ≤ numberToString b)%string) shown.
Proof.
  destruct w as [[b sc msg ld df] sn st al co]; simpl.
  intros Hcell Hv Hp.
  exists (sort (defaultCompare numberToString) (Number <$> entries.*1)).
  split_and!.
  - unfold exec, handleCellClick, getState, setSelectedCell, setMessage, modifyApp,
      Object_keys, mbind, M_bind, mret, M_ret. simpl.
    rewrite Hcell. simpl. rewrite Hv, Hp. reflexivity.
  - apply sort_Permutation.
  - apply sort_ordered.
    + intros x y z. apply (transitivity (R := String.le)).
    + apply defaultCompare_le.
    + apply defaultCompare_gt.
Qed.

(** X8: choosing the difficulty the game already has does nothing at all,
    from the handler in App and from the panel's button in front of it;
    any other choice is a reset with that difficulty.  Without a
    difficulty handler the panel resets in either case. *)
Theorem handleDifficultyChange_current (newDifficulty : string)
    (srv : Server number) (w : World number) :
  let button := Page.handleResetWithDifficulty (Some handleDifficultyChange) resetBoard in
  let fallback := Page.handleResetWithDifficulty None resetBoard in
  (newDifficulty = difficulty (app w) →
     handleDifficultyChange newDifficulty srv w = (Normal (), w) ∧
     button newDifficulty srv w = (Normal (), w)) ∧
  (newDifficulty ≠ difficulty (app w) →
     handleDifficultyChange newDifficulty srv w = resetBoard (Some newDifficulty) srv w ∧
     button newDifficulty srv w = resetBoard (Some newDifficulty) srv w) ∧
  fallback newDifficulty srv w = resetBoard (Some newDifficulty) srv w.
Proof.
  intros button fallback. subst button fallback.
  unfold Page.handleResetWithDifficulty, handleDifficultyChange, getState, mbind, M_bind.
  cbv beta iota. split_and!.
  - intros ->. by rewrite bool_decide_false by (intros Hne; by apply Hne).
  - intros Hne. by rewrite bool_decide_true.
  - reflexivity.
Qed.

(** X9: [handleNumberToggle] flips the membership of its number in the
    panel's selection and of no other number, keeps a selection free of
    repetitions free of them, and changes nothing but the selection.
    (Numbers are those of the model, each equal to itself under [!==]
    as the numbers of the grid are; NaN is not among them.) *)
Theorem handleNumberToggle_flips (n : number)
    (srv : Server number) (w : World number) :
  let w' := exec (handleNumberToggle n) srv w in
  (n ∈ selectedNumbers w' ↔ n ∉ selectedNumbers w) ∧
  (∀ m, m ≠ n → (m ∈ selectedNumbers w' ↔ m ∈ selectedNumbers w)) ∧
  (NoDup (selectedNumbers w) → NoDup (selectedNumbers w')) ∧
  app w' = app w ∧ sent w' = sent w ∧ alerts w' = alerts w ∧ console w' = console w.
Proof.
  destruct w as [a sn st al co].
  unfold exec, handleNumberToggle, getSelectedNumbers, setSelectedNumbers, mbind, M_bind.
  simpl. case_bool_decide as Hin; simpl; split_and!; try reflexivity.
  - rewrite list_elem_of_filter. split; [intros [Hne _]; done|done].
  - intros m Hm. rewrite list_elem_of_filter. tauto.
  - apply NoDup_filter.
  - rewrite elem_of_app, list_elem_of_singleton. tauto.
  - intros m Hm. rewrite elem_of_app, list_elem_of_singleton. tauto.
  - intros Hnd. apply NoDup_app. split_and!; [done| |apply NoDup_singleton].
    intros m Hm ->%list_elem_of_singleton. done.
Qed.

(** X10: toggling a number twice: a number that was not selected is not
    selected again and the selection is as before; a number that was
    selected moves to the end of the selection. *)
Theorem handleNumberToggle_twice (n : number)
    (srv : Server number) (w : World number) :
  NoDup (selectedNumbers w) →
  let w' := exec (handleNumberToggle n;; handleNumberToggle n) srv w in
  (n ∉ selectedNumbers w → w' = w) ∧
  (n ∈ selectedNumbers w →
     selectedNumbers w' = filter (λ m, m ≠ n) (selectedNumbers w) ++ [n]) ∧
  selectedNumbers w' ≡ₚ selectedNumbers w.
Proof.
  destruct w as [a sn st al co]. simpl. intros Hnd.
  unfold exec, handleNumberToggle, getSelectedNumbers, setSelectedNumbers, mbind, M_bind.
  simpl.
  assert (∀ l : list number, n ∉ l → filter (λ m, m ≠ n) l = l) as Hfilter.
  { intros l Hl. induction l as [|x rest IH]; [done|].
    rewrite filter_cons. apply not_elem_of_cons in Hl as [Hx Hrest].
    rewrite decide_True by done. by rewrite IH. }
  case_bool_decide as Hin; simpl.
  - rewrite bool_decide_false; simpl.
    2:{ rewrite list_elem_of_filter. intros [Hne _]. done. }
    split_and!; [done|done|].
    clear Hfilter. induction Hnd as [|x rest Hx Hnd IH]; [by inversion Hin|].
    rewrite filter_cons. destruct (decide (x = n)) as [->|Hne].
    + rewrite decide_False by (intros Hc; by apply Hc).
      assert (filter (λ m, m ≠ n) rest = rest) as ->.
      { clear IH Hin Hnd. induction rest as [|y rest IH]; [done|].
        rewrite filter_cons. apply not_elem_of_cons in Hx as [Hy Hrest].
        rewrite decide_True by done. by rewrite IH. }
      symmetry. apply Permutation_cons_append.
    + rewrite decide_True by done. simpl. constructor. apply IH.
      by inversion Hin; subst.
  - rewrite bool_decide_true; simpl.
    2:{ rewrite elem_of_app, list_elem_of_singleton. by right. }
    rewrite filter_app, filter_cons, filter_nil.
    rewrite decide_False by (intros Hc; by apply Hc).
    rewrite app_nil_r, Hfilter by done.
    split_and!; done.
Qed.

End ClickFacts.

(** ** Facts about the panel's Assign button *)

Section AssignFacts.
Import App.
Context {number : Type} `{EqDecision number}.
Variable Number : string → number.
Variable numberToString : number → string.

(** A filter that every element passes. *)
Lemma filter_all {A} (P : A → Prop) `{∀ x, Decision (P x)} (l : list A) :
  Forall P l → filter P l = l.
Proof.
  induction 1 as [|x rest Hx _ IH]; [done|].
  rewrite filter_cons, decide_True by done. by rewrite IH.
Qed.

(** X11: [handleAssign] with numbers selected either throws before it has
    changed anything, or completes and leaves the selection empty,
    whether or not anything was sent.  It throws exactly when a cell is
    selected that the board does not have, or that has neither a value
    nor possibilities.  It raises no alert. *)
Theorem handleAssign_clears_selection (srv : Server number) (w : World number) :
  selectedNumbers w ≠ [] →
  let r := handleAssign Number numberToString srv w in
  match r.1 with
  | Normal _ => selectedNumbers r.2 = []
  | Throws _ => r.2 = w
  end ∧
  alerts r.2 = alerts w ∧
  ((∃ e, r.1 = Throws e) ↔
   ∃ row col, selectedCell (app w) = Some (row, col) ∧
     match lookupCell (board (app w)) row col with
     | Some cell => value cell = None ∧ possibilities cell = None
     | None => True
     end).
Proof.
  destruct w as [[b sc msg ld df] sn st al co]; simpl. intros Hsel.
  unfold handleAssign, handleNumberSelection_start, resumePending, assignCellValues_start,
    assignCellValues_resume, cellAt, Object_keys, getSelectedNumbers, getState,
    setSelectedNumbers, setMessage, setLoading, setBoard, modifyApp, alert, console_error,
    fetch, throw, mbind, M_bind, mret, M_ret. simpl.
  rewrite bool_decide_false by (by destruct sn).
  destruct sc as [[row col]|]; simpl.
  2:{ split_and!; [done|done|]. split; [intros [e He]; done|intros (? & ? & ? & _); done]. }
  destruct (lookupCell b row col) as [cell|] eqn:Hcell; simpl.
  2:{ split_and!; [done|done|]. split; [intros _|by eexists].
      exists row, col. by rewrite Hcell. }
  destruct (value cell) as [v|] eqn:Hv; simpl.
  { split_and!; [done|done|]. split; [intros [e He]; done|].
    intros (r' & c' & [= <- <-] & Hc). rewrite Hcell in Hc. destruct Hc as [Hc _]. congruence. }
  destruct (possibilities cell) as [entries|] eqn:Hp; simpl.
  2:{ split_and!; [done|done|]. split; [intros _|by eexists].
      exists row, col. by rewrite Hcell. }
  assert (¬ ∃ row0 col0, Some (row, col) = Some (row0, col0) ∧
            match lookupCell b row0 col0 with
            | Some cell0 => value cell0 = None ∧ possibilities cell0 = None
            | None => True
            end) as Hno.
  { intros (r' & c' & [= <- <-] & Hc). rewrite Hcell in Hc. destruct Hc as [_ Hc]. congruence. }
  case_bool_decide; simpl.
  { split_and!; [done|done|]. split; [intros [e He]; done|done]. }
  case_bool_decide; simpl;
    destruct (assign_endpoint _ _ _) as [e|data]; simpl;
    try destruct (ToBoolean (assign_success data)); simpl;
    (split_and!; [done|done|]; split; [intros [e' He']; done|done]).
Qed.

(** X12: the panel and App agree on which numbers a cell takes: when every
    selected number is one the panel shows as available, App's filter
    drops none of them, and the one request sent carries the selection
    whole, for the selected cell. *)
Theorem available_selection_is_sent_whole (srv : Server number) (w : World number)
    (row col : nat) :
  selectedCell (app w) = Some (row, col) →
  selectedNumbers w ≠ [] →
  Forall (λ n, isNumberAvailable Number w n = Normal true) (selectedNumbers w) →
  let w' := exec (handleAssign Number numberToString) srv w in
  sent w' = sent w ++ [assignRequest row col (selectedNumbers w)] ∧
  selectedNumbers w' = [].
Proof.
  destruct w as [[b sc msg ld df] sn st al co]; simpl. intros -> Hsel Hall.
  assert (∃ cell entries, lookupCell b row col = Some cell ∧ value cell = None ∧
            possibilities cell = Some entries ∧
            Forall (λ n, includes (Number <$> entries.*1) n = true) sn)
    as (cell & entries & Hcell & Hv & Hp & Hin).
  { destruct sn as [|n rest]; [done|].
    pose proof (Forall_inv Hall) as Hn.
    unfold isNumberAvailable, cellData, lookupCell in *. simpl in *.
    destruct b as [rows|]; [|done].
    destruct ((rows : list (list (Cell number))) !! row) as [cells|]; [|done].
    destruct (cells !! col) as [cell|]; [|done].
    destruct (value cell) as [v|] eqn:Hv; [done|].
    destruct (possibilities cell) as [entries|] eqn:Hp; [|done].
    exists cell, entries. split_and!; try done.
    eapply Forall_impl; [exact Hall|]. simpl. intros m Hm. congruence. }
  assert (validNumbers Number entries.*1 sn = sn) as Hvalid.
  { unfold validNumbers, currentPossibilities. by apply filter_all. }
  unfold exec, handleAssign, handleNumberSelection_start, resumePending, assignCellValues_start,
    assignCellValues_resume, cellAt, Object_keys, getSelectedNumbers, getState,
    setSelectedNumbers, setMessage, setLoading, setBoard, modifyApp, alert, console_error,
    fetch, throw, mbind, M_bind, mret, M_ret. simpl.
  rewrite bool_decide_false by (by destruct sn). simpl.
  rewrite Hcell. simpl. rewrite Hv, Hp. simpl. rewrite Hvalid.
  rewrite bool_decide_false by (by destruct sn).
  rewrite bool_decide_false by (intros Hne; by apply Hne). simpl.
  destruct (assign_endpoint _ _ _) as [e|data]; simpl;
    try destruct (ToBoolean (assign_success data)); done.
Qed.

(** X13: the notice that only some of the selected numbers are valid is set
    when the request goes out and does not last: once the request has
    settled the message is the server's, or that of the failure. *)
Theorem selection_notice_does_not_last (numbers : list number)
    (srv : Server number) (w : World number) (row col : nat)
    (cell : Cell number) (entries : list (string * number)) :
  selectedCell (app w) = Some (row, col) →
  lookupCell (board (app w)) row col = Some cell →
  value cell = None →
  possibilities cell = Some entries →
  validNumbers Number entries.*1 numbers ≠ [] →
  let valid := validNumbers Number entries.*1 numbers in
  let begun := (handleNumberSelection_start Number numberToString numbers srv w).2 in
  let w' := exec (handleNumberSelection Number numberToString numbers) srv w in
  message (app begun)
  = (if bool_decide (length valid ≠ length numbers)
     then Some ("Only " +:+ join ", " (numberToString <$> valid)
                +:+ " are valid for this cell.")
     else message (app w)) ∧
  loading (app begun) = true ∧
  loading (app w') = false ∧
  message (app w')
  = match assign_endpoint srv (sent w) (assignRequest row col valid) with
    | Rejects e => Some ("Error assigning values: " +:+ e)
    | Resolves data =>
        if ToBoolean (assign_success data) then assign_message data
        else Some ("Error assigning values: " +:+ ToString (assign_detail data))
    end.
Proof.
  destruct w as [[b sc msg ld df] sn st al co]; simpl.
  intros -> Hcell Hv Hp Hvalid.
  unfold exec, handleNumberSelection, handleNumberSelection_start, resumePending,
    assignCellValues_start, assignCellValues_resume, cellAt, Object_keys, getState,
    setMessage, setLoading, setBoard, modifyApp, console_error,
    fetch, throw, mbind, M_bind, mret, M_ret. simpl.
  rewrite Hcell. simpl. rewrite Hv, Hp. simpl.
  rewrite (bool_decide_false (length _ = 0)) by (by destruct (validNumbers _ _ _)).
  case_bool_decide; simpl;
    destruct (assign_endpoint _ _ _) as [e|data]; simpl;
    try destruct (ToBoolean (assign_success data)); done.
Qed.

(** A number is available in the panel exactly when the selected cell
    is a cell of the board in superposition and the number is the
    number of one of its keys. *)
Lemma isNumberAvailable_true (w : World number) (n : number) :
  isNumberAvailable Number w n = Normal true ↔
  ∃ row col cell entries,
    selectedCell (app w) = Some (row, col) ∧
    lookupCell (board (app w)) row col = Some cell ∧
    value cell = None ∧
    possibilities cell = Some entries ∧
    n ∈ Number <$> entries.*1.
Proof.
  unfold isNumberAvailable, cellData, lookupCell, includes.
  destruct (selectedCell (app w)) as [[row col]|].
  2:{ split; [done|]. by intros (? & ? & ? & ? & ? & _). }
  destruct (board (app w)) as [rows|].
  2:{ split; [done|]. by intros (? & ? & ? & ? & _ & ? & _). }
  destruct ((rows : list (list (Cell number))) !! row) as [cells|] eqn:Hcells.
  2:{ split; [done|]. intros (r & c & ? & ? & [= <- <-] & Hl & _). by rewrite Hcells in Hl. }
  destruct (cells !! col) as [cell|] eqn:Hcell.
  2:{ split; [done|]. intros (r & c & ? & ? & [= <- <-] & Hl & _).
      rewrite Hcells in Hl. by rewrite Hcell in Hl. }
  split.
  - destruct (value cell) as [v|] eqn:Hv; [done|].
    destruct (possibilities cell) as [entries|] eqn:Hp; [|done].
    intros [= Hin%bool_decide_eq_true]. exists row, col, cell, entries.
    rewrite Hcells. done.
  - intros (r & c & cell' & entries & [= <- <-] & Hl & Hv & Hp & Hin).
    rewrite Hcells, Hcell in Hl. injection Hl as <-. rewrite Hv, Hp.
    f_equal. by apply bool_decide_eq_true.
Qed.

End AssignFacts.

(** ** More facts about the board component *)

Section MapFacts.
Context {A B : Type}.
Variable f : nat → A → completion B.

(** A traversal that completes has visited every element with its index. *)
Lemma mapi_Normal (i : nat) (l : list A) (bs : list B) :
  SudokuBoard.mapi f i l = Normal bs →
  length bs = length l ∧
  ∀ k a, l !! k = Some a → ∃ b, bs !! k = Some b ∧ f (i + k) a = Normal b.
Proof.
  revert i bs. induction l as [|a rest IH]; intros i bs; simpl.
  - intros [= <-]. split; [done|]. intros k a Hk. done.
  - destruct (f i a) as [b|e] eqn:Hb; [|done].
    destruct (SudokuBoard.mapi f (S i) rest) as [bs'|e] eqn:Hrest; [|done].
    intros [= <-]. destruct (IH _ _ Hrest) as [Hlen Hall].
    split; [simpl; by rewrite Hlen|].
    intros [|k] a' Hk; simpl in *.
    + injection Hk as <-. exists b. by rewrite Nat.add_0_r.
    + destruct (Hall k a' Hk) as (b' & Hb' & Hf). exists b'.
      split; [done|]. by replace (i + S k) with (S i + k) by lia.
Qed.

(** A traversal that throws has met an element on which [f] throws. *)
Lemma mapi_Throws (i : nat) (l : list A) (e : string) :
  SudokuBoard.mapi f i l = Throws e →
  ∃ k a, l !! k = Some a ∧ f (i + k) a = Throws e.
Proof.
  revert i. induction l as [|a rest IH]; intros i; simpl; [done|].
  destruct (f i a) as [b|e'] eqn:Hb.
  - destruct (SudokuBoard.mapi f (S i) rest) as [bs'|e'] eqn:Hrest; [done|].
    intros [= ->]. destruct (IH _ Hrest) as (k & a' & Hk & Hf).
    exists (S k), a'. split; [done|]. by replace (i + S k) with (S i + k) by lia.
  - intros [= ->]. exists 0, a. by rewrite Nat.add_0_r.
Qed.

(** A traversal completes when [f] does on every element. *)
Lemma mapi_completes (i : nat) (l : list A) :
  (∀ k a, l !! k = Some a → ∃ b, f (i + k) a = Normal b) →
  ∃ bs, SudokuBoard.mapi f i l = Normal bs.
Proof.
  intros Hall. destruct (SudokuBoard.mapi f i l) as [bs|e] eqn:Hm; [by exists bs|].
  destruct (mapi_Throws _ _ _ Hm) as (k & a & Hk & Hf).
  destruct (Hall k a Hk) as [b Hb]. congruence.
Qed.
End MapFacts.

Section BoardFacts.
Import SudokuBoard.
Context {number : Type}.
Variable getProbabilityColor : number → string.
Variable toFixed0 : number → string.

(** A cell renders unless it has neither a value nor possibilities. *)
Lemma renderCell_Normal (selectedCell : option (nat * nat)) (i j : nat)
    (cell : App.Cell number) :
  boardCell cell → ∃ d, renderCell getProbabilityColor toFixed0 selectedCell i j cell = Normal d ∧ onClick d = (i, j).
Proof.
  unfold boardCell, SudokuBoard.renderCell. intros Hcell.
  destruct (App.value cell) as [v|]; [by eexists|].
  destruct Hcell as [Hcell|Hcell]; [done|].
  destruct (App.possibilities cell) as [entries|]; [|done]. by eexists.
Qed.

Lemma renderCell_Throws (selectedCell : option (nat * nat)) (i j : nat)
    (cell : App.Cell number) (e : string) :
  renderCell getProbabilityColor toFixed0 selectedCell i j cell = Throws e → ¬ boardCell cell.
Proof.
  intros Hthrows Hcell.
  destruct (renderCell_Normal selectedCell i j cell Hcell) as (d & Hd & _). congruence.
Qed.

(** A board whose cells all have a value or possibilities renders. *)
Lemma SudokuBoard_completes (rows : App.Board number) (selectedCell : option (nat * nat)) :
  Forall (Forall boardCell) rows →
  ∃ rs, mapi (renderRow getProbabilityColor toFixed0 selectedCell) 0 rows = Normal rs.
Proof.
  intros Hrows. apply mapi_completes.
  intros i row Hrow. simpl. unfold SudokuBoard.renderRow.
  destruct (mapi_completes (renderCell getProbabilityColor toFixed0 selectedCell i) 0 row)
    as [cs Hcs]; [|rewrite Hcs; by eexists].
  intros j cell Hcell. simpl.
  destruct (renderCell_Normal selectedCell i j cell) as (d & Hd & _); [|by exists d].
  rewrite Forall_forall in Hrows.
  assert (Forall boardCell row) as Hrow' by (apply Hrows; by eapply list_elem_of_lookup_2).
  rewrite Forall_forall in Hrow'. apply Hrow'. by eapply list_elem_of_lookup_2.
Qed.

(** X14: the board component lays the board out cell for cell: a board whose
    cells all have a value or possibilities is rendered with one row
    element for each row and, at the place of each cell, the element of
    that cell, whose click reports the cell's own coordinates. *)
Theorem SudokuBoard_layout (rows : App.Board number) (selectedCell : option (nat * nat)) :
  Forall (Forall boardCell) rows →
  ∃ rs, SudokuBoard getProbabilityColor toFixed0 (Some rows) selectedCell = Normal (BoardDiv rs) ∧
    length rs = length rows ∧
    ∀ i j,
      match App.lookupCell (Some rows) i j with
      | Some cell =>
          ∃ rd d, rs !! i = Some rd ∧ cells rd !! j = Some d ∧
                  renderCell getProbabilityColor toFixed0 selectedCell i j cell = Normal d ∧
                  onClick d = (i, j)
      | None => ∀ rd, rs !! i = Some rd → cells rd !! j = None
      end.
Proof.
  intros Hrows. unfold SudokuBoard.SudokuBoard.
  destruct (SudokuBoard_completes rows selectedCell Hrows) as [rs Hrs].
  rewrite Hrs. exists rs. split; [done|].
  destruct (mapi_Normal _ _ _ _ Hrs) as [Hlen Hall]. split; [done|].
  intros i j. unfold App.lookupCell.
  destruct ((rows : list (list (App.Cell number))) !! i) as [row|] eqn:Hrow.
  - destruct (Hall i row Hrow) as (rd & Hrd & Hrender). simpl in Hrender.
    unfold SudokuBoard.renderRow in Hrender.
    destruct (mapi (SudokuBoard.renderCell _ _ selectedCell i) 0 row) as [cs|e] eqn:Hcs; [|done].
    injection Hrender as <-.
    destruct (mapi_Normal _ _ _ _ Hcs) as [Hlen' Hall'].
    destruct (row !! j) as [cell|] eqn:Hcell.
    + destruct (Hall' j cell Hcell) as (d & Hd & Hf). simpl in Hf.
      exists {| row_key := "row-" +:+ pretty i; cells := cs |}, d.
      split_and!; try done.
      assert (boardCell cell) as Hbc.
      { rewrite Forall_forall in Hrows.
        assert (Forall boardCell row) as Hrow' by (apply Hrows; by eapply list_elem_of_lookup_2).
        rewrite Forall_forall in Hrow'. apply Hrow'. by eapply list_elem_of_lookup_2. }
      destruct (renderCell_Normal selectedCell i j cell Hbc) as (d' & Hd' & Hclick).
      congruence.
    + intros rd' Hrd'. rewrite Hrd in Hrd'. injection Hrd' as <-. simpl.
      apply lookup_ge_None. rewrite Hlen'. by apply lookup_ge_None.
  - intros rd Hrd. apply lookup_ge_None in Hrow.
    assert (i < length rs) by (by eapply lookup_lt_Some). lia.
Qed.

(** X15: the board component throws exactly when the board has a cell with
    neither a value nor possibilities; without a board it shows a
    placeholder. *)
Theorem SudokuBoard_throws (board : option (App.Board number))
    (selectedCell : option (nat * nat)) :
  ((∃ e, SudokuBoard getProbabilityColor toFixed0 board selectedCell = Throws e) ↔
   ∃ i j cell, App.lookupCell board i j = Some cell ∧
               App.value cell = None ∧ App.possibilities cell = None) ∧
  (board = None → SudokuBoard getProbabilityColor toFixed0 board selectedCell = Normal LoadingBoard) ∧
  (∀ e, SudokuBoard getProbabilityColor toFixed0 board selectedCell = Throws e → e = "TypeError").
Proof.
  assert (∀ cell : App.Cell number,
            ¬ boardCell cell ↔ App.value cell = None ∧ App.possibilities cell = None) as Hbad.
  { intros cell. unfold boardCell.
    destruct (App.value cell), (App.possibilities cell);
      (split; [intros Hc|intros [Hv Hp] Hc]); try done.
    - exfalso. apply Hc. by left.
    - exfalso. apply Hc. by left.
    - exfalso. apply Hc. by right.
    - by destruct Hc. }
  assert (∀ e, SudokuBoard getProbabilityColor toFixed0 board selectedCell = Throws e →
            e = "TypeError" ∧
            ∃ i j cell, App.lookupCell board i j = Some cell ∧ ¬ boardCell cell) as Hthrows.
  { intros e. unfold SudokuBoard.SudokuBoard. destruct board as [rows|]; [|done].
    destruct (mapi (SudokuBoard.renderRow _ _ selectedCell) 0 rows) as [rs|e'] eqn:Hrs; [done|].
    intros [= ->]. destruct (mapi_Throws _ _ _ _ Hrs) as (i & row & Hrow & Hf).
    simpl in Hf. unfold SudokuBoard.renderRow in Hf.
    destruct (mapi (SudokuBoard.renderCell _ _ selectedCell i) 0 row) as [cs|e'] eqn:Hcs; [done|].
    injection Hf as ->. destruct (mapi_Throws _ _ _ _ Hcs) as (j & cell & Hcell & Hf).
    simpl in Hf. split.
    - unfold SudokuBoard.renderCell in Hf. destruct (App.value cell); [done|].
      destruct (App.possibilities cell); [done|]. simpl in Hf. congruence.
    - exists i, j, cell. split; [|by eapply renderCell_Throws].
      unfold App.lookupCell. by rewrite Hrow. }
  split_and!.
  - split.
    + intros [e He]. destruct (Hthrows e He) as (_ & i & j & cell & Hcell & Hb).
      exists i, j, cell. split; [done|]. by apply Hbad.
    + intros (i & j & cell & Hcell & Hv & Hp).
      destruct (SudokuBoard getProbabilityColor toFixed0 board selectedCell) as [r|e] eqn:Hr; [|by exists e].
      exfalso. unfold SudokuBoard.SudokuBoard in Hr. destruct board as [rows|]; [|done].
      destruct (mapi (SudokuBoard.renderRow _ _ selectedCell) 0 rows) as [rs|e'] eqn:Hrs; [|done].
      destruct (mapi_Normal _ _ _ _ Hrs) as [_ Hall].
      unfold App.lookupCell in Hcell.
      destruct ((rows : list (list (App.Cell number))) !! i) as [row|] eqn:Hrow; [|done].
      destruct (Hall i row Hrow) as (rd & _ & Hrender). simpl in Hrender.
      unfold SudokuBoard.renderRow in Hrender.
      destruct (mapi (SudokuBoard.renderCell _ _ selectedCell i) 0 row) as [cs|e'] eqn:Hcs; [|done].
      destruct (mapi_Normal _ _ _ _ Hcs) as [_ Hall'].
      destruct (Hall' j cell Hcell) as (d & _ & Hd). simpl in Hd.
      unfold SudokuBoard.renderCell in Hd. rewrite Hv, Hp in Hd. done.
  - by intros ->.
  - intros e He. by destruct (Hthrows e He).
Qed.

End BoardFacts.

Section OrderFacts.
Context {A : Type}.
Variable key : A → Z.

(** Two arrangements of the same elements in strictly ascending order
    of key are the same list. *)
Lemma strict_sorted_unique (l1 l2 : list A) :
  StronglySorted (λ a b, (key a < key b)%Z) l1 →
  StronglySorted (λ a b, (key a < key b)%Z) l2 →
  l1 ≡ₚ l2 → l1 = l2.
Proof.
  intros Hs1. revert l2. induction Hs1 as [|x r1 Hr1 IH Hx]; intros l2 Hs2 Hperm.
  - by apply Permutation_nil in Hperm.
  - destruct Hs2 as [|y r2 Hr2 Hy].
    + symmetry in Hperm. by apply Permutation_nil in Hperm.
    + assert (x = y) as ->.
      { assert (x ∈ y :: r2) as Hxin by (rewrite <- Hperm; left).
        assert (y ∈ x :: r1) as Hyin by (rewrite Hperm; left).
        apply elem_of_cons in Hxin as [Hxy|Hxin]; [done|].
        apply elem_of_cons in Hyin as [Hyx|Hyin]; [done|].
        rewrite Forall_forall in Hx, Hy.
        specialize (Hx y Hyin). specialize (Hy x Hxin). lia. }
      f_equal. apply IH; [done|]. by eapply Permutation_cons_inv.
Qed.
End OrderFacts.

Section KeyFacts.
Import SudokuBoard.
Context {number : Type}.
Variable getProbabilityColor : number → string.
Variable toFixed0 : number → string.

(** Being a possibilities mapping does not depend on the order of the
    entries. *)
Lemma possibilitiesMapping_Permutation (entries entries' : list (string * number)) :
  entries ≡ₚ entries' → possibilitiesMapping entries → possibilitiesMapping entries'.
Proof.
  intros Hperm [Hnd Hkeys]. split; by rewrite <- Hperm.
Qed.

(** X16: what a cell shows does not depend on the order in which the board
    JSON lists the cell's possibilities: two mappings with the same
    entries are sorted into the same list. *)
Theorem sortPossibilities_order_independent (entries entries' : list (string * number)) :
  possibilitiesMapping entries →
  entries ≡ₚ entries' →
  sortPossibilities entries = sortPossibilities entries'.
Proof.
  intros Hmap Hperm.
  pose proof (possibilitiesMapping_Permutation _ _ Hperm Hmap) as Hmap'.
  apply (strict_sorted_unique numericKey).
  - by apply sortPossibilities_strict.
  - by apply sortPossibilities_strict.
  - unfold sortPossibilities. rewrite !sort_Permutation. by rewrite Hperm.
Qed.

(** A traversal that completes, read from its result. *)
Lemma mapi_Normal_inv {A B} (f : nat → A → completion B) (i : nat) (l : list A)
    (bs : list B) (k : nat) (b : B) :
  mapi f i l = Normal bs → bs !! k = Some b →
  ∃ a, l !! k = Some a ∧ f (i + k) a = Normal b.
Proof.
  intros Hm Hb. destruct (mapi_Normal _ _ _ _ Hm) as [Hlen Hall].
  assert (k < length l) as Hk by (rewrite <- Hlen; by eapply lookup_lt_Some).
  destruct (lookup_lt_is_Some_2 l k Hk) as [a Ha].
  destruct (Hall k a Ha) as (b' & Hb' & Hf). exists a. split; [done|]. congruence.
Qed.

Lemma renderCell_key (selectedCell : option (nat * nat)) (i j : nat)
    (cell : App.Cell number) (d : CellDiv) :
  renderCell getProbabilityColor toFixed0 selectedCell i j cell = Normal d →
  cell_key d = "cell-" +:+ pretty i +:+ "-" +:+ pretty j.
Proof.
  unfold renderCell. destruct (App.value cell); [by intros [= <-]|].
  destruct (App.possibilities cell); simpl; [by intros [= <-]|done].
Qed.

Lemma possibility_keys_NoDup (i j : nat) (l : list (jsnum * number)) :
  Forall (λ e : jsnum * number, ∃ z, e.1 = JNum z) l →
  NoDup (numericKey <$> l) →
  NoDup (possibility_key <$> (possibilityDiv getProbabilityColor toFixed0 i j <$> l)).
Proof.
  intros Hnum Hnd. rewrite <- list_fmap_compose.
  apply NoDup_fmap_2_strong.
  2:{ by eapply NoDup_fmap_1. }
  intros [n p] [n' p'] Hin Hin' Hkey.
  rewrite Forall_forall in Hnum.
  destruct (Hnum _ Hin) as [z Hz], (Hnum _ Hin') as [z' Hz']. simpl in *. subst n n'.
  repeat apply String.app_inj in Hkey. apply (inj pretty) in Hkey. subst z'.
  clear Hnum. induction l as [|x rest IH]; [by inversion Hin|].
  rewrite fmap_cons in Hnd. apply NoDup_cons in Hnd as [Hx Hnd].
  apply elem_of_cons in Hin as [<-|Hin]; apply elem_of_cons in Hin' as [Hin'|Hin'].
  - done.
  - exfalso. apply Hx. by apply (list_elem_of_fmap_2 numericKey) in Hin'.
  - subst x. exfalso. apply Hx. by apply (list_elem_of_fmap_2 numericKey) in Hin.
  - by apply IH.
Qed.

(** X17: the keys React tells sibling elements apart by are distinct: those
    of the rows, those of the cells of a row and, where the cell's
    possibilities are a mapping over the keys "1" to "9", those of the
    candidates of a cell. *)
Theorem sibling_keys_distinct (rows : App.Board number)
    (selectedCell : option (nat * nat)) (rs : list RowDiv) :
  SudokuBoard getProbabilityColor toFixed0 (Some rows) selectedCell = Normal (BoardDiv rs) →
  NoDup (row_key <$> rs) ∧
  Forall (λ rd, NoDup (cell_key <$> cells rd)) rs ∧
  (Forall (Forall (λ cell, ∀ entries, App.possibilities cell = Some entries →
                           possibilitiesMapping entries)) rows →
   Forall (λ rd, Forall (λ d, ∀ items, content d = Possibilities items →
                          NoDup (possibility_key <$> items)) (cells rd)) rs).
Proof.
  unfold SudokuBoard.SudokuBoard.
  destruct (mapi (renderRow getProbabilityColor toFixed0 selectedCell) 0 rows)
    as [rs'|e] eqn:Hrs; [|done].
  intros [= <-].
  assert (∀ i rd, rs' !! i = Some rd →
            ∃ row, (rows : list (list (App.Cell number))) !! i = Some row ∧
                   row_key rd = "row-" +:+ pretty i ∧
                   mapi (renderCell getProbabilityColor toFixed0 selectedCell i) 0 row
                   = Normal (cells rd)) as Hrow.
  { intros i rd Hrd. destruct (mapi_Normal_inv _ _ _ _ _ _ Hrs Hrd) as (row & Hrow & Hf).
    simpl in Hf. unfold renderRow in Hf.
    destruct (mapi (renderCell getProbabilityColor toFixed0 selectedCell i) 0 row)
      as [cs|e] eqn:Hcs; [|done].
    injection Hf as <-. by exists row. }
  split_and!.
  - apply NoDup_alt. intros i i' k Hi Hi'.
    apply list_lookup_fmap_Some in Hi as (rd & -> & Hrd).
    apply list_lookup_fmap_Some in Hi' as (rd' & Heq & Hrd').
    destruct (Hrow i rd Hrd) as (_ & _ & Hk & _).
    destruct (Hrow i' rd' Hrd') as (_ & _ & Hk' & _).
    rewrite Hk, Hk' in Heq. apply String.app_inj in Heq. by apply (inj pretty) in Heq.
  - apply Forall_forall. intros rd Hin.
    apply list_elem_of_lookup in Hin as [i Hrd].
    destruct (Hrow i rd Hrd) as (row & _ & _ & Hcs).
    apply NoDup_alt. intros j j' k Hj Hj'.
    apply list_lookup_fmap_Some in Hj as (d & -> & Hd).
    apply list_lookup_fmap_Some in Hj' as (d' & Heq & Hd').
    destruct (mapi_Normal_inv _ _ _ _ _ _ Hcs Hd) as (cell & _ & Hf).
    destruct (mapi_Normal_inv _ _ _ _ _ _ Hcs Hd') as (cell' & _ & Hf').
    simpl in Hf, Hf'.
    rewrite (renderCell_key _ _ _ _ _ Hf), (renderCell_key _ _ _ _ _ Hf') in Heq.
    repeat apply String.app_inj in Heq. by apply (inj pretty) in Heq.
  - intros Hmaps. apply Forall_forall. intros rd Hin.
    apply list_elem_of_lookup in Hin as [i Hrd].
    destruct (Hrow i rd Hrd) as (row & Hrowi & _ & Hcs).
    apply Forall_forall. intros d Hdin.
    apply list_elem_of_lookup in Hdin as [j Hd].
    destruct (mapi_Normal_inv _ _ _ _ _ _ Hcs Hd) as (cell & Hcell & Hf).
    simpl in Hf. intros items Hitems.
    assert (∀ entries, App.possibilities cell = Some entries → possibilitiesMapping entries)
      as Hmap.
    { rewrite Forall_forall in Hmaps.
      assert (Forall (λ cell, ∀ entries, App.possibilities cell = Some entries →
                       possibilitiesMapping entries) row) as Hr
        by (apply Hmaps; by eapply list_elem_of_lookup_2).
      rewrite Forall_forall in Hr. apply Hr. by eapply list_elem_of_lookup_2. }
    unfold renderCell in Hf. destruct (App.value cell).
    { injection Hf as <-. done. }
    destruct (App.possibilities cell) as [entries|]; simpl in Hf; [|done].
    injection Hf as <-. simpl in Hitems. injection Hitems as <-.
    destruct (sortPossibilities_strict entries (Hmap entries eq_refl)) as [Hs Hnum].
    apply possibility_keys_NoDup; [done|].
    clear -Hs. induction Hs as [|x rest Hrest IH Hx]; [constructor|].
    rewrite fmap_cons. apply NoDup_cons. split; [|done].
    intros Hin. apply list_elem_of_fmap in Hin as (y & Hy & Hin).
    rewrite Forall_forall in Hx. specialize (Hx y Hin). lia.
Qed.

End KeyFacts.

(** ** How close the colour is to the exact gradient *)

Section AccuracyFacts.
Import Color.
Local Open Scope Q_scope.

(** X18: the channel the code computes in double precision is, up to the
    rounding to an integer, the exact gradient: it differs from
    255 * (1 - p / 100) by at most one half and 10^-12. *)
Theorem getProbabilityColor_accuracy (p : spec_float) :
  percentage p →
  ∃ r, getProbabilityColor p
       = {| red := Integer r; green := Integer 255; blue := Integer r |} ∧
       Qabs (inject_Z r - 255 * (1 - B2Q p / 100)) <= (1#2) + (1 # 1000000000000).
Proof.
  intros Hp. pose proof Hp as [Hfin Hle]. pose proof (nonneg_finite_B2Q p Hfin) as H0.
  destruct (normalizedProb_rounds p Hp) as [Hf1 Hr1]. cbv zeta in Hf1, Hr1.
  assert (B2Q (SFdiv 53 1024 p (literal 100)) <= 1) as Hn1.
  { eapply rounds_mono; [|exact Hr1|exact rounds_1]. lra. }
  destruct (complement_rounds _ Hf1 Hn1) as [Hf2 Hr2]. cbv zeta in Hf2, Hr2.
  pose proof (nonneg_finite_B2Q _ Hf1) as Hn0.
  assert (B2Q (SFsub 53 1024 (literal 1) (SFdiv 53 1024 p (literal 100))) <= 1) as Hn2.
  { eapply rounds_mono; [|exact Hr2|exact rounds_1]. lra. }
  destruct (scaled_rounds _ Hf2 Hn2) as [Hf3 Hr3]. cbv zeta in Hf3, Hr3.
  pose proof (nonneg_finite_B2Q _ Hf2) as Hc0.
  assert (pow2 0 == 1) as P0 by reflexivity.
  assert (pow2 8 == 256) as P8 by reflexivity.
  assert (pow2 (0 - 53) == 1 # 9007199254740992) as P53 by reflexivity.
  assert (pow2 (8 - 53) == 1 # 35184372088832) as P45 by reflexivity.
  destruct (rounds_error _ _ 0 Hr1) as [E1 E1']; [lra|unfold emin64; lia|].
  destruct (rounds_error _ _ 0 Hr2) as [E2 E2']; [lra|unfold emin64; lia|].
  destruct (rounds_error _ _ 8 Hr3) as [E3 E3']; [lra|unfold emin64; lia|].
  set (a := B2Q (SFdiv 53 1024 p (literal 100))) in *.
  set (b := B2Q (SFsub 53 1024 (literal 1) (SFdiv 53 1024 p (literal 100)))) in *.
  set (v := B2Q (SFmul 53 1024 (literal 255)
                   (SFsub 53 1024 (literal 1) (SFdiv 53 1024 p (literal 100))))) in *.
  exists (Qfloor (v + (1#2))). split.
  { unfold getProbabilityColor. by rewrite Math_round_nonneg_finite. }
  pose proof (Qfloor_le (v + (1#2))) as Hfl.
  pose proof (Qlt_floor (v + (1#2))) as Hfu.
  rewrite inject_Z_plus in Hfu. change (inject_Z 1) with 1 in Hfu.
  set (r := inject_Z (Qfloor (v + (1#2)))) in *.
  assert (B2Q p / 100 == B2Q p * (1#100)) as -> by (unfold Qdiv; reflexivity).
  apply Qabs_Qle_condition. split; lra.
Qed.

End AccuracyFacts.

(** ** Facts about the page *)

Section PageFacts.
Import App Page.
Context {number : Type} `{EqDecision number}.
Variable Number : string → number.
Variable numberToString : number → string.
Variable numeral : nat → number.
Variable getProbabilityColor : number → string.
Variable toFixed0 : number → string.

Ltac run :=
  repeat progress unfold exec, handleNumberSelection, handleNumberSelection_start,
    handleAssign, handleAssign_begin, handleDifficultyChange, handleDifficultyChange_begin,
    handleResetWithDifficulty, handleCellClick, handleNumberToggle,
    assignCellValues, assignCellValues_start, assignCellValues_resume, resumePending,
    resetBoard, resetBoard_begin, resetBoard_settle, settle,
    fetchBoard, fetchBoard_begin, fetchBoard_start, fetchBoard_resume, cellAt, Object_keys,
    setBoard, setMessage, setLoading, setDifficulty, setSelectedNumbers,
    setSelectedCell, modifyApp, alert, console_error, fetch, getState,
    getSelectedNumbers, throw, mbind, M_bind, mret, M_ret in *; simpl in *.

(** The sequential handlers are the handlers of the page with every
    request settled on the spot. *)
Lemma fetchBoard_settled (srv : Server number) (w : World number) :
  fetchBoard srv w = (p ← fetchBoard_begin; settleNow 1 p) srv w.
Proof.
  destruct w as [[b sc msg ld df] sn st al co]. run.
  destruct (board_endpoint _ _ _); reflexivity.
Qed.

Lemma resetBoard_settled (arg : option string) (srv : Server number) (w : World number) :
  resetBoard arg srv w = (p ← resetBoard_begin arg; settleNow 2 p) srv w.
Proof.
  destruct w as [[b sc msg ld df] sn st al co]. run.
  destruct (reset_endpoint _ _ _) as [e|data]; run; [reflexivity|].
  destruct (ToBoolean (reset_success data)); run; [|reflexivity].
  destruct (board_endpoint _ _ _); reflexivity.
Qed.

Lemma handleAssign_settled (srv : Server number) (w : World number) :
  handleAssign Number numberToString srv w
  = (p ← handleAssign_begin Number numberToString; settleNow 1 p) srv w.
Proof.
  unfold handleAssign, handleAssign_begin, getSelectedNumbers, mbind, M_bind.
  cbv beta iota. case_bool_decide; [reflexivity|].
  destruct (handleNumberSelection_start _ _ _ _ _) as [[[r|]|e] w1]; simpl; try reflexivity.
  unfold setSelectedNumbers, resumePending, settle, assignCellValues_resume, mbind, M_bind,
    mret, M_ret. simpl.
  destruct r as [e|data]; simpl; [reflexivity|].
  destruct (ToBoolean (assign_success data)); reflexivity.
Qed.

(** The page after a step: its state and its requests in flight. *)
Lemma world_refresh (w : World number) (fl : list Pending) (errors : list string) :
  world (refresh Number numberToString numeral getProbabilityColor toFixed0 w fl errors) = w.
Proof. unfold refresh. by destruct (App_render _ _ _ _ _ _). Qed.

Lemma inflight_refresh (w : World number) (fl : list Pending) (errors : list string) :
  inflight (refresh Number numberToString numeral getProbabilityColor toFixed0 w fl errors) = fl.
Proof. unfold refresh. by destruct (App_render _ _ _ _ _ _). Qed.

Lemma world_after (p : Page) (fl : list Pending)
    (r : completion (option Pending) * World number) :
  world (after Number numberToString numeral getProbabilityColor toFixed0 p fl r) = r.2.
Proof. unfold after. destruct r.1; apply world_refresh. Qed.

Lemma inflight_after (p : Page) (fl : list Pending)
    (r : completion (option Pending) * World number) :
  inflight (after Number numberToString numeral getProbabilityColor toFixed0 p fl r)
  = fl ++ match r.1 with Normal started => option_list started | Throws _ => [] end.
Proof.
  unfold after. destruct r.1; rewrite inflight_refresh; [done|by rewrite app_nil_r].
Qed.

(** An event leaves the page as it is, or settles a request in flight,
    or runs the handler of an element on the page. *)
Lemma fire_cases (srv : Server number) (p : Page) (e : Event) :
  fire Number numberToString numeral getProbabilityColor toFixed0 srv p e = p ∨
  (∃ i pd, e = Settle i ∧ inflight p !! i = Some pd ∧ blank p = false ∧
     fire Number numberToString numeral getProbabilityColor toFixed0 srv p e
     = after Number numberToString numeral getProbabilityColor toFixed0
         p (delete i (inflight p)) (settle pd srv (world p))) ∨
  (∃ v handler, blank p = false ∧
     App_render Number numberToString numeral getProbabilityColor toFixed0 (world p)
     = Normal v ∧
     target Number numberToString v e = Some handler ∧
     fire Number numberToString numeral getProbabilityColor toFixed0 srv p e
     = after Number numberToString numeral getProbabilityColor toFixed0
         p (inflight p) (handler srv (world p))).
Proof.
  unfold fire. destruct (blank p) eqn:Hblank; [by left|].
  destruct e as [i j|i| |i| |i].
  6:{ destruct (inflight p !! i) as [pd|] eqn:Hpd; [|by left].
      right. left. by exists i, pd. }
  all: destruct (App_render _ _ _ _ _ _) as [v|err] eqn:Hv; [|by left].
  all: match goal with
       | |- context [target _ _ ?v' ?e'] =>
           destruct (target Number numberToString v' e') as [handler|] eqn:Ht; [|by left]
       end.
  all: right; right; by exists v, handler.
Qed.

Lemma renderCell_onClick (selected : option (nat * nat)) (i j : nat)
    (cell : Cell number) (d : SudokuBoard.CellDiv) :
  SudokuBoard.renderCell getProbabilityColor toFixed0 selected i j cell = Normal d →
  SudokuBoard.onClick d = (i, j) ∧ SudokuBoard.boardCell cell.
Proof.
  unfold SudokuBoard.renderCell, SudokuBoard.boardCell.
  destruct (value cell); [intros [= <-]; split; [done|by left]|].
  destruct (possibilities cell); simpl; [|done].
  intros [= <-]. split; [done|by right].
Qed.

(** What is on the page when it renders. *)
Lemma App_render_Normal (w : World number) (v : AppView) :
  App_render Number numberToString numeral getProbabilityColor toFixed0 w = Normal v →
  InfoPanel Number numberToString numeral w = Normal (info_panel v) ∧
  if loading (app w) then game_area v = None
  else ∃ r, SudokuBoard.SudokuBoard getProbabilityColor toFixed0
              (board (app w)) (selectedCell (app w)) = Normal r ∧
            game_area v = Some r.
Proof.
  unfold App_render. destruct (cellData w) as [cd|]; [|done].
  destruct (loading (app w)).
  - destruct (InfoPanel Number numberToString numeral w) as [panel|]; [|done].
    by intros [= <-].
  - destruct (SudokuBoard.SudokuBoard getProbabilityColor toFixed0 (board (app w))
                (selectedCell (app w))) as [area|]; [|done].
    destruct (InfoPanel Number numberToString numeral w) as [panel|]; [|done].
    intros [= <-]. split; [done|]. by exists area.
Qed.

(** The buttons of the panel. *)
Lemma InfoPanel_Normal (w : World number) (panel : PanelView) :
  InfoPanel Number numberToString numeral w = Normal panel →
  SudokuBoard.mapi (λ _ n, numberButton Number numberToString w n) 0 (numbers numeral)
  = Normal (number_grid panel) ∧
  assign_disabled panel
  = bool_decide (length (selectedNumbers w) = 0) || bool_decide (selectedCell (app w) = None) ∧
  difficulty_onClick <$> difficulty_selector panel = levels.
Proof.
  unfold InfoPanel.
  destruct (SudokuBoard.mapi _ 0 (numbers numeral)) as [grid|]; [|done].
  by intros [= <-].
Qed.

Lemma numberButton_Normal (w : World number) (n : number) (b : NumberButton) :
  numberButton Number numberToString w n = Normal b →
  number_onClick b = n ∧
  isNumberAvailable Number w n = Normal (negb (number_disabled b)).
Proof.
  unfold numberButton. destruct (isNumberAvailable Number w n) as [available|]; [|done].
  intros [= <-]. simpl. by rewrite negb_involutive.
Qed.

(** The elements on the page and their handlers. *)
Lemma target_cases (w : World number) (v : AppView) (e : Event)
    (handler : M number (option Pending)) :
  App_render Number numberToString numeral getProbabilityColor toFixed0 w = Normal v →
  target Number numberToString v e = Some handler →
  match e with
  | ClickCell i j =>
      ∃ cell,
        loading (app w) = false ∧
        lookupCell (board (app w)) i j = Some cell ∧
        SudokuBoard.boardCell cell ∧
        handler = (handleCellClick Number numberToString i j;; mret None)
  | ClickNumber k =>
      ∃ n, numbers numeral !! k = Some n ∧
        isNumberAvailable Number w n = Normal true ∧
        handler = (handleNumberToggle n;; mret None)
  | ClickAssign =>
      selectedNumbers w ≠ [] ∧ selectedCell (app w) ≠ None ∧
      handler = handleAssign_begin Number numberToString
  | ClickDifficulty k =>
      ∃ level, levels !! k = Some level ∧
        handler = handleResetWithDifficulty (Some handleDifficultyChange_begin)
                    resetBoard_begin level
  | ClickNewGame => handler = resetBoard_begin None
  | Settle _ => False
  end.
Proof.
  intros Hv. destruct (App_render_Normal w v Hv) as [Hpanel Harea].
  destruct (InfoPanel_Normal w _ Hpanel) as (Hgrid & Hassign & Hlevels).
  destruct e as [i j|k| |k| |k]; simpl; try done.
  - destruct (game_area v) as [[|rs]|] eqn:Hgame; try done.
    destruct (rs !! i) as [rd|] eqn:Hrd; [|done].
    destruct (SudokuBoard.cells rd !! j) as [d|] eqn:Hd; [|done]. intros [= <-].
    destruct (loading (app w)); [done|]. destruct Harea as (r & Hr & [= <-]).
    unfold SudokuBoard.SudokuBoard in Hr.
    destruct (board (app w)) as [rows|] eqn:Hboard; [|done].
    destruct (SudokuBoard.mapi _ 0 rows) as [rs'|] eqn:Hrs; [|done].
    injection Hr as <-.
    destruct (mapi_Normal_inv _ _ _ _ _ _ Hrs Hrd) as (row & Hrow & Hrender).
    simpl in Hrender. unfold SudokuBoard.renderRow in Hrender.
    destruct (SudokuBoard.mapi _ 0 row) as [cs|] eqn:Hcs; [|done].
    injection Hrender as <-. simpl in Hd.
    destruct (mapi_Normal_inv _ _ _ _ _ _ Hcs Hd) as (cell & Hcell & Hcellrender).
    simpl in Hcellrender.
    destruct (renderCell_onClick _ _ _ _ _ Hcellrender) as [-> Hbc].
    exists cell. split_and!; try done. unfold lookupCell. by rewrite Hrow.
  - destruct (number_grid (info_panel v) !! k) as [b|] eqn:Hb; [|done].
    destruct (number_disabled b) eqn:Hdis; [done|]. intros [= <-].
    destruct (mapi_Normal_inv _ _ _ _ _ _ Hgrid Hb) as (n & Hn & Hbutton).
    simpl in Hbutton. destruct (numberButton_Normal _ _ _ Hbutton) as [-> Hav].
    rewrite Hdis in Hav. by exists n.
  - rewrite Hassign. destruct (_ || _) eqn:Hdis; [done|]. intros [= <-].
    apply orb_false_iff in Hdis as [H1 H2].
    apply bool_decide_eq_false in H1, H2.
    split_and!; [|done|done]. intros Hnil. apply H1. by rewrite Hnil.
  - destruct (difficulty_selector (info_panel v) !! k) as [b|] eqn:Hb; [|done].
    intros [= <-]. exists (difficulty_onClick b). split; [|done].
    rewrite <- Hlevels. by apply list_lookup_fmap_Some_2.
  - by intros [= <-].
Qed.

Lemma pageRequest_board : pageRequest numeral boardRequest.
Proof. by left. Qed.

Lemma pageRequest_reset (level : string) :
  level ∈ levels → pageRequest numeral (resetRequest level).
Proof. intros Hlevel. right. left. by exists level. Qed.

Lemma validNumbers_NoDup (keys : list string) (numbers : list number) :
  NoDup numbers → NoDup (validNumbers Number keys numbers).
Proof. apply NoDup_filter. Qed.

Lemma validNumbers_subseteq (keys : list string) (numbers : list number) :
  validNumbers Number keys numbers ⊆ numbers.
Proof. intros n Hn. by apply list_elem_of_filter in Hn as [_ Hn]. Qed.

(** The general invariant holds once the page is mounted and is kept by
    each settlement and each handler on the page. *)
Lemma tidy_mounted (srv : Server number) :
  let r := fetchBoard_begin srv initialWorld in
  tidy numeral r.2 (match r.1 with Normal started => option_list started | Throws _ => [] end).
Proof.
  run. unfold tidy, levels. simpl. split_and!; try done.
  - repeat constructor.
  - repeat constructor.
  - repeat constructor.
  - constructor.
  - intros m Hm. inversion Hm.
Qed.

Lemma tidy_settle (srv : Server number) (w : World number) (fl : list Pending)
    (i : nat) (pd : Pending) :
  tidy numeral w fl → fl !! i = Some pd →
  let r := settle pd srv w in
  tidy numeral r.2
    (delete i fl ++ match r.1 with Normal started => option_list started | Throws _ => [] end).
Proof.
  destruct w as [[b sc msg ld df] sn st al co].
  intros (Ha & Hd & Hfl & Hs & Hnd & Hsub) Hpd. simpl in *.
  pose proof (Forall_delete _ _ i Hfl) as Hfl'.
  assert (match pd with AwaitReset d _ => d ∈ levels | _ => True end) as Hpd'.
  { rewrite Forall_lookup in Hfl. by apply (Hfl i). }
  unfold tidy. destruct pd as [r|d r|r]; run.
  - destruct r as [e|data]; simpl; rewrite app_nil_r; done.
  - destruct r as [e|data]; simpl; [rewrite app_nil_r; done|].
    destruct (ToBoolean (reset_success data)); simpl; [|rewrite app_nil_r; done].
    split_and!; try done.
    + apply Forall_app. split; [done|]. by apply Forall_singleton.
    + apply Forall_app. split; [done|]. apply Forall_singleton, pageRequest_board.
  - destruct r as [e|data]; simpl; [rewrite app_nil_r; done|].
    destruct (ToBoolean (assign_success data)); simpl; rewrite app_nil_r; done.
Qed.

Lemma tidy_handler (srv : Server number) (w : World number) (fl : list Pending)
    (v : AppView) (e : Event) (handler : M number (option Pending)) :
  App_render Number numberToString numeral getProbabilityColor toFixed0 w = Normal v →
  target Number numberToString v e = Some handler →
  tidy numeral w fl →
  let r := handler srv w in
  tidy numeral r.2
    (fl ++ match r.1 with Normal started => option_list started | Throws _ => [] end).
Proof.
  intros Hv Ht (Ha & Hd & Hfl & Hs & Hnd & Hsub).
  pose proof (target_cases _ _ _ _ Hv Ht) as Hcases. clear Hv Ht.
  destruct e as [i j|k| |k| |k];
    [destruct Hcases as (cell & _ & Hcell & _ & ->)
    |destruct Hcases as (n & Hn%list_elem_of_lookup_2 & _ & ->)
    |destruct Hcases as (Hsel & Hsc & ->)
    |destruct Hcases as (level & Hlevel%list_elem_of_lookup_2 & ->)
    |subst handler
    |done];
    destruct w as [[b sc msg ld df] sn st al co]; simpl in *; unfold tidy.
  - run. rewrite Hcell. simpl.
    destruct (value cell); simpl; [rewrite app_nil_r; done|].
    destruct (possibilities cell); simpl; rewrite app_nil_r; done.
  - run. case_bool_decide as Hin; simpl; rewrite app_nil_r; split_and!; try done.
    + by apply NoDup_filter.
    + intros m Hm. apply Hsub. by apply list_elem_of_filter in Hm as [_ Hm].
    + apply NoDup_app. split_and!; [done| |apply NoDup_singleton].
      intros m Hm ->%list_elem_of_singleton. done.
    + intros m [Hm| ->%list_elem_of_singleton]%elem_of_app; [by apply Hsub|done].
  - run. rewrite bool_decide_false by (by destruct sn). simpl.
    destruct sc as [[row col]|]; [|done]. simpl.
    destruct (lookupCell b row col) as [cell|]; simpl; [|rewrite app_nil_r; done].
    destruct (value cell); simpl.
    { rewrite app_nil_r. split_and!; try done; [constructor|]. intros m Hm. inversion Hm. }
    destruct (possibilities cell) as [entries|]; simpl; [|rewrite app_nil_r; done].
    case_bool_decide as Hvalid; simpl.
    { rewrite app_nil_r. split_and!; try done; [constructor|]. intros m Hm. inversion Hm. }
    assert (pageRequest numeral (assignRequest row col (validNumbers Number entries.*1 sn)))
      as Hreq.
    { right. right. eexists _, _, _. split_and!; [reflexivity| | |].
      - intros Hnil. by rewrite Hnil in Hvalid.
      - by apply validNumbers_NoDup.
      - intros m Hm. apply Hsub. by apply validNumbers_subseteq in Hm. }
    case_bool_decide; simpl; (split_and!; try done;
      [ apply Forall_app; split; [done|by apply Forall_singleton]
      | apply Forall_app; split; [done|by apply Forall_singleton]
      | constructor
      | intros m Hm; inversion Hm ]).
  - run. case_bool_decide; simpl; [|rewrite app_nil_r; done].
    split_and!; try done.
    + apply Forall_app. split; [done|]. by apply Forall_singleton.
    + apply Forall_app. split; [done|]. by apply Forall_singleton, pageRequest_reset.
  - run. split_and!; try done.
    + apply Forall_app. split; [done|]. by apply Forall_singleton.
    + apply Forall_app. split; [done|]. by apply Forall_singleton, pageRequest_reset.
Qed.

Lemma tidy_fire (srv : Server number) (p : Page) (e : Event) :
  tidy numeral (world p) (inflight p) →
  let p' := fire Number numberToString numeral getProbabilityColor toFixed0 srv p e in
  tidy numeral (world p') (inflight p').
Proof.
  intros Htidy.
  destruct (fire_cases srv p e) as [->|[(i & pd & _ & Hpd & _ & ->)|(v & h & _ & Hv & Ht & ->)]];
    cbv zeta; [done| |]; rewrite world_after, inflight_after.
  - by apply tidy_settle.
  - by eapply tidy_handler.
Qed.

Lemma tidy_play (srv : Server number) (es : list Event) :
  let p := play Number numberToString numeral getProbabilityColor toFixed0 srv es in
  tidy numeral (world p) (inflight p).
Proof.
  cbv zeta. unfold play.
  assert (tidy numeral
            (world (mounted Number numberToString numeral getProbabilityColor toFixed0 srv))
            (inflight (mounted Number numberToString numeral getProbabilityColor toFixed0 srv)))
    as Hstart.
  { unfold mounted. rewrite world_after, inflight_after. apply tidy_mounted. }
  revert Hstart. generalize (mounted Number numberToString numeral getProbabilityColor toFixed0 srv).
  induction es as [|e es IH]; intros p Hp; simpl; [done|].
  apply IH. by apply tidy_fire.
Qed.

(** The cells of a Sudoku board. *)
Lemma sudokuBoard_lookup (rows : Board number) (row col : nat) :
  sudokuBoard rows → row < 9 → col < 9 →
  ∃ cells cell, (rows : list (list (Cell number))) !! row = Some cells ∧
                cells !! col = Some cell ∧ SudokuBoard.boardCell cell.
Proof.
  intros [Hlen Hrows] Hrow Hcol.
  destruct (lookup_lt_is_Some_2 rows row) as [cells Hcells]; [lia|].
  rewrite Forall_forall in Hrows.
  destruct (Hrows cells) as [Hlen' Hcs]; [by eapply list_elem_of_lookup_2|].
  destruct (lookup_lt_is_Some_2 cells col) as [cell Hcell]; [lia|].
  exists cells, cell. split_and!; try done.
  rewrite Forall_forall in Hcs. apply Hcs. by eapply list_elem_of_lookup_2.
Qed.

Lemma sudokuBoard_lookup_inv (rows : Board number) (row col : nat) (cell : Cell number) :
  sudokuBoard rows → lookupCell (Some rows) row col = Some cell →
  row < 9 ∧ col < 9 ∧ SudokuBoard.boardCell cell.
Proof.
  intros [Hlen Hrows]. unfold lookupCell.
  destruct ((rows : list (list (Cell number))) !! row) as [cells|] eqn:Hcells; [|done].
  intros Hcell. rewrite Forall_forall in Hrows.
  destruct (Hrows cells) as [Hlen' Hcs]; [by eapply list_elem_of_lookup_2|].
  apply lookup_lt_Some in Hcells as Hr. apply lookup_lt_Some in Hcell as Hc.
  split_and!; [lia|lia|].
  rewrite Forall_forall in Hcs. apply Hcs. by eapply list_elem_of_lookup_2.
Qed.

Lemma sudokuBoard_cells (rows : Board number) :
  sudokuBoard rows → Forall (Forall SudokuBoard.boardCell) rows.
Proof. intros [_ Hrows]. eapply Forall_impl; [exact Hrows|]. by intros row [_ Hrow]. Qed.

(** In a sound state every number's availability is decided. *)
Lemma sound_available (w : World number) (fl : list Pending) (n : number) :
  sound w fl → ∃ available, isNumberAvailable Number w n = Normal available.
Proof.
  destruct w as [[b sc msg ld df] sn st al co]. intros (Hb & Hsel & _). simpl in *.
  unfold isNumberAvailable, cellData. simpl.
  destruct sc as [[row col]|]; [|by eexists].
  destruct b as [rows|]; [|by eexists].
  destruct (Hsel row col eq_refl) as (Hrow & Hcol & _).
  destruct (sudokuBoard_lookup rows row col (Hb rows eq_refl) Hrow Hcol)
    as (cells & cell & -> & -> & Hcell).
  unfold SudokuBoard.boardCell in Hcell.
  destruct (value cell); [by eexists|].
  destruct Hcell as [Hcell|Hcell]; [done|].
  destruct (possibilities cell); [by eexists|done].
Qed.

(** A sound state renders. *)
Lemma sound_renders (w : World number) (fl : list Pending) :
  sound w fl →
  ∃ v, App_render Number numberToString numeral getProbabilityColor toFixed0 w = Normal v.
Proof.
  intros Hsound. pose proof Hsound as (Hb & Hsel & _). unfold App_render.
  assert (∃ cd, cellData w = Normal cd) as [cd ->].
  { unfold cellData. destruct (selectedCell (app w)) as [[row col]|] eqn:Hsc; [|by eexists].
    destruct (board (app w)) as [rows|] eqn:Hboard; [|by eexists].
    destruct (Hsel row col eq_refl) as (Hrow & Hcol & _).
    destruct (sudokuBoard_lookup rows row col (Hb rows eq_refl) Hrow Hcol)
      as (cells & cell & -> & _ & _). by eexists. }
  assert (∃ panel, InfoPanel Number numberToString numeral w = Normal panel) as [panel ->].
  { unfold InfoPanel.
    destruct (mapi_completes (λ _ n, numberButton Number numberToString w n) 0
                (numbers numeral)) as [grid ->]; [|by eexists].
    intros k n _. simpl. unfold numberButton.
    destruct (sound_available w fl n Hsound) as [available ->]. by eexists. }
  destruct (loading (app w)); [by eexists|].
  unfold SudokuBoard.SudokuBoard.
  destruct (board (app w)) as [rows|] eqn:Hboard; [|by eexists].
  destruct (SudokuBoard_completes getProbabilityColor toFixed0 rows (selectedCell (app w)))
    as [rs ->]; [|by eexists].
  apply sudokuBoard_cells, Hb. done.
Qed.

(** Against a server of Sudoku boards, settling a request throws
    nothing and keeps the state sound. *)
Lemma sound_settle (srv : Server number) (w : World number) (fl : list Pending)
    (i : nat) (pd : Pending) :
  servesSudokuBoards srv → sound w fl → fl !! i = Some pd →
  ∃ started, (settle pd srv w).1 = Normal started ∧
             sound (settle pd srv w).2 (delete i fl ++ option_list started).
Proof.
  destruct w as [[b sc msg ld df] sn st al co].
  intros [Hboards Hassigns] (Hb & Hsel & Hfl) Hpd. simpl in *.
  pose proof (Forall_delete _ _ i Hfl) as Hfl'.
  assert (carriesSudokuBoard pd) as Hpd'.
  { rewrite Forall_lookup in Hfl. by apply (Hfl i). }
  unfold sound. destruct pd as [r|d r|r]; run.
  - destruct r as [e|data]; simpl; (eexists; split; [reflexivity|]); simpl;
      rewrite app_nil_r; [done|].
    destruct Hpd' as (rows & -> & Hrows). split_and!; [|intros row col Hsc|done].
    + by intros rows' [= <-].
    + destruct (Hsel row col Hsc) as (? & ? & _). done.
  - destruct r as [e|data]; simpl; [eexists; split; [reflexivity|]; simpl;
                                     rewrite app_nil_r; done|].
    destruct (ToBoolean (reset_success data)); simpl;
      (eexists; split; [reflexivity|]); simpl; [|rewrite app_nil_r; done].
    split_and!; [done|done|]. apply Forall_app. split; [done|].
    apply Forall_singleton. simpl.
    destruct (board_endpoint srv st _) as [e|loaded] eqn:Hreply; [done|].
    by eapply Hboards.
  - destruct r as [e|data]; simpl; [eexists; split; [reflexivity|]; simpl;
                                     rewrite app_nil_r; done|].
    destruct (ToBoolean (assign_success data)) eqn:Hsuccess; simpl;
      (eexists; split; [reflexivity|]); simpl; rewrite app_nil_r; [|done].
    destruct (Hpd' eq_refl) as (rows & -> & Hrows). split_and!; [|intros row col Hsc|done].
    + by intros rows' [= <-].
    + destruct (Hsel row col Hsc) as (? & ? & _). done.
Qed.

(** Against a server of Sudoku boards, the handler of an element on the
    page throws nothing and keeps the state sound. *)
Lemma sound_handler (srv : Server number) (w : World number) (fl : list Pending)
    (v : AppView) (e : Event) (handler : M number (option Pending)) :
  servesSudokuBoards srv →
  App_render Number numberToString numeral getProbabilityColor toFixed0 w = Normal v →
  target Number numberToString v e = Some handler →
  sound w fl →
  ∃ started, (handler srv w).1 = Normal started ∧
             sound (handler srv w).2 (fl ++ option_list started).
Proof.
  intros [Hboards Hassigns] Hv Ht (Hb & Hsel & Hfl).
  pose proof (target_cases _ _ _ _ Hv Ht) as Hcases. clear Hv Ht.
  destruct e as [i j|k| |k| |k];
    [destruct Hcases as (cell & _ & Hcell & Hbc & ->)
    |destruct Hcases as (n & _ & _ & ->)
    |destruct Hcases as (Hnum & Hsc & ->)
    |destruct Hcases as (level & _ & ->)
    |subst handler
    |done];
    destruct w as [[b sc msg ld df] sn st al co]; simpl in *; unfold sound.
  - run. rewrite Hcell. simpl.
    assert (∀ row col, Some (i, j) = Some (row, col) → row < 9 ∧ col < 9 ∧ b ≠ None) as Hsel'.
    { intros row col [= <- <-]. destruct b as [rows|]; [|done].
      destruct (sudokuBoard_lookup_inv rows i j cell (Hb rows eq_refl) Hcell) as (? & ? & _).
      done. }
    unfold SudokuBoard.boardCell in Hbc.
    destruct (value cell); simpl.
    { eexists. split; [reflexivity|]. simpl. rewrite app_nil_r. done. }
    destruct Hbc as [Hbc|Hbc]; [done|].
    destruct (possibilities cell); [|done]. simpl.
    eexists. split; [reflexivity|]. simpl. rewrite app_nil_r. done.
  - run. case_bool_decide; simpl; (eexists; split; [reflexivity|]); simpl;
      rewrite app_nil_r; done.
  - run. rewrite bool_decide_false by (by destruct sn). simpl.
    destruct sc as [[row col]|]; [|done]. simpl.
    destruct (Hsel row col eq_refl) as (Hrow & Hcol & Hboard).
    destruct b as [rows|]; [|done].
    destruct (sudokuBoard_lookup rows row col (Hb rows eq_refl) Hrow Hcol)
      as (cells & cell & Hcells & Hcell & Hbc).
    unfold lookupCell. rewrite Hcells, Hcell. simpl.
    unfold SudokuBoard.boardCell in Hbc.
    destruct (value cell); simpl.
    { eexists. split; [reflexivity|]. simpl. rewrite app_nil_r. done. }
    destruct Hbc as [Hbc|Hbc]; [done|].
    destruct (possibilities cell) as [entries|]; [|done]. simpl.
    case_bool_decide; simpl.
    { eexists. split; [reflexivity|]. simpl. rewrite app_nil_r. done. }
    case_bool_decide; simpl; (eexists; split; [reflexivity|]); simpl;
      (split_and!; [done|done|]; apply Forall_app; split; [done|];
       apply Forall_singleton; simpl;
       destruct (assign_endpoint srv st _) as [err|data] eqn:Hreply; [done|];
       by eapply Hassigns).
  - run. case_bool_decide; simpl; (eexists; split; [reflexivity|]); simpl;
      [|rewrite app_nil_r; done].
    split_and!; [done|done|]. apply Forall_app. split; [done|]. by apply Forall_singleton.
  - run. eexists. split; [reflexivity|]. simpl.
    split_and!; [done|done|]. apply Forall_app. split; [done|]. by apply Forall_singleton.
Qed.

(** A step that throws nothing and ends in a sound state leaves the page
    on the screen. *)
Lemma after_sound (p : Page) (fl : list Pending)
    (r : completion (option Pending) * World number) (started : option Pending) :
  blank p = false → uncaught p = [] →
  r.1 = Normal started → sound r.2 (fl ++ option_list started) →
  let p' := after Number numberToString numeral getProbabilityColor toFixed0 p fl r in
  blank p' = false ∧ uncaught p' = [] ∧ sound (world p') (inflight p').
Proof.
  intros Hblank Huncaught Hr Hsound. cbv zeta. unfold after. rewrite Hr.
  unfold refresh. destruct (sound_renders _ _ Hsound) as [v ->]. simpl. by rewrite Huncaught.
Qed.

Lemma sound_fire (srv : Server number) (p : Page) (e : Event) :
  servesSudokuBoards srv →
  blank p = false ∧ uncaught p = [] ∧ sound (world p) (inflight p) →
  let p' := fire Number numberToString numeral getProbabilityColor toFixed0 srv p e in
  blank p' = false ∧ uncaught p' = [] ∧ sound (world p') (inflight p').
Proof.
  intros Hsrv (Hblank & Huncaught & Hsound).
  destruct (fire_cases srv p e) as [->|[(i & pd & _ & Hpd & _ & ->)|(v & h & _ & Hv & Ht & ->)]];
    cbv zeta; [done| |].
  - destruct (sound_settle srv _ _ i pd Hsrv Hsound Hpd) as (started & Hr & Hs).
    by eapply after_sound.
  - destruct (sound_handler srv _ _ v e h Hsrv Hv Ht Hsound) as (started & Hr & Hs).
    by eapply after_sound.
Qed.

Lemma sound_play (srv : Server number) (es : list Event) :
  servesSudokuBoards srv →
  let p := play Number numberToString numeral getProbabilityColor toFixed0 srv es in
  blank p = false ∧ uncaught p = [] ∧ sound (world p) (inflight p).
Proof.
  intros Hsrv. cbv zeta. unfold play.
  assert (let p := mounted Number numberToString numeral getProbabilityColor toFixed0 srv in
          blank p = false ∧ uncaught p = [] ∧ sound (world p) (inflight p)) as Hstart.
  { cbv zeta. unfold mounted. eapply after_sound; [done|done|reflexivity|].
    run. unfold sound. simpl. split_and!; [done|done|].
    apply Forall_singleton. simpl.
    destruct (board_endpoint srv [] _) as [e|data] eqn:Hreply; [done|].
    destruct Hsrv as [Hboards _]. by eapply Hboards. }
  cbv zeta in Hstart. revert Hstart.
  generalize (mounted Number numberToString numeral getProbabilityColor toFixed0 srv).
  induction es as [|e es IH]; intros p Hp; simpl; [done|].
  apply IH. by apply sound_fire.
Qed.

(** No step clears the selected cell. *)
Lemma selected_fire (srv : Server number) (p : Page) (e : Event) :
  selectedCell (app (world p)) ≠ None →
  selectedCell
    (app (world (fire Number numberToString numeral getProbabilityColor toFixed0 srv p e)))
  ≠ None.
Proof.
  intros Hsel.
  destruct (fire_cases srv p e) as [->|[(i & pd & _ & Hpd & _ & ->)|(v & h & _ & Hv & Ht & ->)]];
    [done| |]; rewrite world_after.
  - destruct (world p) as [[b sc msg ld df] sn st al co]. simpl in *.
    destruct pd as [r|d r|r]; run.
    + by destruct r.
    + destruct r as [err|data]; simpl; [done|].
      by destruct (ToBoolean (reset_success data)).
    + destruct r as [err|data]; simpl; [done|].
      by destruct (ToBoolean (assign_success data)).
  - pose proof (target_cases _ _ _ _ Hv Ht) as Hcases. clear Hv Ht.
    destruct e as [i j|k| |k| |k];
      [destruct Hcases as (cell & _ & Hcell & _ & ->)
      |destruct Hcases as (n & _ & _ & ->)
      |destruct Hcases as (Hnum & Hsc & ->)
      |destruct Hcases as (level & _ & ->)
      |subst h
      |done];
      destruct (world p) as [[b sc msg ld df] sn st al co]; simpl in *.
    + run. rewrite Hcell. simpl. destruct (value cell); simpl; [done|].
      by destruct (possibilities cell).
    + run. by case_bool_decide.
    + run. case_bool_decide; simpl; [done|].
      destruct sc as [[row col]|]; [|done]. simpl.
      destruct (lookupCell b row col) as [cell|]; simpl; [|done].
      destruct (value cell); simpl; [done|].
      destruct (possibilities cell); simpl; [|done].
      case_bool_decide; simpl; [done|]. by case_bool_decide.
    + run. by case_bool_decide.
    + run. done.
Qed.

(** X19: whatever the server answers and whatever is clicked, the page raises
    no alert: the one alert of the panel, for an empty selection, sits
    behind a button that is disabled while the selection is empty. *)
Theorem page_never_alerts (srv : Server number) (es : list Event) :
  alerts (world (play Number numberToString numeral getProbabilityColor toFixed0 srv es))
  = [].
Proof. by destruct (tidy_play srv es) as (Halerts & _). Qed.

(** X20: whatever the server answers and whatever is clicked, every request
    the page sends is GET /board, a reset to easy, medium or hard, or an
    assignment carrying at least one of the numbers 1 to 9 and none
    twice; and the difficulty the page holds is one of the three. *)
Theorem page_requests (srv : Server number) (es : list Event) :
  let p := play Number numberToString numeral getProbabilityColor toFixed0 srv es in
  Forall (pageRequest numeral) (sent (world p)) ∧
  difficulty (app (world p)) ∈ levels.
Proof. by destruct (tidy_play srv es) as (_ & Hd & _ & Hs & _). Qed.

(** X21: whatever the server answers and whatever is clicked, the numbers
    selected in the panel are among the nine of the number grid, each at
    most once; so there are at most nine. *)
Theorem page_selection (srv : Server number) (es : list Event) :
  let p := play Number numberToString numeral getProbabilityColor toFixed0 srv es in
  NoDup (selectedNumbers (world p)) ∧
  selectedNumbers (world p) ⊆ numbers numeral ∧
  length (selectedNumbers (world p)) ≤ 9.
Proof.
  destruct (tidy_play srv es) as (_ & _ & _ & _ & Hnd & Hsub). cbv zeta.
  split_and!; [done|done|].
  change 9 with (length (numbers numeral)).
  apply submseteq_length, NoDup_submseteq; done.
Qed.

(** X22: against a server whose boards are Sudoku boards, nothing ever
    throws: no handler, no continuation of a request and no rendering.
    The page stays on the screen whatever is clicked and in whatever
    order the requests settle. *)
Theorem page_never_throws (srv : Server number) (es : list Event) :
  servesSudokuBoards srv →
  let p := play Number numberToString numeral getProbabilityColor toFixed0 srv es in
  blank p = false ∧ uncaught p = [].
Proof. intros Hsrv. by destruct (sound_play srv es Hsrv) as (Hblank & Huncaught & _). Qed.

(** X23: against a server whose boards are Sudoku boards, the selected cell
    is at all times a cell of the board the page holds, Fixed or in
    superposition, also after the board has been replaced. *)
Theorem selected_cell_in_board (srv : Server number) (es : list Event) (row col : nat) :
  servesSudokuBoards srv →
  let w := world (play Number numberToString numeral getProbabilityColor toFixed0 srv es) in
  selectedCell (app w) = Some (row, col) →
  ∃ cell, lookupCell (board (app w)) row col = Some cell ∧ SudokuBoard.boardCell cell.
Proof.
  intros Hsrv. cbv zeta. intros Hsel.
  destruct (sound_play srv es Hsrv) as (_ & _ & Hb & Hsc & _).
  destruct (Hsc row col Hsel) as (Hrow & Hcol & Hboard).
  destruct (board (app _)) as [rows|] eqn:Hrows; [|done].
  destruct (sudokuBoard_lookup rows row col (Hb rows eq_refl) Hrow Hcol)
    as (cells & cell & Hcells & Hcell & Hbc).
  exists cell. split; [|done]. unfold lookupCell. by rewrite Hcells.
Qed.

(** X24: once a cell is selected, a cell stays selected: nothing the page
    does, a reset included, clears the selection of a cell. *)
Theorem selected_cell_stays (srv : Server number) (es later : list Event) :
  selectedCell
    (app (world (play Number numberToString numeral getProbabilityColor toFixed0 srv es)))
  ≠ None →
  selectedCell
    (app (world (play Number numberToString numeral getProbabilityColor toFixed0 srv
                   (es ++ later))))
  ≠ None.
Proof.
  unfold play. rewrite foldl_app.
  generalize (foldl (fire Number numberToString numeral getProbabilityColor toFixed0 srv)
                (mounted Number numberToString numeral getProbabilityColor toFixed0 srv) es).
  induction later as [|e later IH]; intros p Hp; simpl; [done|].
  apply IH. by apply selected_fire.
Qed.

(** X25: the number grid shows the numbers 1 to 9 in order, each on a button
    that is enabled exactly when the selected cell is a cell of the
    board in superposition with that number among its candidates. *)
Theorem number_grid_enabled (w : World number) (panel : PanelView) :
  InfoPanel Number numberToString numeral w = Normal panel →
  number_onClick <$> number_grid panel = (λ i, numeral (i + 1)) <$> seq 0 9 ∧
  ∀ b, b ∈ number_grid panel →
    (number_disabled b = false ↔
     ∃ row col cell entries,
       selectedCell (app w) = Some (row, col) ∧
       lookupCell (board (app w)) row col = Some cell ∧
       value cell = None ∧
       possibilities cell = Some entries ∧
       number_onClick b ∈ Number <$> entries.*1).
Proof.
  intros Hpanel. destruct (InfoPanel_Normal w panel Hpanel) as (Hgrid & _ & _).
  destruct (mapi_Normal _ _ _ _ Hgrid) as [Hlen Hall]. split.
  - change ((λ i, numeral (i + 1)) <$> seq 0 9) with (numbers numeral).
    apply list_eq. intros k. rewrite list_lookup_fmap.
    destruct (numbers numeral !! k) as [n|] eqn:Hn.
    + destruct (Hall k n Hn) as (b & -> & Hb). simpl in *.
      by destruct (numberButton_Normal _ _ _ Hb) as [-> _].
    + apply lookup_ge_None in Hn. rewrite <- Hlen in Hn.
      apply lookup_ge_None in Hn. by rewrite Hn.
  - intros b [k Hb]%list_elem_of_lookup.
    destruct (mapi_Normal_inv _ _ _ _ _ _ Hgrid Hb) as (n & _ & Hbutton). simpl in Hbutton.
    destruct (numberButton_Normal _ _ _ Hbutton) as [Hn Hav]. subst n.
    rewrite <- isNumberAvailable_true, Hav.
    destruct (number_disabled b); simpl; split; done.
Qed.

(** What a click on a cell does to the state, as a handler of the page. *)
Lemma cell_click_effect (srv : Server number) (w : World number) (i j : nat) :
  let r : completion (option (@Pending number)) * World number :=
    (handleCellClick Number numberToString i j;; mret None) srv w in
  selectedCell (app r.2) = Some (i, j) ∧
  board (app r.2) = board (app w) ∧
  sent r.2 = sent w ∧
  match r.1 with Normal started => option_list started | Throws _ => [] end = [].
Proof.
  destruct w as [[b sc msg ld df] sn st al co]. run.
  destruct (lookupCell b i j) as [cell|]; simpl; [|done].
  destruct (value cell); simpl; [done|].
  destruct (possibilities cell); simpl; done.
Qed.

(** X26: a click on the [j]-th cell element of the [i]-th row element either
    finds no such element and changes nothing, or selects the cell at
    row [i], column [j] of the board, with the board not loading, and
    changes neither the board nor what has been sent nor what is in
    flight.  On a page that shows the board, the click on a cell the
    board has does select it. *)
Theorem cell_click_selects_that_cell (srv : Server number) (p : Page) (i j : nat) :
  let p' := fire Number numberToString numeral getProbabilityColor toFixed0 srv p
              (ClickCell i j) in
  (p' = p ∨
   loading (app (world p)) = false ∧
   is_Some (lookupCell (board (app (world p))) i j) ∧
   selectedCell (app (world p')) = Some (i, j) ∧
   board (app (world p')) = board (app (world p)) ∧
   sent (world p') = sent (world p) ∧
   inflight p' = inflight p) ∧
  (∀ v cell,
     blank p = false →
     App_render Number numberToString numeral getProbabilityColor toFixed0 (world p)
     = Normal v →
     loading (app (world p)) = false →
     lookupCell (board (app (world p))) i j = Some cell →
     selectedCell (app (world p')) = Some (i, j)).
Proof.
  cbv zeta. split.
  - destruct (fire_cases srv p (ClickCell i j))
      as [->|[(k & pd & [=] & _)|(v & h & _ & Hv & Ht & ->)]]; [by left|].
    right. destruct (target_cases _ _ _ _ Hv Ht) as (cell & Hloading & Hcell & _ & ->).
    rewrite world_after, inflight_after.
    destruct (cell_click_effect srv (world p) i j) as (Hsel & Hboard & Hsent & ->).
    rewrite app_nil_r. split_and!; done.
  - intros v cell Hblank Hv Hloading Hcell.
    destruct (App_render_Normal _ _ Hv) as [_ Harea]. rewrite Hloading in Harea.
    destruct Harea as (r & Hr & Harea).
    unfold SudokuBoard.SudokuBoard in Hr. unfold lookupCell in Hcell.
    destruct (board (app (world p))) as [rows|]; [|done].
    destruct (SudokuBoard.mapi _ 0 rows) as [rs|] eqn:Hrs; [|done]. injection Hr as <-.
    destruct ((rows : list (list (Cell number))) !! i) as [row|] eqn:Hrow; [|done].
    destruct (mapi_Normal _ _ _ _ Hrs) as [_ Hall].
    destruct (Hall i row Hrow) as (rd & Hrd & Hrender). simpl in Hrender.
    unfold SudokuBoard.renderRow in Hrender.
    destruct (SudokuBoard.mapi _ 0 row) as [cs|] eqn:Hcs; [|done]. injection Hrender as <-.
    destruct (mapi_Normal _ _ _ _ Hcs) as [_ Hall'].
    destruct (Hall' j cell Hcell) as (d & Hd & Hdrender). simpl in Hdrender.
    destruct (renderCell_onClick _ _ _ _ _ Hdrender) as [Hclick _].
    unfold fire. rewrite Hblank, Hv. simpl. rewrite Harea, Hrd. simpl. rewrite Hd, Hclick.
    simpl. rewrite world_after.
    by destruct (cell_click_effect srv (world p) i j) as (Hsel & _).
Qed.

(** X27: no click changes the board or the difficulty: the page shows a new
    board, or another difficulty, only once the server has answered. *)
Theorem clicks_keep_board_and_difficulty (srv : Server number) (p : Page) (e : Event) :
  (∀ i, e ≠ Settle i) →
  let p' := fire Number numberToString numeral getProbabilityColor toFixed0 srv p e in
  board (app (world p')) = board (app (world p)) ∧
  difficulty (app (world p')) = difficulty (app (world p)).
Proof.
  intros Hclick. cbv zeta.
  destruct (fire_cases srv p e)
    as [->|[(i & pd & -> & _)|(v & h & _ & Hv & Ht & ->)]]; [done|by destruct (Hclick i)|].
  rewrite world_after.
  pose proof (target_cases _ _ _ _ Hv Ht) as Hcases. clear Hv Ht.
  destruct e as [i j|k| |k| |k];
    [destruct Hcases as (cell & _ & Hcell & _ & ->)
    |destruct Hcases as (n & _ & _ & ->)
    |destruct Hcases as (Hnum & Hsc & ->)
    |destruct Hcases as (level & _ & ->)
    |subst h
    |done];
    destruct (world p) as [[b sc msg ld df] sn st al co]; simpl in *.
  - run. rewrite Hcell. simpl. destruct (value cell); simpl; [done|].
    by destruct (possibilities cell).
  - run. by case_bool_decide.
  - run. case_bool_decide; simpl; [done|].
    destruct sc as [[row col]|]; [|done]. simpl.
    destruct (lookupCell b row col) as [cell|]; simpl; [|done].
    destruct (value cell); simpl; [done|].
    destruct (possibilities cell); simpl; [|done].
    case_bool_decide; simpl; [done|]. by case_bool_decide.
  - run. by case_bool_decide.
  - run. done.
Qed.

(** X28: whatever the server answers and whatever is clicked, the panel
    marks exactly one difficulty button as active: the button of the
    difficulty the page holds. *)
Theorem one_difficulty_active (srv : Server number) (es : list Event) (panel : PanelView) :
  let w := world (play Number numberToString numeral getProbabilityColor toFixed0 srv es) in
  InfoPanel Number numberToString numeral w = Normal panel →
  ∃ k b,
    difficulty_selector panel !! k = Some b ∧
    difficulty_onClick b = difficulty (app w) ∧
    difficulty_className b = "difficulty-button active" ∧
    ∀ k' b', k' ≠ k → difficulty_selector panel !! k' = Some b' →
             difficulty_className b' = "difficulty-button ".
Proof.
  cbv zeta. destruct (tidy_play srv es) as (_ & Hlevel & _). cbv zeta in Hlevel.
  set (w := world _) in *. unfold InfoPanel.
  destruct (SudokuBoard.mapi _ 0 (numbers numeral)) as [grid|]; [|done].
  intros [= <-]. simpl. unfold levels in Hlevel.
  apply elem_of_cons in Hlevel as [Hl|Hlevel];
    [|apply elem_of_cons in Hlevel as [Hl|Hlevel];
      [|apply list_elem_of_singleton in Hlevel as Hl]]; rewrite Hl.
  - exists 0, (difficultyButton "easy" "easy" "Easy"). split_and!; try done.
    intros [|[|[|k']]] b' Hk' Hb'; simpl in Hb'; try done; by injection Hb' as <-.
  - exists 1, (difficultyButton "medium" "medium" "Medium"). split_and!; try done.
    intros [|[|[|k']]] b' Hk' Hb'; simpl in Hb'; try done; by injection Hb' as <-.
  - exists 2, (difficultyButton "hard" "hard" "Hard"). split_and!; try done.
    intros [|[|[|k']]] b' Hk' Hb'; simpl in Hb'; try done; by injection Hb' as <-.
Qed.

(** Against a server that grants every reset, each step keeps a request
    in flight while the page is loading. *)
Lemma waiting_settle (srv : Server number) (w : World number) (fl : list Pending)
    (i : nat) (pd : Pending) :
  waiting w fl → fl !! i = Some pd →
  let r := settle pd srv w in
  waiting r.2
    (delete i fl ++ match r.1 with Normal started => option_list started | Throws _ => [] end).
Proof.
  destruct w as [[b sc msg ld df] sn st al co].
  intros (Hloading & Hfl) Hpd. simpl in *.
  pose proof (Forall_delete _ _ i Hfl) as Hfl'.
  assert (match pd with
          | AwaitReset _ r =>
              ∃ data, r = Resolves data ∧ ToBoolean (reset_success data) = true
          | _ => True
          end) as Hpd'.
  { rewrite Forall_lookup in Hfl. by apply (Hfl i). }
  unfold waiting. destruct pd as [r|d r|r]; run.
  - destruct r as [e|data]; simpl; rewrite app_nil_r; done.
  - destruct Hpd' as (data & -> & Hsuccess). simpl. rewrite Hsuccess. simpl. split.
    + intros _ Hnil. by apply app_eq_nil in Hnil as [_ Hnil].
    + apply Forall_app. split; [done|]. by apply Forall_singleton.
  - destruct r as [e|data]; simpl; [rewrite app_nil_r; done|].
    destruct (ToBoolean (assign_success data)); simpl; rewrite app_nil_r; done.
Qed.

Lemma waiting_handler (srv : Server number) (w : World number) (fl : list Pending)
    (v : AppView) (e : Event) (handler : M number (option Pending)) :
  grantsResets srv →
  App_render Number numberToString numeral getProbabilityColor toFixed0 w = Normal v →
  target Number numberToString v e = Some handler →
  waiting w fl →
  let r := handler srv w in
  waiting r.2
    (fl ++ match r.1 with Normal started => option_list started | Throws _ => [] end).
Proof.
  intros Hsrv Hv Ht (Hloading & Hfl).
  pose proof (target_cases _ _ _ _ Hv Ht) as Hcases. clear Hv Ht.
  destruct e as [i j|k| |k| |k];
    [destruct Hcases as (cell & _ & Hcell & _ & ->)
    |destruct Hcases as (n & _ & _ & ->)
    |destruct Hcases as (Hsel & Hsc & ->)
    |destruct Hcases as (level & _ & ->)
    |subst handler
    |done];
    destruct w as [[b sc msg ld df] sn st al co]; simpl in *; unfold waiting.
  - run. rewrite Hcell. simpl.
    destruct (value cell); simpl; [rewrite app_nil_r; done|].
    destruct (possibilities cell); simpl; rewrite app_nil_r; done.
  - run. case_bool_decide; simpl; rewrite app_nil_r; done.
  - run. rewrite bool_decide_false by (by destruct sn). simpl.
    destruct sc as [[row col]|]; [|done]. simpl.
    destruct (lookupCell b row col) as [cell|]; simpl; [|rewrite app_nil_r; done].
    destruct (value cell); simpl; [rewrite app_nil_r; done|].
    destruct (possibilities cell) as [entries|]; simpl; [|rewrite app_nil_r; done].
    case_bool_decide; simpl; [rewrite app_nil_r; done|].
    case_bool_decide; simpl;
      (split; [intros _ Hnil; by apply app_eq_nil in Hnil as [_ Hnil]
              |apply Forall_app; split; [done|by apply Forall_singleton]]).
  - run. case_bool_decide; simpl; [|rewrite app_nil_r; done].
    split; [intros _ Hnil; by apply app_eq_nil in Hnil as [_ Hnil]|].
    apply Forall_app. split; [done|]. apply Forall_singleton. simpl. apply Hsrv.
  - run. split; [intros _ Hnil; by apply app_eq_nil in Hnil as [_ Hnil]|].
    apply Forall_app. split; [done|]. apply Forall_singleton. simpl. apply Hsrv.
Qed.

Lemma waiting_play (srv : Server number) (es : list Event) :
  grantsResets srv →
  let p := play Number numberToString numeral getProbabilityColor toFixed0 srv es in
  waiting (world p) (inflight p).
Proof.
  intros Hsrv. cbv zeta. unfold play.
  assert (let p := mounted Number numberToString numeral getProbabilityColor toFixed0 srv in
          waiting (world p) (inflight p)) as Hstart.
  { cbv zeta. unfold mounted. rewrite world_after, inflight_after. run.
    unfold waiting. simpl. split; [done|]. by apply Forall_singleton. }
  cbv zeta in Hstart. revert Hstart.
  generalize (mounted Number numberToString numeral getProbabilityColor toFixed0 srv).
  induction es as [|e es IH]; intros p Hp; simpl; [done|].
  apply IH.
  destruct (fire_cases srv p e)
    as [->|[(i & pd & _ & Hpd & _ & ->)|(v & h & _ & Hv & Ht & ->)]];
    [done| |]; rewrite world_after, inflight_after.
  - by apply waiting_settle.
  - by eapply waiting_handler.
Qed.

(** X29: against a server that grants every reset, the page is loading only
    while a request is in flight: "Loading..." is never left standing
    with no request to wait for.  (A reset that fails breaks this.) *)
Theorem loading_means_in_flight (srv : Server number) (es : list Event) :
  grantsResets srv →
  let p := play Number numberToString numeral getProbabilityColor toFixed0 srv es in
  loading (app (world p)) = true → inflight p ≠ [].
Proof.
  intros Hsrv. cbv zeta. by destruct (waiting_play srv es Hsrv) as [Hloading _].
Qed.

End PageFacts.

(** ** The facts above on the sample data *)

Lemma assign_failure_handling_witness :
  let w := Sample.world (Some (0, 0)) [] in
  let w' := App.exec (App.assignCellValues 0 0 [1%Z]) Demo.offline w in
  App.board (App.app w') = Some Sample.sample_board ∧
  App.message (App.app w') = Some "Error assigning values: Failed to fetch" ∧
  App.console w' = ["Error assigning values:"].
Proof.
  intros w w'. exact (assign_failure_handling 0 0 [1%Z] Demo.offline w I).
Defined.

(** An HTTP error body has a [detail] and no [success]. *)
Lemma assign_error_body_example :
  let srv : App.Server Z :=
    {| App.board_endpoint := λ _ _, Rejects "Failed to fetch";
       App.reset_endpoint := λ _ _, Rejects "Failed to fetch";
       App.assign_endpoint := λ _ _,
         Resolves {| App.assign_success := None; App.assign_board := None;
                     App.assign_message := None;
                     App.assign_detail := Some "Invalid candidates" |} |} in
  let w := Sample.world (Some (0, 0)) [] in
  let w' := App.exec (App.assignCellValues 0 0 [1%Z]) srv w in
  App.board (App.app w') = Some Sample.sample_board ∧
  App.message (App.app w') = Some "Error assigning values: Invalid candidates" ∧
  App.loading (App.app w') = false.
Proof. intros srv w w'. split_and!; reflexivity. Qed.

Lemma reset_failure_keeps_loading_witness :
  let w := Sample.world (Some (0, 0)) [] in
  let w' := App.exec (App.resetBoard (Some "hard")) (Sample.server Sample.refusal) w in
  App.loading (App.app w') = true ∧
  App.sent w' =
    [{| App.url := "http://localhost:8000/reset?difficulty=hard";
        App.method := "POST"; App.headers := []; App.body := None |}] ∧
  App.board (App.app w') = Some Sample.sample_board ∧
  App.difficulty (App.app w') = "medium" ∧
  App.message (App.app w') = Some "Error resetting board: unknown difficulty".
Proof.
  intros w w'.
  exact (reset_failure_keeps_loading (Some "hard") (Sample.server Sample.refusal) w eq_refl).
Defined.

Lemma reset_success_outcome_witness :
  let w := Sample.world (Some (0, 0)) [3%Z] in
  let w' := App.exec (App.resetBoard (Some "easy")) (Sample.server Sample.refusal) w in
  App.loading (App.app w') = false ∧
  App.difficulty (App.app w') = "easy" ∧
  App.selectedCell (App.app w') = Some (0, 0) ∧
  App.selectedNumbers w' = [3%Z] ∧
  App.board (App.app w') = Some Sample.sample_board ∧
  App.message (App.app w') = Some "Board loaded. Click on a cell to start playing!".
Proof.
  intros w w'.
  exact (reset_success_outcome (Some "easy") (Sample.server Sample.refusal) w
           {| App.reset_success := Some true;
              App.reset_message := Some "unknown difficulty" |} eq_refl eq_refl).
Defined.

Lemma handleCellClick_lists_candidates_witness :
  let w := Sample.world None [] in
  ∃ shown,
    App.message (App.app (App.exec (App.handleCellClick Sample.Number Sample.numberToString
                                      0 0) (Sample.server Sample.approval) w))
    = Some ("Cell (" +:+ pretty 0 +:+ ", " +:+ pretty 0
            +:+ ") - Select numbers from: "
            +:+ join ", " (Sample.numberToString <$> shown)) ∧
    shown ≡ₚ Sample.Number <$> ["1"; "2"] ∧
    StronglySorted (λ a b, (Sample.numberToString a ≤ Sample.numberToString b)%string) shown.
Proof.
  intros w.
  exact (handleCellClick_lists_candidates Sample.Number Sample.numberToString 0 0
           (Sample.server Sample.approval) w Sample.open_cell
           [("1", 50%Z); ("2", 50%Z)] eq_refl eq_refl eq_refl).
Defined.

(** The message of that click, spelled out. *)
Lemma handleCellClick_message_example :
  App.message (App.app (App.exec (App.handleCellClick Sample.Number Sample.numberToString
                                    0 2) (Sample.server Sample.approval)
                          (Sample.world None [])))
  = Some "Cell (0, 2) - Select numbers from: 1, 3".
Proof. reflexivity. Qed.

Lemma handleNumberToggle_twice_witness :
  let w := Sample.world None [1%Z; 2%Z] in
  let w' := App.exec (App.handleNumberToggle 1%Z;; App.handleNumberToggle 1%Z)
              (Sample.server Sample.approval) w in
  NoDup [1%Z; 2%Z] ∧
  App.selectedNumbers w' = [2%Z; 1%Z] ∧
  App.selectedNumbers w' ≡ₚ [1%Z; 2%Z].
Proof.
  intros w w'.
  assert (NoDup [1%Z; 2%Z]) as Hnd by compute_done.
  assert (1%Z ∈ [1%Z; 2%Z]) as Hin by compute_done.
  destruct (handleNumberToggle_twice 1%Z (Sample.server Sample.approval) w Hnd)
    as (_ & Hmoved & Hperm).
  split; [exact Hnd|]. split; [exact (Hmoved Hin)|exact Hperm].
Defined.

Lemma handleAssign_clears_selection_witness :
  let w := Sample.world (Some (0, 1)) [7%Z] in
  let r := App.handleAssign Sample.Number Sample.numberToString
             (Sample.server Sample.approval) w in
  App.selectedNumbers w ≠ [] ∧
  App.selectedNumbers r.2 = [] ∧
  App.sent r.2 = [].
Proof.
  intros w r.
  assert (App.selectedNumbers w ≠ []) as Hsel by discriminate.
  destruct (handleAssign_clears_selection Sample.Number Sample.numberToString
              (Sample.server Sample.approval) w Hsel) as (Hcleared & _).
  split; [exact Hsel|]. split; [exact Hcleared|reflexivity].
Defined.

Lemma available_selection_is_sent_whole_witness :
  let w := Sample.world (Some (0, 0)) [2%Z; 1%Z] in
  let w' := App.exec (App.handleAssign Sample.Number Sample.numberToString)
              (Sample.server Sample.approval) w in
  Forall (λ n, App.isNumberAvailable Sample.Number w n = Normal true) [2%Z; 1%Z] ∧
  App.sent w' = [App.assignRequest 0 0 [2%Z; 1%Z]] ∧
  App.selectedNumbers w' = [].
Proof.
  intros w w'.
  assert (Forall (λ n, App.isNumberAvailable Sample.Number w n = Normal true)
            [2%Z; 1%Z]) as Hall.
  { constructor; [reflexivity|]. constructor; [reflexivity|]. constructor. }
  assert (App.selectedNumbers w ≠ []) as Hsel by discriminate.
  split; [exact Hall|].
  exact (available_selection_is_sent_whole Sample.Number Sample.numberToString
           (Sample.server Sample.approval) w 0 0 eq_refl Hsel Hall).
Defined.

Lemma selection_notice_does_not_last_witness :
  let w := Sample.world (Some (0, 0)) [] in
  let begun := (App.handleNumberSelection_start Sample.Number Sample.numberToString
                  [1%Z; 3%Z] (Sample.server Sample.approval) w).2 in
  let w' := App.exec (App.handleNumberSelection Sample.Number Sample.numberToString
                        [1%Z; 3%Z]) (Sample.server Sample.approval) w in
  App.message (App.app begun) = Some "Only 1 are valid for this cell." ∧
  App.loading (App.app begun) = true ∧
  App.loading (App.app w') = false ∧
  App.message (App.app w') = Some "assigned".
Proof.
  intros w begun w'.
  assert (App.validNumbers Sample.Number [("1", 50%Z); ("2", 50%Z)].*1 [1%Z; 3%Z] ≠ [])
    as Hvalid by (vm_compute; discriminate).
  exact (selection_notice_does_not_last Sample.Number Sample.numberToString [1%Z; 3%Z]
           (Sample.server Sample.approval) w 0 0 Sample.open_cell
           [("1", 50%Z); ("2", 50%Z)] eq_refl eq_refl eq_refl eq_refl Hvalid).
Defined.

Lemma sample_board_cells : Forall (Forall SudokuBoard.boardCell) Sample.sample_board.
Proof.
  constructor; [|constructor].
  constructor; [right; discriminate|].
  constructor; [left; discriminate|].
  constructor; [right; discriminate|]. constructor.
Qed.

Lemma SudokuBoard_layout_witness :
  Forall (Forall SudokuBoard.boardCell) Sample.sample_board ∧
  ∃ rs, SudokuBoard.SudokuBoard Sample.colorOf Sample.percentOf
          (Some Sample.sample_board) (Some (0, 1)) = Normal (SudokuBoard.BoardDiv rs) ∧
        length rs = 1.
Proof.
  split; [exact sample_board_cells|].
  destruct (SudokuBoard_layout Sample.colorOf Sample.percentOf Sample.sample_board
              (Some (0, 1)) sample_board_cells) as (rs & Hrs & Hlen & _).
  exists rs. split; [exact Hrs|exact Hlen].
Defined.

(** A row holding a cell without value and without possibilities does
    not render. *)
Lemma SudokuBoard_throws_example :
  SudokuBoard.SudokuBoard Sample.colorOf Sample.percentOf
    (Some [[Sample.open_cell; {| App.value := None; App.possibilities := None |}]]) None
  = Throws "TypeError".
Proof. reflexivity. Qed.

Lemma sortPossibilities_order_independent_witness :
  SudokuBoard.possibilitiesMapping Sample.shuffled_entries ∧
  Sample.shuffled_entries ≡ₚ [("1", 80%Z); ("3", 20%Z)] ∧
  SudokuBoard.sortPossibilities Sample.shuffled_entries
  = SudokuBoard.sortPossibilities [("1", 80%Z); ("3", 20%Z)].
Proof.
  assert (SudokuBoard.possibilitiesMapping Sample.shuffled_entries) as Hmap.
  { split; compute_done. }
  assert (Sample.shuffled_entries ≡ₚ [("1", 80%Z); ("3", 20%Z)]) as Hperm.
  { apply Permutation_swap. }
  split; [exact Hmap|]. split; [exact Hperm|].
  exact (sortPossibilities_order_independent _ _ Hmap Hperm).
Defined.

Lemma sibling_keys_distinct_witness :
  ∃ rs, SudokuBoard.SudokuBoard Sample.colorOf Sample.percentOf
          (Some Sample.sample_board) None = Normal (SudokuBoard.BoardDiv rs) ∧
        NoDup (SudokuBoard.row_key <$> rs) ∧
        Forall (λ rd, NoDup (SudokuBoard.cell_key <$> SudokuBoard.cells rd)) rs.
Proof.
  eexists. split; [vm_compute; reflexivity|].
  match goal with
  | |- NoDup (_ <$> ?rs) ∧ _ =>
      destruct (sibling_keys_distinct Sample.colorOf Sample.percentOf Sample.sample_board
                  None rs eq_refl) as (Hrows & Hcells & _)
  end.
  split; [exact Hrows|exact Hcells].
Defined.

Lemma getProbabilityColor_accuracy_witness :
  Color.percentage (Color.literal 90) ∧
  ∃ r, Color.getProbabilityColor (Color.literal 90)
       = {| Color.red := Color.Integer r; Color.green := Color.Integer 255;
            Color.blue := Color.Integer r |} ∧
       (Qabs (inject_Z r - 255 * (1 - B2Q (Color.literal 90) / 100))
        <= (1#2) + (1 # 1000000000000))%Q.
Proof.
  assert (Color.percentage (Color.literal 90)) as Hp.
  { split; [exact I|]. vm_compute. discriminate. }
  split; [exact Hp|]. exact (getProbabilityColor_accuracy (Color.literal 90) Hp).
Defined.

Lemma demo_open_cell : SudokuBoard.boardCell Demo.open_cell.
Proof. right. discriminate. Qed.

Lemma demo_grid : Page.sudokuBoard Demo.grid.
Proof.
  split; [reflexivity|].
  apply Forall_forall. intros row ->%elem_of_replicate_inv.
  split; [reflexivity|].
  apply Forall_forall. intros cell ->%elem_of_replicate_inv. exact demo_open_cell.
Qed.

Lemma demo_grid_after : Page.sudokuBoard Demo.grid_after.
Proof.
  split; [reflexivity|]. unfold Demo.grid_after.
  apply Forall_cons. split.
  - split; [reflexivity|]. apply Forall_cons. split; [left; discriminate|].
    apply Forall_forall. intros cell ->%elem_of_replicate_inv. exact demo_open_cell.
  - apply Forall_forall. intros row ->%elem_of_replicate_inv.
    split; [reflexivity|].
    apply Forall_forall. intros cell ->%elem_of_replicate_inv. exact demo_open_cell.
Qed.

Lemma demo_server_serves : Page.servesSudokuBoards Demo.server.
Proof.
  split.
  - intros history req data [= <-]. exists Demo.grid. split; [reflexivity|exact demo_grid].
  - intros history req data [= <-] _. exists Demo.grid_after.
    split; [reflexivity|exact demo_grid_after].
Qed.

(** A first move on the sample page. *)
Lemma demo_first_move :
  let p := Demo.play Demo.server Demo.first_move in
  App.sent (Page.world p) = [Page.boardRequest; App.assignRequest 0 0 [5%Z]] ∧
  App.board (App.app (Page.world p)) = Some Demo.grid_after ∧
  App.message (App.app (Page.world p)) = Some "Assigned" ∧
  App.selectedCell (App.app (Page.world p)) = Some (0, 0) ∧
  App.selectedNumbers (Page.world p) = [] ∧
  Page.inflight p = [].
Proof. vm_compute. repeat split. Qed.

Lemma page_never_throws_witness :
  Page.servesSudokuBoards Demo.server ∧
  Page.blank (Page.play Sample.Number Sample.numberToString Demo.numeral
                Sample.colorOf Sample.percentOf Demo.server
                (Demo.first_move ++ Demo.harder)) = false ∧
  Page.uncaught (Page.play Sample.Number Sample.numberToString Demo.numeral
                   Sample.colorOf Sample.percentOf Demo.server
                   (Demo.first_move ++ Demo.harder)) = [].
Proof.
  split; [exact demo_server_serves|].
  exact (page_never_throws Sample.Number Sample.numberToString Demo.numeral
           Sample.colorOf Sample.percentOf Demo.server
           (Demo.first_move ++ Demo.harder) demo_server_serves).
Defined.

Lemma selected_cell_in_board_witness :
  App.selectedCell
    (App.app (Page.world (Page.play Sample.Number Sample.numberToString Demo.numeral
                            Sample.colorOf Sample.percentOf Demo.server Demo.first_move)))
  = Some (0, 0) ∧
  ∃ cell,
    App.lookupCell
      (App.board
         (App.app (Page.world (Page.play Sample.Number Sample.numberToString Demo.numeral
                                 Sample.colorOf Sample.percentOf Demo.server
                                 Demo.first_move)))) 0 0 = Some cell ∧
    SudokuBoard.boardCell cell.
Proof.
  assert (App.selectedCell
            (App.app (Page.world (Page.play Sample.Number Sample.numberToString Demo.numeral
                                    Sample.colorOf Sample.percentOf Demo.server
                                    Demo.first_move)))
          = Some (0, 0)) as Hsel by (vm_compute; reflexivity).
  split; [exact Hsel|].
  exact (selected_cell_in_board Sample.Number Sample.numberToString Demo.numeral
           Sample.colorOf Sample.percentOf Demo.server Demo.first_move 0 0
           demo_server_serves Hsel).
Defined.

Lemma selected_cell_stays_witness :
  App.selectedCell
    (App.app (Page.world (Page.play Sample.Number Sample.numberToString Demo.numeral
                            Sample.colorOf Sample.percentOf Demo.server Demo.first_move)))
  ≠ None ∧
  App.selectedCell
    (App.app (Page.world (Page.play Sample.Number Sample.numberToString Demo.numeral
                            Sample.colorOf Sample.percentOf Demo.server
                            (Demo.first_move ++ Demo.harder))))
  ≠ None.
Proof.
  assert (App.selectedCell
            (App.app (Page.world (Page.play Sample.Number Sample.numberToString Demo.numeral
                                    Sample.colorOf Sample.percentOf Demo.server
                                    Demo.first_move)))
          ≠ None) as Hsel by (vm_compute; discriminate).
  split; [exact Hsel|].
  exact (selected_cell_stays Sample.Number Sample.numberToString Demo.numeral
           Sample.colorOf Sample.percentOf Demo.server Demo.first_move Demo.harder Hsel).
Defined.

Lemma number_grid_enabled_witness :
  ∃ panel,
    Page.InfoPanel Sample.Number Sample.numberToString Demo.numeral
      (Sample.world (Some (0, 0)) []) = Normal panel ∧
    Page.number_onClick <$> Page.number_grid panel
    = (λ i, Demo.numeral (i + 1)) <$> seq 0 9 ∧
    Page.number_disabled <$> Page.number_grid panel
    = [false; false; true; true; true; true; true; true; true].
Proof.
  eexists. split; [vm_compute; reflexivity|].
  match goal with
  | |- _ <$> Page.number_grid ?panel = _ ∧ _ =>
      assert (Page.InfoPanel Sample.Number Sample.numberToString Demo.numeral
                (Sample.world (Some (0, 0)) []) = Normal panel) as Hpanel
        by (vm_compute; reflexivity);
      destruct (number_grid_enabled Sample.Number Sample.numberToString Demo.numeral
                  (Sample.world (Some (0, 0)) []) panel Hpanel) as [Hnumbers _]
  end.
  split; [exact Hnumbers|reflexivity].
Defined.

Lemma clicks_keep_board_and_difficulty_witness :
  (∀ i, Page.ClickDifficulty 2 ≠ Page.Settle i) ∧
  App.board
    (App.app (Page.world
       (Page.fire Sample.Number Sample.numberToString Demo.numeral
          Sample.colorOf Sample.percentOf Demo.server
          (Page.play Sample.Number Sample.numberToString Demo.numeral
             Sample.colorOf Sample.percentOf Demo.server Demo.first_move)
          (Page.ClickDifficulty 2))))
  = App.board
      (App.app (Page.world
         (Page.play Sample.Number Sample.numberToString Demo.numeral
            Sample.colorOf Sample.percentOf Demo.server Demo.first_move))) ∧
  App.difficulty
    (App.app (Page.world
       (Page.fire Sample.Number Sample.numberToString Demo.numeral
          Sample.colorOf Sample.percentOf Demo.server
          (Page.play Sample.Number Sample.numberToString Demo.numeral
             Sample.colorOf Sample.percentOf Demo.server Demo.first_move)
          (Page.ClickDifficulty 2))))
  = App.difficulty
      (App.app (Page.world
         (Page.play Sample.Number Sample.numberToString Demo.numeral
            Sample.colorOf Sample.percentOf Demo.server Demo.first_move))).
Proof.
  assert (∀ i, Page.ClickDifficulty 2 ≠ Page.Settle i) as Hclick
    by (intros i; discriminate).
  split; [exact Hclick|].
  exact (clicks_keep_board_and_difficulty Sample.Number Sample.numberToString Demo.numeral
           Sample.colorOf Sample.percentOf Demo.server
           (Page.play Sample.Number Sample.numberToString Demo.numeral
              Sample.colorOf Sample.percentOf Demo.server Demo.first_move)
           (Page.ClickDifficulty 2) Hclick).
Defined.

Lemma one_difficulty_active_witness :
  ∃ panel,
    Page.InfoPanel Sample.Number Sample.numberToString Demo.numeral
      (Page.world (Page.play Sample.Number Sample.numberToString Demo.numeral
                     Sample.colorOf Sample.percentOf Demo.server
                     (Demo.first_move ++ Demo.harder)))
    = Normal panel ∧
    ∃ k b,
      Page.difficulty_selector panel !! k = Some b ∧
      Page.difficulty_onClick b
      = App.difficulty
          (App.app (Page.world (Page.play Sample.Number Sample.numberToString Demo.numeral
                                  Sample.colorOf Sample.percentOf Demo.server
                                  (Demo.first_move ++ Demo.harder)))) ∧
      Page.difficulty_className b = "difficulty-button active".
Proof.
  eexists. split; [vm_compute; reflexivity|].
  match goal with
  | |- ∃ k b, Page.difficulty_selector ?panel !! k = Some b ∧ _ =>
      assert (Page.InfoPanel Sample.Number Sample.numberToString Demo.numeral
                (Page.world (Page.play Sample.Number Sample.numberToString Demo.numeral
                               Sample.colorOf Sample.percentOf Demo.server
                               (Demo.first_move ++ Demo.harder)))
              = Normal panel) as Hpanel by (vm_compute; reflexivity);
      destruct (one_difficulty_active Sample.Number Sample.numberToString Demo.numeral
                  Sample.colorOf Sample.percentOf Demo.server
                  (Demo.first_move ++ Demo.harder) panel Hpanel)
        as (k & b & Hb & Hclick & Hclass & _)
  end.
  exists k, b. split; [exact Hb|]. split; [exact Hclick|exact Hclass].
Defined.

(** After the third difficulty button and its reset, the game is hard. *)
Lemma demo_harder :
  App.difficulty (App.app (Page.world (Demo.play Demo.server
                                         (Demo.first_move ++ Demo.harder)))) = "hard".
Proof. vm_compute. reflexivity. Qed.

Lemma demo_server_grants : Page.grantsResets Demo.server.
Proof. intros history req. by eexists. Qed.

Lemma loading_means_in_flight_witness :
  Page.grantsResets Demo.server ∧
  App.loading
    (App.app (Page.world (Page.play Sample.Number Sample.numberToString Demo.numeral
                            Sample.colorOf Sample.percentOf Demo.server
                            [Page.Settle 0; Page.ClickNewGame]))) = true ∧
  Page.inflight (Page.play Sample.Number Sample.numberToString Demo.numeral
                   Sample.colorOf Sample.percentOf Demo.server
                   [Page.Settle 0; Page.ClickNewGame]) ≠ [].
Proof.
  assert (App.loading
            (App.app (Page.world (Page.play Sample.Number Sample.numberToString Demo.numeral
                                    Sample.colorOf Sample.percentOf Demo.server
                                    [Page.Settle 0; Page.ClickNewGame]))) = true)
    as Hloading by (vm_compute; reflexivity).
  split; [exact demo_server_grants|]. split; [exact Hloading|].
  exact (loading_means_in_flight Sample.Number Sample.numberToString Demo.numeral
           Sample.colorOf Sample.percentOf Demo.server
           [Page.Settle 0; Page.ClickNewGame] demo_server_grants Hloading).
Defined.

(** A refused reset on the page: the board stays hidden behind
    "Loading..." with nothing in flight. *)
Lemma demo_refused_reset :
  let srv := Sample.server Sample.approval in
  let p := Demo.play srv [Page.Settle 0; Page.ClickDifficulty 2; Page.Settle 0] in
  App.loading (App.app (Page.world p)) = true ∧
  Page.inflight p = [] ∧
  Page.blank p = false ∧
  App.message (App.app (Page.world p)) = Some "Error resetting board: unknown difficulty".
Proof. vm_compute. repeat split. Qed.
